(** * Sybil-attack detection: log sanitiser, analysis engine, worker protocol

    A shallow embedding of [lib/validate.ts] (sanitizeLogs, validateLogs),
    [lib/analyze.ts] (analyzeLogs), the analysis worker (onmessage) and the
    older copy of the analysis that the page keeps ([app/page.tsx]:
    logSummary, processData with its recursive dfs).

    Conventions of the embedding.
    - A JavaScript string is a [string]; each character stands for one code
      unit below 256.
    - Time values (milliseconds since the epoch) are integers; [None] is NaN.
      [Date_parse s] stands for [new Date(s).getTime()] and is a parameter of
      the development.  An ISO string produced by [toISOString] is
      represented by the time value it denotes (the rendering is injective).
      A Date holds a time value of at most [maxTime] = 8.64e15 ms either
      side of the epoch and is invalid otherwise; [toISOString] of an invalid
      Date throws a RangeError.
    - The numeric settings are integers, as the engine's interface requires;
      counters are integers, ratios and scores are exact rationals.  Rounding
      is not modelled; [Binary64] evaluates the composite score on doubles at
      its extremes.
    - Plain objects used as dictionaries are association lists in insertion
      order; [Object_entries] enumerates array-index keys first, ascending,
      as the language prescribes.  A lookup [o[k]] in such an object also
      finds what the object inherits from Object.prototype.  An assignment
      [o[k] = v] always reaches the object itself, except that the key
      [__proto__] replaces its prototype instead of adding a key
      ([Js.assign]).  The test-and-create idiom [if (!o[k]) o[k] = ...] is
      embedded for keys that name no member of Object.prototype
      ([Js.Object_prototype]); for a log with such an actor, target or
      action the dictionaries of the source hold inherited functions where
      the embedding has entries.  [plain_keys] says that a log has no such
      key.  A statement on what a run returns or reports that holds of the
      source only for such logs carries it as a hypothesis; the embedding
      gives every key an entry of its own, so the hypothesis marks where
      the statement holds of the source rather than what its proof
      consults.  (With such a key earlier in the log a failing run can
      throw a TypeError before it reaches the RangeError of an unparsable
      timestamp.)  [Set]s that are enumerated are duplicate-free lists in
      insertion order; [Set]s and [Map]s that are only queried are [gset]s
      and [gmap]s.
    - A call starts from the host's pristine built-in objects.
    - The link, bio and handle heuristics live in modules outside this
      development; the ones the composite score depends on are parameters,
      the scorecard fields that merely report them are left out.
    - Calls are assumed to stay within the resources of the host: the call
      stack, which the recursion of the page's [dfs] uses, and the number of
      arguments of a call, which [Math.min(...allTimes)] uses. *)

From Stdlib Require Import ZArith QArith Qminmax Lqa Ascii String PrimFloat Sorted.
From stdpp Require Import base list strings gmap pretty.

Set Default Proof Using "Type".
Set Warnings "-inexact-float,-clear-no-such-hyp".

Local Open Scope string_scope.
Local Open Scope list_scope.
Local Open Scope Z_scope.

(** ** Host-language helpers *)

Module Js.

(** WhiteSpace and LineTerminator code units below 256. *)
Definition is_whitespace (c : ascii) : bool :=
  let n := N_of_ascii c in
  ((9 <=? n) && (n <=? 13) || (n =? 32) || (n =? 160))%N.

Fixpoint trimStart (s : string) : string :=
  match s with
  | EmptyString => EmptyString
  | String c r => if is_whitespace c then trimStart r else s
  end.

Fixpoint trimEnd (s : string) : string :=
  match s with
  | EmptyString => EmptyString
  | String c r =>
      match trimEnd r with
      | EmptyString => if is_whitespace c then EmptyString else String c EmptyString
      | r' => String c r'
      end
  end.

(** [String.prototype.trim] *)
Definition trim (s : string) : string := trimEnd (trimStart s).

(** Truthiness of a string: the empty string is falsy. *)
Definition truthy (s : string) : bool := negb (String.eqb s "").

(** [Set.prototype.add] on a set that is later enumerated. *)
Definition Set_add (x : string) (s : list string) : list string :=
  if decide (x ∈ s) then s else s ++ [x].

(** Array-index property names: canonical decimal numerals up to 2^32 - 2. *)
Definition digit_of (c : ascii) : option N :=
  let n := N_of_ascii c in
  if ((48 <=? n) && (n <=? 57))%N then Some (n - 48)%N else None.

Fixpoint digits_value (s : string) (acc : N) : option N :=
  match s with
  | EmptyString => Some acc
  | String c r =>
      match digit_of c with
      | Some d => digits_value r (10 * acc + d)%N
      | None => None
      end
  end.

Definition array_index (s : string) : option N :=
  match s with
  | EmptyString => None
  | String c r =>
      if (N_of_ascii c =? 48)%N
      then (if String.eqb r "" then Some 0%N else None)
      else match digits_value s 0 with
           | Some n => if (n <=? 4294967294)%N then Some n else None
           | None => None
           end
  end.

Section Objects.
Context {V : Type}.

Fixpoint insert_by_index (i : N) (kv : string * V) (l : list (N * (string * V)))
  : list (N * (string * V)) :=
  match l with
  | [] => [(i, kv)]
  | (j, kv') :: r =>
      if (i <=? j)%N then (i, kv) :: l else (j, kv') :: insert_by_index i kv r
  end.

Fixpoint index_entries (o : list (string * V)) : list (N * (string * V)) :=
  match o with
  | [] => []
  | kv :: r =>
      match array_index (fst kv) with
      | Some i => insert_by_index i kv (index_entries r)
      | None => index_entries r
      end
  end.

Definition named_entries (o : list (string * V)) : list (string * V) :=
  filter (λ kv, array_index (fst kv) = None) o.

(** [Object.entries]: array indices ascending, then the other keys in
    insertion order. *)
Definition Object_entries (o : list (string * V)) : list (string * V) :=
  map snd (index_entries o) ++ named_entries o.

Definition Object_values (o : list (string * V)) : list V :=
  map snd (Object_entries o).
End Objects.

Section Dictionaries.
Context {K V : Type} `{EqDecision K}.

(** [o[k]] *)
Fixpoint get (k : K) (o : list (K * V)) : option V :=
  match o with
  | [] => None
  | (k', v) :: r => if decide (k = k') then Some v else get k r
  end.

(** [o[k] = v] *)
Fixpoint set (k : K) (v : V) (o : list (K * V)) : list (K * V) :=
  match o with
  | [] => [(k, v)]
  | (k', v') :: r =>
      if decide (k = k') then (k', v) :: r else (k', v') :: set k v r
  end.

(** [if (!o[k]) o[k] = init;] followed by an in-place change [f] of
    [o[k]], for a key under which [o] inherits nothing: what a plain object
    inherits is truthy, so that the test would find it and create no
    entry. *)
Fixpoint update (k : K) (init : V) (f : V → V) (o : list (K * V))
  : list (K * V) :=
  match o with
  | [] => [(k, f init)]
  | (k', v) :: r =>
      if decide (k = k') then (k', f v) :: r else (k', v) :: update k init f r
  end.

(** [const s = o[k]; if (!s) return;] followed by an in-place change of [s] *)
Fixpoint modify (k : K) (f : V → V) (o : list (K * V)) : list (K * V) :=
  match o with
  | [] => []
  | (k', v) :: r =>
      if decide (k = k') then (k', f v) :: r else (k', v) :: modify k f r
  end.
End Dictionaries.

(** The names that every plain object inherits from Object.prototype. *)
Definition Object_prototype : list string :=
  ["constructor"; "__proto__"; "hasOwnProperty"; "isPrototypeOf";
   "propertyIsEnumerable"; "toLocaleString"; "toString"; "valueOf";
   "__defineGetter__"; "__defineSetter__"; "__lookupGetter__"; "__lookupSetter__"].

(** [o[k] = v] for a plain object [o] and an object [v].  The key
    [__proto__] is the accessor of the prototype: the assignment makes [v]
    the prototype of [o] and gives [o] no key of its own.  What is later
    read or changed through [o.__proto__] is [v], which no enumeration of
    [o] lists. *)
Definition assign {V : Type} (k : string) (v : V) (o : list (string * V))
  : list (string * V) :=
  if decide (k = "__proto__") then o else set k v o.

(** The largest time value of a Date, in milliseconds either side of the
    epoch. *)
Definition maxTime : Z := 8640000000000000.

End Js.

(** ** Data model ([lib/analyze.ts]) *)

Record LogEntry := {
  timestamp : string;
  actor : string;
  target : string;
  action : string;
  platform : string;
  bio : option string;
  links : option (list string);
  followerCount : option Z;
  followingCount : option Z;
  amount : option Q;
  txHash : option string;
  blockNumber : option Z;
  meta : option string;
  targetType : option string;
  actorCreatedAt : option string;
  verified : option bool;
  location : option string
}.

Record AnalysisSettings := {
  threshold : Q;
  minClusterSize : Z;
  timeBinMinutes : Z;
  waveMinCount : Z;
  waveMinActors : Z;
  positiveActions : list string;
  churnActions : list string
}.

Inductive EdgeDefinition := Edge (source target type : string).

Definition source_of (e : EdgeDefinition) : string := let 'Edge s _ _ := e in s.
Definition target_of (e : EdgeDefinition) : string := let 'Edge _ t _ := e in t.

Inductive ElementDefinition :=
| NodeElement (id label : string)
| EdgeElement (e : EdgeDefinition).

Record DetailedCluster := {
  clusterId : Z;
  members : list string;
  density : Q;
  conductance : Q;
  externalEdges : Z
}.

Module Wave.
Record WaveResult := {
  windowStart : Z;
  windowEnd : Z;
  action : string;
  target : string;
  actors : list string;
  zScore : Q
}.
End Wave.
Abbreviation WaveResult := Wave.WaveResult.

Module Card.
Record ActorScorecard := {
  actor : string;
  sybilScore : Q;
  churnScore : Q;
  coordinationScore : Q;
  noveltyScore : Q;
  clusterIsolationScore : Q;
  lowDiversityScore : Q;
  profileAnomalyScore : Q;
  links : list string;
  reciprocalRate : Q;
  burstRate : Q;
  newAccountScore : Q
}.
End Card.
Abbreviation ActorScorecard := Card.ActorScorecard.

Record AnalysisResult := {
  elements : list ElementDefinition;
  clusters : list DetailedCluster;
  waves : list WaveResult;
  scorecards : list ActorScorecard
}.

Module Stage.
Inductive t := start | profiles | graph | clusters | waves | scorecards | done.
End Stage.

Record AnalyzeProgress := { stage : Stage.t; pct : Z }.

(** What a call can do: return, or throw.  [Diverge] records that the
    traversal ran out of the fuel the model gives it; [analyzeLogs_completes]
    shows that it never arises. *)
Inductive JsError := RangeError (msg : string) | TypeError (msg : string).

Inductive completion (A : Type) :=
| Normal (a : A)
| Throw (e : JsError)
| Diverge.
Arguments Normal {A} a.
Arguments Throw {A} e.
Arguments Diverge {A}.

Definition error_message (e : JsError) : string :=
  match e with RangeError m | TypeError m => m end.

(** [l.forEach(f)] where [f] may throw. *)
Fixpoint forEach_throwing {A S : Type} (f : S → A → completion S) (l : list A) (s : S)
  : completion S :=
  match l with
  | [] => Normal s
  | x :: r =>
      match f s x with
      | Normal s' => forEach_throwing f r s'
      | Throw e => Throw e
      | Diverge => Diverge
      end
  end.

(** The profile the engine accumulates per actor. *)
Module Profile.
Record t := {
  bio : option string;
  links : option (list string);
  followerCount : option Z;
  followingCount : option Z;
  actorCreatedAt : option string;
  verified : option bool;
  location : option string
}.
Definition empty : t := Build_t None None None None None None None.
End Profile.

(** One cell of [timeBins]. *)
Module Bin.
Record info := { count : Z; actors : list string }.
End Bin.

Module Stats.
Record ActorStats := {
  actor : string;
  totalActions : Z;
  churnActions : Z;
  burstActions : Z;
  uniqueTargets : gset string;
  connections : Z;
  clusterSize : Z;
  positiveOut : Z;
  positiveIn : Z;
  mutualPositive : Z;
  firstSeenMs : option Z
}.
End Stats.
Abbreviation ActorStats := Stats.ActorStats.

(** ** Data model ([lib/validate.ts]) *)

Inductive IssueLevel := level_error | level_warn.

Record ValidationIssue := { level : IssueLevel; message : string }.

Record ValidationStats := {
  rows : Z;
  validRows : Z;
  droppedRows : Z;
  missingRequired : Z;
  invalidTimestamps : Z;
  emptyActors : Z;
  emptyTargets : Z;
  emptyActions : Z;
  emptyPlatforms : Z
}.

Record ValidationReport := {
  ok : bool;
  issues : list ValidationIssue;
  stats : ValidationStats
}.

(** ** Worker messages *)

Inductive Incoming :=
| AnalyzeMessage (requestId : string) (logs : list LogEntry) (settings : AnalysisSettings)
| CancelMessage (requestId : string).

Inductive Outgoing :=
| ProgressMessage (requestId : string) (stage : Stage.t) (pct : Z)
| ResultMessage (requestId : string) (result : AnalysisResult)
| ErrorMessage (requestId : string) (error : string).

Definition requestId_of (m : Outgoing) : string :=
  match m with
  | ProgressMessage i _ _ | ResultMessage i _ | ErrorMessage i _ => i
  end.

(** ** A reference host

    [Host.Date_parse] reads the date-time format [YYYY-MM-DDTHH:mm:ssZ],
    with an optional [.sss] fraction and with the year also in the expanded
    form of a sign and six digits, as the language's [Date.parse] does; it
    treats every other string, and every date beyond [maxTime], as
    unparsable.  It instantiates the [Date_parse] parameter in the closed
    examples. *)

Module Host.

Fixpoint number (n : nat) (s : string) (acc : Z) : option (Z * string) :=
  match n with
  | O => Some (acc, s)
  | S n' =>
      match s with
      | EmptyString => None
      | String c r =>
          match Js.digit_of c with
          | Some d => number n' r (10 * acc + Z.of_N d)
          | None => None
          end
      end
  end.

Definition expect (c : ascii) (s : string) : option string :=
  match s with
  | String c' r => if Ascii.eqb c c' then Some r else None
  | EmptyString => None
  end.

Definition is_leap (y : Z) : bool :=
  (y mod 4 =? 0) && (negb (y mod 100 =? 0) || (y mod 400 =? 0)).

Definition days_in_month (y m : Z) : Z :=
  if m =? 2 then (if is_leap y then 29 else 28)
  else if (m =? 4) || (m =? 6) || (m =? 9) || (m =? 11) then 30 else 31.

(** Days from 1970-01-01 to the civil date [y-m-d]. *)
Definition days_from_civil (y m d : Z) : Z :=
  let y' := if m <=? 2 then y - 1 else y in
  let era := y' / 400 in
  let yoe := y' - era * 400 in
  let doy := (153 * (if 2 <? m then m - 3 else m + 9) + 2) / 5 + d - 1 in
  let doe := yoe * 365 + yoe / 4 - yoe / 100 + doy in
  era * 146097 + doe - 719468.

Definition fraction (s : string) : option (Z * string) :=
  match expect "." s with
  | Some r => number 3 r 0
  | None => Some (0, s)
  end.

(** [YYYY], [+YYYYYY] or [-YYYYYY]; the year [-000000] is not allowed. *)
Definition year (s : string) : option (Z * string) :=
  match s with
  | String "+" r => number 6 r 0
  | String "-" r => '(y, r) ← number 6 r 0; if y =? 0 then None else Some (- y, r)
  | _ => number 4 s 0
  end.

Definition Date_parse (s : string) : option Z :=
  '(y, s) ← year s;
  s ← expect "-" s;
  '(mo, s) ← number 2 s 0;
  s ← expect "-" s;
  '(d, s) ← number 2 s 0;
  s ← expect "T" s;
  '(h, s) ← number 2 s 0;
  s ← expect ":" s;
  '(mi, s) ← number 2 s 0;
  s ← expect ":" s;
  '(se, s) ← number 2 s 0;
  '(ms, s) ← fraction s;
  s ← expect "Z" s;
  let t := (((days_from_civil y mo d * 24 + h) * 60 + mi) * 60 + se) * 1000 + ms in
  if (String.eqb s "") && (1 <=? mo) && (mo <=? 12) && (1 <=? d)
     && (d <=? days_in_month y mo) && (h <=? 23) && (mi <=? 59) && (se <=? 59)
     && (- Js.maxTime <=? t) && (t <=? Js.maxTime)
  then Some t
  else None.

(** Stand-ins for the remaining parameters. *)
Definition Date_now : Z := 1704067200000.
Definition normalizeLinks (l : list string) : list string := l.
Definition extractLinks (b : string) : list string := [].
Definition updateProfileAnomalyScore (a : string) (l : list string)
  (followers following : option Z) : Q := 0.

End Host.

Definition isFinite (t : option Z) : bool :=
  match t with Some _ => true | None => false end.

(** [Number.prototype.toString] on an integer. *)
Definition Number_toString (n : Z) : string :=
  pretty n.

(** [q > 0] on rationals. *)
Definition Qpositive (q : Q) : bool := negb (Qle_bool q 0).

(** The weighted sum as the engine evaluates it, in binary64 arithmetic
    with the decimal weights rounded to the nearest double. *)
Module Binary64.
(** [Math.min] on two numbers that are not NaN. *)
Definition min (a b : float) : float := if PrimFloat.ltb b a then b else a.
Definition composite (coordinationScore churnScore clusterIsolationScore newAccountScore
    lowDiversityScore profileAnomalyScore : float) : float :=
  (0.30 * coordinationScore +
   0.20 * min (churnScore / 10) 1 +
   0.15 * clusterIsolationScore +
   0.10 * newAccountScore +
   0.10 * lowDiversityScore +
   0.15 * profileAnomalyScore)%float.
End Binary64.

(** ** Data model ([app/page.tsx])

    The page keeps an older copy of the analysis in its [processData]; it
    shares the cluster and wave records with the engine and has a smaller
    scorecard.  What [processData] does to the state of the page is the
    list of the setters it calls, in order. *)

Module PageCard.
Record ActorScorecard := {
  actor : string;
  sybilScore : Q;
  churnScore : Q;
  coordinationScore : Q;
  noveltyScore : Q;
  clusterIsolationScore : Q;
  lowDiversityScore : Q;
  profileAnomalyScore : Q;
  links : list string
}.
End PageCard.

Module PageBin.
Record info := { count : Z; actors : list string; targets : list string }.
End PageBin.

Module PageStats.
Record ActorStats := {
  actor : string;
  totalActions : Z;
  churnActions : Z;
  burstActions : Z;
  uniqueTargets : gset string;
  connections : Z;
  clusterSize : Z
}.
End PageStats.

Module Summary.
Record t := {
  total : Z;
  uniqueActors : Z;
  uniqueTargets : Z;
  byPlatform : list (string * Z);
  byAction : list (string * Z)
}.
End Summary.

Inductive PageEffect :=
| setElements (elements : list ElementDefinition)
| setClusters (clusters : list DetailedCluster)
| setWaves (waves : list WaveResult)
| setScorecards (scorecards : list PageCard.ActorScorecard)
| alert (message : string).


Section Engine.

(** [new Date(s).getTime()] *)
Variable Date_parse : string → option Z.
(** [Date.now()] *)
Variable Date_now : Z.
(** The collaborators from [./profile] that the composite score uses. *)
Variable normalizeLinks : list string → list string.
Variable extractLinks : string → list string.
Variable updateProfileAnomalyScore :
  string → list string → option Z → option Z → Q.

(** *** validateLogs, sanitizeLogs *)

Definition count_row (st : ValidationStats) (row : LogEntry) : ValidationStats :=
  let ts := Js.trim (timestamp row) in
  let actor := Js.trim (actor row) in
  let target := Js.trim (target row) in
  let action := Js.trim (action row) in
  let platform := Js.trim (platform row) in
  let missing :=
    negb (Js.truthy ts) || negb (Js.truthy actor) || negb (Js.truthy target)
    || negb (Js.truthy action) || negb (Js.truthy platform) in
  let ms := Date_parse ts in
  let isValid :=
    Js.truthy ts && Js.truthy actor && Js.truthy target && Js.truthy action
    && Js.truthy platform && isFinite ms in
  {| rows := rows st;
     validRows := if isValid then validRows st + 1 else validRows st;
     droppedRows := if isValid then droppedRows st else droppedRows st + 1;
     missingRequired := if missing then missingRequired st + 1 else missingRequired st;
     invalidTimestamps :=
       if isFinite ms then invalidTimestamps st else invalidTimestamps st + 1;
     emptyActors := if Js.truthy actor then emptyActors st else emptyActors st + 1;
     emptyTargets := if Js.truthy target then emptyTargets st else emptyTargets st + 1;
     emptyActions := if Js.truthy action then emptyActions st else emptyActions st + 1;
     emptyPlatforms :=
       if Js.truthy platform then emptyPlatforms st else emptyPlatforms st + 1 |}.

Definition push_if {A : Type} (b : bool) (x : A) (l : list A) : list A :=
  if b then l ++ [x] else l.

Definition validateLogs (logs : list LogEntry) : ValidationReport :=
  let len := Z.of_nat (length logs) in
  let st := fold_left count_row logs (Build_ValidationStats len 0 0 0 0 0 0 0 0) in
  let issues := push_if (len =? 0) {| level := level_error; message := "No rows loaded." |} [] in
  let issues :=
    push_if (0 <? missingRequired st)
      {| level := level_warn;
         message := "Missing required fields in " +:+ Number_toString (missingRequired st)
                    +:+ " row(s). Required: timestamp, platform, action, actor, target." |}
      issues in
  let issues :=
    push_if (0 <? invalidTimestamps st)
      {| level := level_warn;
         message := "Invalid timestamp in " +:+ Number_toString (invalidTimestamps st)
                    +:+ " row(s). Use ISO8601 like 2024-01-01T00:00:00Z." |}
      issues in
  let issues :=
    push_if ((0 <? emptyActions st) && (emptyActions st <? len))
      {| level := level_warn;
         message := "Empty action in " +:+ Number_toString (emptyActions st) +:+ " row(s)." |}
      issues in
  let issues :=
    push_if ((0 <? emptyPlatforms st) && (emptyPlatforms st <? len))
      {| level := level_warn;
         message := "Empty platform in " +:+ Number_toString (emptyPlatforms st) +:+ " row(s)." |}
      issues in
  {| ok := (0 <? len) && (0 <? validRows st); issues := issues; stats := st |}.

(** One round of the [for] loop of [sanitizeLogs]: push the cleaned row,
    or [continue]. *)
Definition sanitize_row (valid : list LogEntry) (row : LogEntry) : list LogEntry :=
  let timestamp' := Js.trim (timestamp row) in
  let actor' := Js.trim (actor row) in
  let target' := Js.trim (target row) in
  let action' := Js.trim (action row) in
  let platform' := Js.trim (platform row) in
  let ms := Date_parse timestamp' in
  if negb (Js.truthy timestamp') || negb (Js.truthy actor') || negb (Js.truthy target')
     || negb (Js.truthy action') || negb (Js.truthy platform')
  then valid
  else if negb (isFinite ms) then valid
  else valid ++ [ {| timestamp := timestamp'; actor := actor'; target := target';
                     action := action'; platform := platform';
                     bio := bio row; links := links row;
                     followerCount := followerCount row;
                     followingCount := followingCount row;
                     amount := amount row; txHash := txHash row;
                     blockNumber := blockNumber row; meta := meta row;
                     targetType := targetType row;
                     actorCreatedAt := actorCreatedAt row;
                     verified := verified row; location := location row |} ].

Definition sanitizeLogs (logs : list LogEntry) : list LogEntry * ValidationReport :=
  let valid := fold_left sanitize_row logs [] in
  let report := validateLogs logs in
  let report :=
    if 0 <? droppedRows (stats report)
    then {| ok := ok report;
            issues := issues report ++
              [ {| level := level_warn;
                   message := "Dropped " +:+ Number_toString (droppedRows (stats report))
                              +:+ " invalid row(s) before analysis." |} ];
            stats := stats report |}
    else report in
  let report :=
    if (Z.of_nat (length valid) =? 0)
    then {| ok := false;
            issues := [ {| level := level_error;
                           message := "No valid rows to analyze after cleaning." |} ];
            stats := stats report |}
    else report in
  (valid, report).

(** *** analyzeLogs: profiles *)

Definition merge_profile (log : LogEntry) (p : Profile.t) : Profile.t :=
  {| Profile.bio :=
       match bio log with
       | Some b => if Js.truthy b then Some b else Profile.bio p
       | None => Profile.bio p
       end;
     Profile.links :=
       match links log with
       | Some l => Some (normalizeLinks l)
       | None => Profile.links p
       end;
     Profile.followerCount :=
       match followerCount log with Some n => Some n | None => Profile.followerCount p end;
     Profile.followingCount :=
       match followingCount log with Some n => Some n | None => Profile.followingCount p end;
     Profile.actorCreatedAt :=
       match actorCreatedAt log with
       | Some c => if Js.truthy c then Some c else Profile.actorCreatedAt p
       | None => Profile.actorCreatedAt p
       end;
     Profile.verified :=
       match verified log with Some v => Some v | None => Profile.verified p end;
     Profile.location :=
       match location log with
       | Some c => if Js.truthy c then Some c else Profile.location p
       | None => Profile.location p
       end |}.

(** The loop that fills [actorProfiles], for actors that name no member of
    Object.prototype; the fields of an actor that does are written to the
    inherited object. *)
Definition collect_profiles (logs : list LogEntry) : list (string * Profile.t) :=
  fold_left (λ o log, Js.update (actor log) Profile.empty (merge_profile log) o) logs [].

Definition bio_links (p : Profile.t) : list string :=
  match Profile.bio p with
  | Some b => if Js.truthy b then extractLinks b else []
  | None => []
  end.

Definition collect_links (actorProfiles : list (string * Profile.t))
  : gmap string (list string) :=
  fold_left
    (λ m '(actor, profile),
       <[actor := normalizeLinks (default [] (Profile.links profile) ++ bio_links profile)]> m)
    (Js.Object_entries actorProfiles) ∅.

(** *** analyzeLogs: graph *)

Definition is_positive (settings : AnalysisSettings) (log : LogEntry) : bool :=
  bool_decide (action log ∈ positiveActions settings).

(** The loop over the log fills [nodes], [edges], [positiveOut] and
    [positiveIn]; none reads another, so each is given as a fold of its
    own. *)
Definition collect_nodes (logs : list LogEntry) : list string :=
  fold_left (λ nodes log, Js.Set_add (target log) (Js.Set_add (actor log) nodes)) logs [].

Definition collect_edges (settings : AnalysisSettings) (logs : list LogEntry)
  : list EdgeDefinition :=
  fold_left
    (λ edges log,
       if is_positive settings log
       then edges ++ [Edge (actor log) (target log) "interaction"]
       else edges)
    logs [].

(** [if (!m.has(k)) m.set(k, new Set()); m.get(k).add(v)] *)
Definition add_to (k v : string) (m : gmap string (gset string))
  : gmap string (gset string) :=
  <[k := {[v]} ∪ default ∅ (m !! k)]> m.

Definition collect_positiveOut (settings : AnalysisSettings) (logs : list LogEntry)
  : gmap string (gset string) :=
  fold_left
    (λ m log, if is_positive settings log then add_to (actor log) (target log) m else m)
    logs ∅.

Definition collect_positiveIn (settings : AnalysisSettings) (logs : list LogEntry)
  : gmap string (gset string) :=
  fold_left
    (λ m log, if is_positive settings log then add_to (target log) (actor log) m else m)
    logs ∅.

(** [graph[k].push(v)]; [graph[k]] exists for every node. *)
Definition push_neighbor (k v : string) (graph : gmap string (list string))
  : gmap string (list string) :=
  alter (λ l, l ++ [v]) k graph.

Definition add_edge (graph : gmap string (list string)) (edge : EdgeDefinition)
  : gmap string (list string) :=
  let 'Edge s t _ := edge in
  if negb (Js.truthy s) || negb (Js.truthy t) then graph
  else push_neighbor t s (push_neighbor s t graph).

Definition build_graph (nodes : list string) (edges : list EdgeDefinition)
  : gmap string (list string) :=
  fold_left add_edge edges (fold_left (λ g node, <[node := []]> g) nodes ∅).

(** [graph[n] || []] *)
Definition neighbors (graph : gmap string (list string)) (n : string) : list string :=
  default [] (graph !! n).

(** *** analyzeLogs: clusters *)

(** One round of the [for (const neighbor of ...)] loop of [dfs].  The
    stack is a list whose head is the top. *)
Definition visit (st : gset string * list string) (neighbor : string)
  : gset string * list string :=
  if decide (neighbor ∈ st.1) then st else ({[neighbor]} ∪ st.1, neighbor :: st.2).

(** The [while (stack.length > 0)] loop of [dfs]. *)
Fixpoint dfs_loop (fuel : nat) (graph : gmap string (list string))
    (visited : gset string) (stack component : list string)
  : option (gset string * list string) :=
  match stack with
  | [] => Some (visited, component)
  | node :: stack =>
      match fuel with
      | O => None
      | S fuel =>
          let st := fold_left visit (neighbors graph node) (visited, stack) in
          dfs_loop fuel graph st.1 st.2 (component ++ [node])
      end
  end.

Definition dfs (fuel : nat) (graph : gmap string (list string)) (visited : gset string)
    (start : string) : option (gset string * list string) :=
  dfs_loop fuel graph ({[start]} ∪ visited) [start] [].

Definition count_neighbors (graph : gmap string (list string)) (P : string → Prop)
    `{∀ x, Decision (P x)} (component : list string) : Z :=
  fold_left (λ sum n, sum + Z.of_nat (length (filter P (neighbors graph n)))) component 0.

Definition make_cluster (graph : gmap string (list string)) (id : Z)
    (component : list string) : DetailedCluster :=
  let memberSet : gset string := list_to_set component in
  let size := Z.of_nat (length component) in
  let internalEdges :=
    (inject_Z (count_neighbors graph (λ neigh, neigh ∈ memberSet) component) / 2)%Q in
  let possibleEdges := (inject_Z (size * (size - 1)) / 2)%Q in
  let density := if Qpositive possibleEdges then (internalEdges / possibleEdges)%Q else 0%Q in
  let externalEdges := count_neighbors graph (λ neigh, neigh ∉ memberSet) component in
  let totalEdges := (internalEdges + inject_Z externalEdges)%Q in
  let conductance :=
    if Qpositive totalEdges then (inject_Z externalEdges / totalEdges)%Q else 0%Q in
  {| clusterId := id; members := component; density := density;
     conductance := conductance; externalEdges := externalEdges |}.

(** The [for (const node of nodes)] loop over the not yet visited nodes. *)
Fixpoint find_clusters (fuel : nat) (graph : gmap string (list string))
    (minSize : Z) (nodes : list string) (visited : gset string)
    (clusters : list DetailedCluster) (clusterId : Z)
  : option (list DetailedCluster) :=
  match nodes with
  | [] => Some clusters
  | node :: nodes =>
      if decide (node ∈ visited)
      then find_clusters fuel graph minSize nodes visited clusters clusterId
      else
        match dfs fuel graph visited node with
        | None => None
        | Some (visited, component) =>
            if Z.of_nat (length component) <? minSize
            then find_clusters fuel graph minSize nodes visited clusters clusterId
            else find_clusters fuel graph minSize nodes visited
                   (clusters ++ [make_cluster graph clusterId component]) (clusterId + 1)
        end
  end.

Definition detect_clusters (graph : gmap string (list string)) (minSize : Z)
    (nodes : list string) : option (list DetailedCluster) :=
  find_clusters (S (length nodes)) graph minSize nodes ∅ [] 0.

(** *** analyzeLogs: waves *)

(** [Math.max(1, settings.timeBinMinutes) * 60 * 1000] *)
Definition binSizeMs (settings : AnalysisSettings) : Z :=
  Z.max 1 (timeBinMinutes settings) * 60 * 1000.

(** [Math.floor(t / binSizeMs) * binSizeMs]; NaN stays NaN. *)
Definition bin_of (settings : AnalysisSettings) (t : option Z) : option Z :=
  match t with
  | Some t => Some (t / binSizeMs settings * binSizeMs settings)
  | None => None
  end.

(** [new Date(t).toISOString()]: a Date made from NaN or from a number
    beyond [maxTime] is invalid, and rendering it throws. *)
Definition Date_toISOString (t : option Z) : completion Z :=
  match t with
  | Some t =>
      if (- Js.maxTime <=? t) && (t <=? Js.maxTime) then Normal t
      else Throw (RangeError "Invalid time value")
  | None => Throw (RangeError "Invalid time value")
  end.

Definition bump (log : LogEntry) (info : Bin.info) : Bin.info :=
  {| Bin.count := Bin.count info + 1;
     Bin.actors := Js.Set_add (actor log) (Bin.actors info) |}.

(** One round of the bucketing loop.  The key of the bin is an ISO string
    and inherits nothing; the cells below it are entered for actions and
    targets that name no member of Object.prototype. *)
Definition add_to_bin (settings : AnalysisSettings)
    (timeBins : list (Z * list (string * list (string * Bin.info)))) (log : LogEntry)
  : completion (list (Z * list (string * list (string * Bin.info)))) :=
  let bin := bin_of settings (Date_parse (timestamp log)) in
  match Date_toISOString bin with
  | Normal binKey =>
      Normal
        (Js.update binKey []
           (Js.update (action log) []
              (Js.update (target log) {| Bin.count := 0; Bin.actors := [] |} (bump log)))
           timeBins)
  | Throw e => Throw e
  | Diverge => Diverge
  end.

Definition collect_timeBins (settings : AnalysisSettings) (logs : list LogEntry)
  : completion (list (Z * list (string * list (string * Bin.info)))) :=
  forEach_throwing (add_to_bin settings) logs [].

Definition is_wave (settings : AnalysisSettings) (info : Bin.info) : bool :=
  (waveMinCount settings <=? Bin.count info)
  && (waveMinActors settings <=? Z.of_nat (length (Bin.actors info))).

(** [waves.push({...})] for a cell that passed the thresholds.  [time] is
    the key of the bin, an ISO string that [new Date(time).getTime()] reads
    back; the end of the window is rendered by [toISOString]. *)
Definition push_wave (settings : AnalysisSettings) (waves : list WaveResult)
    (passed : Z * string * string * Bin.info) : completion (list WaveResult) :=
  let '(time, action, target, info) := passed in
  match Date_toISOString (Some (time + binSizeMs settings)) with
  | Normal windowEnd =>
      Normal
        (waves ++
         [ {| Wave.windowStart := time;
              Wave.windowEnd := windowEnd;
              Wave.action := action;
              Wave.target := target;
              Wave.actors := Bin.actors info;
              Wave.zScore :=
                (inject_Z (Bin.count info) / inject_Z (Z.max 1 (waveMinCount settings)))%Q |} ])
  | Throw e => Throw e
  | Diverge => Diverge
  end.

(** The three nested [Object.entries(...).forEach] loops over [timeBins],
    collecting [f time action target info] for every cell that passes the
    thresholds.  The keys of [timeBins] itself are ISO strings, never array
    indices, and are enumerated in insertion order. *)
Definition wave_cells {A : Type} (settings : AnalysisSettings)
    (timeBins : list (Z * list (string * list (string * Bin.info))))
    (f : Z → string → string → Bin.info → A) : list A :=
  flat_map
    (λ '(time, actions),
       flat_map
         (λ '(action, targets),
            flat_map
              (λ '(target, info),
                 if is_wave settings info then [f time action target info] else [])
              (Js.Object_entries targets))
         (Js.Object_entries actions))
    timeBins.

Definition detect_waves (settings : AnalysisSettings)
    (timeBins : list (Z * list (string * list (string * Bin.info))))
  : completion (list WaveResult) :=
  forEach_throwing (push_wave settings)
    (wave_cells settings timeBins (λ time action target info, (time, action, target, info)))
    [].

(** *** analyzeLogs: actor statistics *)

Definition initial_stats (graph : gmap string (list string))
    (positiveOut positiveIn : gmap string (gset string)) (node : string) : ActorStats :=
  {| Stats.actor := node;
     Stats.totalActions := 0;
     Stats.churnActions := 0;
     Stats.burstActions := 0;
     Stats.uniqueTargets := ∅;
     Stats.connections := Z.of_nat (length (neighbors graph node));
     Stats.clusterSize := 0;
     Stats.positiveOut := Z.of_nat (size (default ∅ (positiveOut !! node)));
     Stats.positiveIn := Z.of_nat (size (default ∅ (positiveIn !! node)));
     Stats.mutualPositive := 0;
     Stats.firstSeenMs := None |}.

Definition count_action (settings : AnalysisSettings) (log : LogEntry) (s : ActorStats)
  : ActorStats :=
  {| Stats.actor := Stats.actor s;
     Stats.totalActions := Stats.totalActions s + 1;
     Stats.churnActions :=
       if bool_decide (action log ∈ churnActions settings)
       then Stats.churnActions s + 1 else Stats.churnActions s;
     Stats.burstActions := Stats.burstActions s;
     Stats.uniqueTargets := {[target log]} ∪ Stats.uniqueTargets s;
     Stats.connections := Stats.connections s;
     Stats.clusterSize := Stats.clusterSize s;
     Stats.positiveOut := Stats.positiveOut s;
     Stats.positiveIn := Stats.positiveIn s;
     Stats.mutualPositive := Stats.mutualPositive s;
     Stats.firstSeenMs :=
       match Date_parse (timestamp log) with
       | Some ts =>
           match Stats.firstSeenMs s with
           | None => Some ts
           | Some first => Some (Z.min first ts)
           end
       | None => Stats.firstSeenMs s
       end |}.

Definition set_clusterSize (n : Z) (s : ActorStats) : ActorStats :=
  {| Stats.actor := Stats.actor s;
     Stats.totalActions := Stats.totalActions s;
     Stats.churnActions := Stats.churnActions s;
     Stats.burstActions := Stats.burstActions s;
     Stats.uniqueTargets := Stats.uniqueTargets s;
     Stats.connections := Stats.connections s;
     Stats.clusterSize := n;
     Stats.positiveOut := Stats.positiveOut s;
     Stats.positiveIn := Stats.positiveIn s;
     Stats.mutualPositive := Stats.mutualPositive s;
     Stats.firstSeenMs := Stats.firstSeenMs s |}.

Definition set_mutualPositive (n : Z) (s : ActorStats) : ActorStats :=
  {| Stats.actor := Stats.actor s;
     Stats.totalActions := Stats.totalActions s;
     Stats.churnActions := Stats.churnActions s;
     Stats.burstActions := Stats.burstActions s;
     Stats.uniqueTargets := Stats.uniqueTargets s;
     Stats.connections := Stats.connections s;
     Stats.clusterSize := Stats.clusterSize s;
     Stats.positiveOut := Stats.positiveOut s;
     Stats.positiveIn := Stats.positiveIn s;
     Stats.mutualPositive := n;
     Stats.firstSeenMs := Stats.firstSeenMs s |}.

Definition set_burstActions (n : Z) (s : ActorStats) : ActorStats :=
  {| Stats.actor := Stats.actor s;
     Stats.totalActions := Stats.totalActions s;
     Stats.churnActions := Stats.churnActions s;
     Stats.burstActions := n;
     Stats.uniqueTargets := Stats.uniqueTargets s;
     Stats.connections := Stats.connections s;
     Stats.clusterSize := Stats.clusterSize s;
     Stats.positiveOut := Stats.positiveOut s;
     Stats.positiveIn := Stats.positiveIn s;
     Stats.mutualPositive := Stats.mutualPositive s;
     Stats.firstSeenMs := Stats.firstSeenMs s |}.

(** [nodes.forEach((node) => { actorStats[node] = {...} })] *)
Definition init_actorStats (graph : gmap string (list string))
    (positiveOut positiveIn : gmap string (gset string)) (nodes : list string)
  : list (string * ActorStats) :=
  fold_left (λ o node, Js.assign node (initial_stats graph positiveOut positiveIn node) o)
    nodes [].

Definition count_actions (settings : AnalysisSettings) (logs : list LogEntry)
    (actorStats : list (string * ActorStats)) : list (string * ActorStats) :=
  fold_left (λ o log, Js.modify (actor log) (count_action settings log) o) logs actorStats.

Definition assign_clusterSizes (clusters : list DetailedCluster)
    (actorStats : list (string * ActorStats)) : list (string * ActorStats) :=
  fold_left
    (λ o cluster,
       fold_left
         (λ o member, Js.modify member (set_clusterSize (Z.of_nat (length (members cluster)))) o)
         (members cluster) o)
    clusters actorStats.

(** The number of targets of [actor] that have a positive edge back. *)
Definition mutual_of (positiveOut : gmap string (gset string)) (actor : string) : Z :=
  let outSet := default ∅ (positiveOut !! actor) in
  Z.of_nat (size (filter (λ t, actor ∈ default ∅ (positiveOut !! t)) outSet)).

(** Every node has its [actorStats[actor]]; for the node [__proto__] it is
    the prototype, which is not listed. *)
Definition assign_reciprocity (positiveOut : gmap string (gset string))
    (nodes : list string) (actorStats : list (string * ActorStats))
  : list (string * ActorStats) :=
  fold_left
    (λ o actor, Js.modify actor (set_mutualPositive (mutual_of positiveOut actor)) o)
    nodes actorStats.

(** The wave key [binKey:action:target]; the rendering of [binKey] has no
    proper prefix that is itself a rendering followed by a colon, so the key
    is kept as the pair of the bin and the rest. *)
Definition waveKey (time : Z) (action target : string) : Z * string :=
  (time, action +:+ ":" +:+ target).

Definition collect_waveBins (settings : AnalysisSettings)
    (timeBins : list (Z * list (string * list (string * Bin.info))))
  : gmap string (gset (Z * string)) :=
  fold_left
    (λ m '(key, actors),
       fold_left (λ m actor, <[actor := {[key]} ∪ default ∅ (m !! actor)]> m) actors m)
    (wave_cells settings timeBins
       (λ time action target info, (waveKey time action target, Bin.actors info)))
    ∅.

Definition assign_bursts (waveBinsByActor : gmap string (gset (Z * string)))
    (actorStats : list (string * ActorStats)) : list (string * ActorStats) :=
  map
    (λ '(actor, s),
       (actor, set_burstActions (Z.of_nat (size (default ∅ (waveBinsByActor !! actor)))) s))
    actorStats.

(** *** analyzeLogs: scorecards *)

(** [allTimes.length > 0 ? Math.min(...allTimes) : Date.now()] *)
Definition datasetStart (logs : list LogEntry) : Z :=
  match omap (λ l, Date_parse (timestamp l)) logs with
  | [] => Date_now
  | t :: allTimes => fold_left Z.min allTimes t
  end.

Definition ratio (a b : Z) : Q := (inject_Z a / inject_Z b)%Q.

(** The weighted sum of the six sub-scores. *)
Definition composite (coordinationScore churnScore clusterIsolationScore newAccountScore
    lowDiversityScore profileAnomalyScore : Q) : Q :=
  (0.30 * coordinationScore +
   0.20 * Qmin (churnScore / 10) 1 +
   0.15 * clusterIsolationScore +
   0.10 * newAccountScore +
   0.10 * lowDiversityScore +
   0.15 * profileAnomalyScore)%Q.

Definition scorecard_of (actorProfiles : list (string * Profile.t))
    (linksByActor : gmap string (list string)) (datasetStartMs : Z) (stats : ActorStats)
  : ActorScorecard :=
  let coordinationScore :=
    if 0 <? Stats.totalActions stats
    then Qmin (ratio (Stats.burstActions stats) (Stats.totalActions stats)) 1 else 0%Q in
  let churnScore := inject_Z (Stats.churnActions stats) in
  let clusterIsolationScore :=
    if 0 <? Stats.clusterSize stats
    then (1 - ratio (Stats.connections stats) (Stats.clusterSize stats))%Q else 0%Q in
  let createdAt :=
    match Js.get (Stats.actor stats) actorProfiles with
    | Some p => Profile.actorCreatedAt p
    | None => None
    end in
  let createdMs :=
    match createdAt with
    | Some c => if Js.truthy c then Date_parse c else None
    | None => None
    end in
  let firstSeenMs := default datasetStartMs (Stats.firstSeenMs stats) in
  let ageDays :=
    match createdMs with
    | Some ms => if ms =? 0 then None else Some (ratio (firstSeenMs - ms) (24 * 60 * 60 * 1000))
    | None => None
    end in
  let newAccountScore :=
    match ageDays with
    | Some d => if Qle_bool 0 d && negb (Qle_bool 7 d) then 1%Q else 0%Q
    | None => 0%Q
    end in
  let lowDiversityScore :=
    if 0 <? Stats.totalActions stats
    then (1 - ratio (Z.of_nat (size (Stats.uniqueTargets stats))) (Stats.totalActions stats))%Q
    else 0%Q in
  let profile := default Profile.empty (Js.get (Stats.actor stats) actorProfiles) in
  let links :=
    match linksByActor !! Stats.actor stats with
    | Some l => l
    | None =>
        normalizeLinks
          (match Profile.links profile with Some l => l | None => bio_links profile end)
    end in
  let reciprocalRate :=
    if 0 <? Stats.positiveOut stats
    then ratio (Stats.mutualPositive stats) (Stats.positiveOut stats) else 0%Q in
  let burstRate :=
    if 0 <? Stats.totalActions stats
    then Qmin (ratio (Stats.burstActions stats) (Stats.totalActions stats)) 1 else 0%Q in
  let profileAnomalyScore :=
    updateProfileAnomalyScore (Stats.actor stats) links
      (Profile.followerCount profile) (Profile.followingCount profile) in
  let sybilScore :=
    composite coordinationScore churnScore clusterIsolationScore newAccountScore
      lowDiversityScore profileAnomalyScore in
  {| Card.actor := Stats.actor stats;
     Card.sybilScore := sybilScore;
     Card.churnScore := churnScore;
     Card.coordinationScore := coordinationScore;
     Card.noveltyScore := newAccountScore;
     Card.clusterIsolationScore := clusterIsolationScore;
     Card.lowDiversityScore := lowDiversityScore;
     Card.profileAnomalyScore := profileAnomalyScore;
     Card.links := links;
     Card.reciprocalRate := reciprocalRate;
     Card.burstRate := burstRate;
     Card.newAccountScore := newAccountScore |}.

(** *** analyzeLogs *)

Definition collect_actorStats (settings : AnalysisSettings) (logs : list LogEntry)
    (nodes : list string) (graph : gmap string (list string))
    (clusters : list DetailedCluster)
    (timeBins : list (Z * list (string * list (string * Bin.info))))
  : list (string * ActorStats) :=
  let positiveOut := collect_positiveOut settings logs in
  let positiveIn := collect_positiveIn settings logs in
  let actorStats := init_actorStats graph positiveOut positiveIn nodes in
  let actorStats := count_actions settings logs actorStats in
  let actorStats := assign_clusterSizes clusters actorStats in
  let actorStats := assign_reciprocity positiveOut nodes actorStats in
  assign_bursts (collect_waveBins settings timeBins) actorStats.

Definition report (s : Stage.t) (p : Z) : AnalyzeProgress := {| stage := s; pct := p |}.

(** The engine.  The first component lists the progress reports made, in
    order; the second is how the call ends. *)
Definition analyzeLogs (logs : list LogEntry) (settings : AnalysisSettings)
  : list AnalyzeProgress * completion AnalysisResult :=
  let reported := [report Stage.start 0] in
  if bool_decide (length logs = 0%nat)
  then (reported,
        Normal {| elements := []; clusters := []; waves := []; scorecards := [] |})
  else
    let datasetStartMs := datasetStart logs in
    let actorProfiles := collect_profiles logs in
    let linksByActor := collect_links actorProfiles in
    let reported := reported ++ [report Stage.profiles 15] in
    let nodes := collect_nodes logs in
    let edges := collect_edges settings logs in
    let elements := map (λ id, NodeElement id id) nodes ++ map EdgeElement edges in
    let reported := reported ++ [report Stage.graph 30] in
    let graph := build_graph nodes edges in
    match detect_clusters graph (minClusterSize settings) nodes with
    | None => (reported, Diverge)
    | Some clusters =>
        let reported := reported ++ [report Stage.clusters 45] in
        match collect_timeBins settings logs with
        | Throw e => (reported, Throw e)
        | Diverge => (reported, Diverge)
        | Normal timeBins =>
            match detect_waves settings timeBins with
            | Throw e => (reported, Throw e)
            | Diverge => (reported, Diverge)
            | Normal waves =>
                let reported := reported ++ [report Stage.waves 60] in
                let actorStats :=
                  collect_actorStats settings logs nodes graph clusters timeBins in
                let scorecards :=
                  map (scorecard_of actorProfiles linksByActor datasetStartMs)
                    (Js.Object_values actorStats) in
                (reported ++ [report Stage.scorecards 90; report Stage.done 100],
                 Normal {| elements := elements; clusters := clusters;
                           waves := waves; scorecards := scorecards |})
            end
        end
    end.

(** *** The worker

    The handler runs to completion on each message: the engine is
    synchronous, so no other message is handled while it runs.  The state
    is the module-level [activeRequestId]; [None] is [null]. *)

Definition post_if_active (activeRequestId : option string) (requestId : string)
    (m : Outgoing) : list Outgoing :=
  if decide (activeRequestId ≠ Some requestId) then [] else [m].

Definition onmessage (activeRequestId : option string) (msg : Incoming)
  : option string * list Outgoing :=
  match msg with
  | CancelMessage requestId =>
      (if decide (activeRequestId = Some requestId) then None else activeRequestId, [])
  | AnalyzeMessage requestId logs settings =>
      let activeRequestId := Some requestId in
      let '(reported, outcome) := analyzeLogs logs settings in
      let posted :=
        flat_map
          (λ p, post_if_active activeRequestId requestId
                  (ProgressMessage requestId (stage p) (pct p)))
          reported in
      match outcome with
      | Normal result =>
          (activeRequestId,
           posted ++ post_if_active activeRequestId requestId (ResultMessage requestId result))
      | Throw e =>
          (activeRequestId,
           posted ++ post_if_active activeRequestId requestId
                       (ErrorMessage requestId (error_message e)))
      | Diverge => (activeRequestId, posted)
      end
  end.

(** The messages posted while a sequence of incoming messages is handled. *)
Fixpoint handle_all (activeRequestId : option string) (msgs : list Incoming)
  : option string * list Outgoing :=
  match msgs with
  | [] => (activeRequestId, [])
  | msg :: msgs =>
      let '(activeRequestId, posted) := onmessage activeRequestId msg in
      let '(final, later) := handle_all activeRequestId msgs in
      (final, posted ++ later)
  end.

(** *** The page: logSummary *)

(** One round of the loop of [logSummary]: [(o[k] || 0) + 1] counts, for a
    platform and an action that name no member of Object.prototype. *)
Definition summarise
    (acc : gset string * gset string * list (string * Z) * list (string * Z)) (l : LogEntry)
  : gset string * gset string * list (string * Z) * list (string * Z) :=
  let '(uniqueActors, uniqueTargets, byPlatform, byAction) := acc in
  ({[actor l]} ∪ uniqueActors, {[target l]} ∪ uniqueTargets,
   Js.update (platform l) 0 (λ n, n + 1) byPlatform,
   Js.update (action l) 0 (λ n, n + 1) byAction).

Definition logSummary (logs : list LogEntry) : Summary.t :=
  let '(uniqueActors, uniqueTargets, byPlatform, byAction) :=
    fold_left summarise logs (∅, ∅, [], []) in
  {| Summary.total := Z.of_nat (length logs);
     Summary.uniqueActors := Z.of_nat (size uniqueActors);
     Summary.uniqueTargets := Z.of_nat (size uniqueTargets);
     Summary.byPlatform := byPlatform;
     Summary.byAction := byAction |}.

(** *** The page: processData *)

(** [graph[source].push(target); graph[target].push(source)], for every
    edge. *)
Definition page_add_edge (graph : gmap string (list string)) (edge : EdgeDefinition)
  : gmap string (list string) :=
  let 'Edge s t _ := edge in push_neighbor t s (push_neighbor s t graph).

Definition page_graph (nodes : list string) (edges : list EdgeDefinition)
  : gmap string (list string) :=
  fold_left page_add_edge edges (fold_left (λ g node, <[node := []]> g) nodes ∅).

(** The recursive [dfs] of the page.  The state is [visited] and
    [component]; the fuel bounds the depth of the recursion, which is
    assumed to stay within the call stack of the host. *)
Fixpoint page_dfs (fuel : nat) (graph : gmap string (list string)) (node : string)
    (st : gset string * list string) : option (gset string * list string) :=
  match fuel with
  | O => None
  | S fuel =>
      fold_left
        (λ acc neighbor,
           match acc with
           | Some st => if decide (neighbor ∈ st.1) then Some st
                        else page_dfs fuel graph neighbor st
           | None => None
           end)
        (neighbors graph node)
        (Some ({[node]} ∪ st.1, st.2 ++ [node]))
  end.

(** The metrics of a component; membership is [component.includes]. *)
Definition page_cluster (graph : gmap string (list string)) (id : Z)
    (component : list string) : DetailedCluster :=
  let size := Z.of_nat (length component) in
  let internalEdges :=
    (inject_Z (count_neighbors graph (λ neigh, neigh ∈ component) component) / 2)%Q in
  let possibleEdges := (inject_Z (size * (size - 1)) / 2)%Q in
  let density := if Qpositive possibleEdges then (internalEdges / possibleEdges)%Q else 0%Q in
  let externalEdges := count_neighbors graph (λ neigh, neigh ∉ component) component in
  let totalEdges := (internalEdges + inject_Z externalEdges)%Q in
  let conductance :=
    if Qpositive totalEdges then (inject_Z externalEdges / totalEdges)%Q else 0%Q in
  {| clusterId := id; members := component; density := density;
     conductance := conductance; externalEdges := externalEdges |}.

Fixpoint page_find_clusters (fuel : nat) (graph : gmap string (list string))
    (minSize : Z) (nodes : list string) (visited : gset string)
    (clustersList : list DetailedCluster) (clusterId : Z)
  : option (list DetailedCluster) :=
  match nodes with
  | [] => Some clustersList
  | node :: nodes =>
      if decide (node ∈ visited)
      then page_find_clusters fuel graph minSize nodes visited clustersList clusterId
      else
        match page_dfs fuel graph node (visited, []) with
        | None => None
        | Some (visited, component) =>
            if minSize <=? Z.of_nat (length component)
            then page_find_clusters fuel graph minSize nodes visited
                   (clustersList ++ [page_cluster graph clusterId component]) (clusterId + 1)
            else page_find_clusters fuel graph minSize nodes visited clustersList clusterId
        end
  end.

Definition page_detect_clusters (graph : gmap string (list string)) (minSize : Z)
    (nodes : list string) : option (list DetailedCluster) :=
  page_find_clusters (S (length nodes)) graph minSize nodes ∅ [] 0.

Definition page_bump (log : LogEntry) (info : PageBin.info) : PageBin.info :=
  {| PageBin.count := PageBin.count info + 1;
     PageBin.actors := Js.Set_add (actor log) (PageBin.actors info);
     PageBin.targets := Js.Set_add (target log) (PageBin.targets info) |}.

(** The page buckets by bin and action only; the cell is entered for an
    action that names no member of Object.prototype. *)
Definition page_add_to_bin (settings : AnalysisSettings)
    (timeBins : list (Z * list (string * PageBin.info))) (log : LogEntry)
  : completion (list (Z * list (string * PageBin.info))) :=
  let bin := bin_of settings (Date_parse (timestamp log)) in
  match Date_toISOString bin with
  | Normal binKey =>
      Normal
        (Js.update binKey []
           (Js.update (action log)
              {| PageBin.count := 0; PageBin.actors := []; PageBin.targets := [] |}
              (page_bump log))
           timeBins)
  | Throw e => Throw e
  | Diverge => Diverge
  end.

Definition page_timeBins (settings : AnalysisSettings) (data : list LogEntry)
  : completion (list (Z * list (string * PageBin.info))) :=
  forEach_throwing (page_add_to_bin settings) data [].

(** [Array.from(targets)[0] || ''] *)
Definition first_target (info : PageBin.info) : string :=
  match PageBin.targets info with
  | t :: _ => t
  | [] => ""
  end.

(** The cells with at least [waveMinCount] events, in the order of the two
    nested [Object.entries(...).forEach] loops. *)
Definition page_wave_cells (settings : AnalysisSettings)
    (timeBins : list (Z * list (string * PageBin.info)))
  : list (Z * string * PageBin.info) :=
  flat_map
    (λ '(time, actions),
       flat_map
         (λ '(action, info),
            if waveMinCount settings <=? PageBin.count info
            then [(time, action, info)] else [])
         (Js.Object_entries actions))
    timeBins.

(** [suspiciousWaves.push({...})], after [windowEnd] has been rendered. *)
Definition page_push_wave (settings : AnalysisSettings) (waves : list WaveResult)
    (passed : Z * string * PageBin.info) : completion (list WaveResult) :=
  let '(time, action, info) := passed in
  match Date_toISOString (Some (time + binSizeMs settings)) with
  | Normal windowEnd =>
      Normal
        (waves ++
         [ {| Wave.windowStart := time;
              Wave.windowEnd := windowEnd;
              Wave.action := action;
              Wave.target := first_target info;
              Wave.actors := PageBin.actors info;
              Wave.zScore :=
                (inject_Z (PageBin.count info)
                 / inject_Z (Z.max 1 (waveMinCount settings)))%Q |} ])
  | Throw e => Throw e
  | Diverge => Diverge
  end.

Definition page_waves (settings : AnalysisSettings)
    (timeBins : list (Z * list (string * PageBin.info))) : completion (list WaveResult) :=
  forEach_throwing (page_push_wave settings) (page_wave_cells settings timeBins) [].

Definition page_initial_stats (graph : gmap string (list string)) (node : string)
  : PageStats.ActorStats :=
  {| PageStats.actor := node;
     PageStats.totalActions := 0;
     PageStats.churnActions := 0;
     PageStats.burstActions := 0;
     PageStats.uniqueTargets := ∅;
     PageStats.connections := Z.of_nat (length (neighbors graph node));
     PageStats.clusterSize := 0 |}.

Definition page_count_action (settings : AnalysisSettings) (log : LogEntry)
    (s : PageStats.ActorStats) : PageStats.ActorStats :=
  {| PageStats.actor := PageStats.actor s;
     PageStats.totalActions := PageStats.totalActions s + 1;
     PageStats.churnActions :=
       if bool_decide (action log ∈ churnActions settings)
       then PageStats.churnActions s + 1 else PageStats.churnActions s;
     PageStats.burstActions := PageStats.burstActions s;
     PageStats.uniqueTargets := {[target log]} ∪ PageStats.uniqueTargets s;
     PageStats.connections := PageStats.connections s;
     PageStats.clusterSize := PageStats.clusterSize s |}.

Definition page_set_clusterSize (n : Z) (s : PageStats.ActorStats) : PageStats.ActorStats :=
  {| PageStats.actor := PageStats.actor s;
     PageStats.totalActions := PageStats.totalActions s;
     PageStats.churnActions := PageStats.churnActions s;
     PageStats.burstActions := PageStats.burstActions s;
     PageStats.uniqueTargets := PageStats.uniqueTargets s;
     PageStats.connections := PageStats.connections s;
     PageStats.clusterSize := n |}.

Definition page_count_burst (s : PageStats.ActorStats) : PageStats.ActorStats :=
  {| PageStats.actor := PageStats.actor s;
     PageStats.totalActions := PageStats.totalActions s;
     PageStats.churnActions := PageStats.churnActions s;
     PageStats.burstActions := PageStats.burstActions s + 1;
     PageStats.uniqueTargets := PageStats.uniqueTargets s;
     PageStats.connections := PageStats.connections s;
     PageStats.clusterSize := PageStats.clusterSize s |}.

(** The passes of [processData] over [actorStats].  Every actor and every
    cluster member is a node, so [actorStats[...]] is defined where the
    page reads it without a test (for the node [__proto__] it is the
    prototype, which is not listed). *)
Definition page_actorStats (settings : AnalysisSettings) (data : list LogEntry)
    (nodes : list string) (graph : gmap string (list string))
    (clustersList : list DetailedCluster)
    (timeBins : list (Z * list (string * PageBin.info)))
  : list (string * PageStats.ActorStats) :=
  let actorStats :=
    fold_left (λ o node, Js.assign node (page_initial_stats graph node) o) nodes [] in
  let actorStats :=
    fold_left (λ o log, Js.modify (actor log) (page_count_action settings log) o)
      data actorStats in
  let actorStats :=
    fold_left
      (λ o cluster,
         fold_left
           (λ o member,
              Js.modify member (page_set_clusterSize (Z.of_nat (length (members cluster)))) o)
           (members cluster) o)
      clustersList actorStats in
  fold_left
    (λ o actions,
       fold_left
         (λ o info,
            fold_left (λ o actor, Js.modify actor page_count_burst o) (PageBin.actors info) o)
         (Js.Object_values actions) o)
    (map snd timeBins) actorStats.

Definition page_scorecard (actorProfiles : list (string * Profile.t))
    (linksByActor : gmap string (list string)) (stats : PageStats.ActorStats)
  : PageCard.ActorScorecard :=
  let coordinationScore :=
    if 0 <? PageStats.totalActions stats
    then ratio (PageStats.burstActions stats) (PageStats.totalActions stats) else 0%Q in
  let churnScore := inject_Z (PageStats.churnActions stats) in
  let clusterIsolationScore :=
    if 0 <? PageStats.clusterSize stats
    then (1 - ratio (PageStats.connections stats) (PageStats.clusterSize stats))%Q
    else 0%Q in
  let newAccountScore := 0%Q in
  let lowDiversityScore :=
    if 0 <? PageStats.totalActions stats
    then (1 - ratio (Z.of_nat (size (PageStats.uniqueTargets stats)))
                (PageStats.totalActions stats))%Q
    else 0%Q in
  let profile := default Profile.empty (Js.get (PageStats.actor stats) actorProfiles) in
  let links :=
    match linksByActor !! PageStats.actor stats with
    | Some l => l
    | None =>
        normalizeLinks
          (match Profile.links profile with Some l => l | None => bio_links profile end)
    end in
  let profileAnomalyScore :=
    updateProfileAnomalyScore (PageStats.actor stats) links
      (Profile.followerCount profile) (Profile.followingCount profile) in
  {| PageCard.actor := PageStats.actor stats;
     PageCard.sybilScore :=
       composite coordinationScore churnScore clusterIsolationScore newAccountScore
         lowDiversityScore profileAnomalyScore;
     PageCard.churnScore := churnScore;
     PageCard.coordinationScore := coordinationScore;
     PageCard.noveltyScore := newAccountScore;
     PageCard.clusterIsolationScore := clusterIsolationScore;
     PageCard.lowDiversityScore := lowDiversityScore;
     PageCard.profileAnomalyScore := profileAnomalyScore;
     PageCard.links := links |}.

(** [processData]: the setters called, in order.  An exception is caught
    and answered with an alert.  [Diverge] stands for a traversal that
    outruns its fuel. *)
Definition processData (settings : AnalysisSettings) (data : list LogEntry)
  : completion (list PageEffect) :=
  let actorProfiles := collect_profiles data in
  let linksByActor := collect_links actorProfiles in
  let nodes := collect_nodes data in
  let edges := collect_edges settings data in
  let done := [setElements (map (λ id, NodeElement id id) nodes ++ map EdgeElement edges)] in
  let graph := page_graph nodes edges in
  match page_detect_clusters graph (minClusterSize settings) nodes with
  | None => Diverge
  | Some clustersList =>
      let done := done ++ [setClusters clustersList] in
      match page_timeBins settings data with
      | Throw e => Normal (done ++ [alert "Error processing data. Check console for details."])
      | Diverge => Diverge
      | Normal timeBins =>
          match page_waves settings timeBins with
          | Throw e =>
              Normal (done ++ [alert "Error processing data. Check console for details."])
          | Diverge => Diverge
          | Normal suspiciousWaves =>
              let actorStats :=
                page_actorStats settings data nodes graph clustersList timeBins in
              Normal
                (done ++
                 [setWaves suspiciousWaves;
                  setScorecards
                    (map (page_scorecard actorProfiles linksByActor)
                       (Js.Object_values actorStats))])
          end
      end
  end.


(** ** Vocabulary of the statements *)

(** What the cleaning loop establishes for a row it keeps. *)
Definition clean (r : LogEntry) : Prop :=
  Js.trim (timestamp r) = timestamp r ∧ timestamp r ≠ "" ∧
  Js.trim (actor r) = actor r ∧ actor r ≠ "" ∧
  Js.trim (target r) = target r ∧ target r ≠ "" ∧
  Js.trim (action r) = action r ∧ action r ≠ "" ∧
  Js.trim (platform r) = platform r ∧ platform r ≠ "" ∧
  isFinite (Date_parse (timestamp r)) = true.

(** The adjacency structure the clusters are computed on. *)
Definition graph_of (settings : AnalysisSettings) (logs : list LogEntry)
  : gmap string (list string) :=
  build_graph (collect_nodes logs) (collect_edges settings logs).

(** How often [x] occurs in a neighbor list. *)
Definition occurrences (x : string) (l : list string) : nat :=
  length (filter (λ y, y = x) l).

(** The number of positive events from actor [s] to target [t]. *)
Definition positive_events (settings : AnalysisSettings) (logs : list LogEntry)
    (s t : string) : nat :=
  length (filter (λ l, action l ∈ positiveActions settings ∧ actor l = s ∧ target l = t) logs).

(** The number of edges from [s] to [t] that the adjacency loop does not skip. *)
Definition edges_between (edges : list EdgeDefinition) (s t : string) : nat :=
  length (filter (λ e, source_of e = s ∧ target_of e = t ∧ s ≠ "" ∧ t ≠ "") edges).

(** Adjacency and connectivity in the undirected graph. *)
Definition adjacent (G : gmap string (list string)) (u v : string) : Prop :=
  v ∈ neighbors G u.

Definition connected (G : gmap string (list string)) : relation string :=
  rtc (adjacent G).

(** [comp] lists, without repetition, the connected component of [u]. *)
Definition component_of (G : gmap string (list string)) (u : string)
    (comp : list string) : Prop :=
  NoDup comp ∧ ∀ v, v ∈ comp ↔ connected G u v.

(** The nodes of [U] that the traversal has not reached yet. *)
Definition unvisited (U : list string) (V : gset string) : nat :=
  length (filter (λ n, n ∉ V) U).

(** The state of the [while] loop of [dfs], started at [s] with the nodes
    [V0] visited before. *)
Record dfs_inv (G : gmap string (list string)) (V0 : gset string) (s : string)
    (visited : gset string) (stack component : list string) : Prop := {
  inv_NoDup : NoDup (component ++ stack);
  inv_visited : ∀ x, x ∈ visited ↔ x ∈ V0 ∨ x ∈ component ∨ x ∈ stack;
  inv_fresh : ∀ x, x ∈ component ∨ x ∈ stack → (x ∉ V0) ∧ connected G s x;
  inv_closed : ∀ x y, x ∈ component → adjacent G x y → y ∈ visited;
  inv_start : s ∈ component ∨ s ∈ stack
}.

(** The state of the [for] loop over the nodes. *)
Record clusters_inv (G : gmap string (list string)) (U : list string) (minSize : Z)
    (visited : gset string) (found : list DetailedCluster) : Prop := {
  cl_nodes : ∀ x, x ∈ visited → x ∈ U;
  cl_closed : ∀ x y, x ∈ visited → adjacent G x y → y ∈ visited;
  cl_nonempty : ∀ c, c ∈ found → ∃ u, u ∈ members c;
  cl_made : ∀ c, c ∈ found → ∃ id, c = make_cluster G id (members c);
  cl_disjoint : NoDup (flat_map members found);
  cl_visited : ∀ c x, c ∈ found → x ∈ members c → x ∈ visited;
  cl_component : ∀ c u, c ∈ found → u ∈ members c → component_of G u (members c);
  cl_size : ∀ c, c ∈ found → minSize ≤ Z.of_nat (length (members c));
  cl_complete : ∀ u comp, u ∈ visited → component_of G u comp →
                minSize ≤ Z.of_nat (length comp) → ∃ c, c ∈ found ∧ u ∈ members c
}.

(** The bucket of an event, when its timestamp parses. *)
Definition bucket (settings : AnalysisSettings) (l : LogEntry) : option Z :=
  bin_of settings (Date_parse (timestamp l)).

(** The events of one (bucket, action, target) group, in log order. *)
Definition group (settings : AnalysisSettings) (logs : list LogEntry)
    (b : Z) (a t : string) : list LogEntry :=
  filter (λ l, bucket settings l = Some b ∧ action l = a ∧ target l = t) logs.

Definition distinct_actors (g : list LogEntry) : nat :=
  size (list_to_set (actor <$> g) : gset string).

(** The actors of a group in order of first appearance. *)
Definition actors_in_order (g : list LogEntry) : list string :=
  fold_left (λ s l, Js.Set_add (actor l) s) g [].

Definition group_info (g : list LogEntry) : Bin.info :=
  {| Bin.count := Z.of_nat (length g); Bin.actors := actors_in_order g |}.

(** The wave of a cell whose window ends at a valid Date. *)
Definition make_wave (settings : AnalysisSettings) (time : Z) (action target : string)
    (info : Bin.info) : WaveResult :=
  {| Wave.windowStart := time;
     Wave.windowEnd := time + binSizeMs settings;
     Wave.action := action;
     Wave.target := target;
     Wave.actors := Bin.actors info;
     Wave.zScore := (inject_Z (Bin.count info) / inject_Z (Z.max 1 (waveMinCount settings)))%Q |}.

(** The waves of the cells that pass the thresholds, in the order of the
    loops. *)
Definition waves_of (settings : AnalysisSettings)
    (timeBins : list (Z * list (string * list (string * Bin.info)))) : list WaveResult :=
  wave_cells settings timeBins (make_wave settings).

(** A time value that a Date can hold. *)
Definition valid_time (t : Z) : Prop := - Js.maxTime ≤ t ≤ Js.maxTime.

(** The window of every event, from the start of its bin to the end, lies
    within the range of Date. *)
Definition within_Date_range (settings : AnalysisSettings) (logs : list LogEntry) : Prop :=
  ∀ l b, l ∈ logs → bucket settings l = Some b →
         valid_time b ∧ valid_time (b + binSizeMs settings).

(** The keys that an object gets when every node is assigned to it. *)
Definition own_nodes (nodes : list string) : list string :=
  filter (λ n, n ≠ "__proto__") nodes.

(** A key that names no member of Object.prototype. *)
Definition plain (k : string) : Prop := k ∉ Js.Object_prototype.

(** No actor, target or action of the log names a member of
    Object.prototype. *)
Definition plain_keys (logs : list LogEntry) : Prop :=
  Forall (λ l, plain (actor l) ∧ plain (target l) ∧ plain (action l)) logs.

#[local] Instance plain_dec (k : string) : Decision (plain k).
Proof. unfold plain. apply _. Defined.

#[local] Instance plain_keys_dec (logs : list LogEntry) : Decision (plain_keys logs).
Proof. unfold plain_keys. apply _. Defined.

(** [timeBins[b]?.[a]?.[t]] *)
Definition cell (timeBins : list (Z * list (string * list (string * Bin.info))))
    (b : Z) (a t : string) : option Bin.info :=
  Js.get t (default [] (Js.get a (default [] (Js.get b timeBins)))).

(** No key is listed twice at any level of [timeBins]. *)
Definition wf_timeBins (timeBins : list (Z * list (string * list (string * Bin.info))))
  : Prop :=
  NoDup timeBins.*1 ∧
  Forall (λ kv, NoDup kv.2.*1 ∧ Forall (λ kv', NoDup kv'.2.*1) kv.2) timeBins.

(** The waves of a run; none when the run does not return. *)
Definition emitted_waves (logs : list LogEntry) (settings : AnalysisSettings)
  : list WaveResult :=
  match (analyzeLogs logs settings).2 with
  | Normal res => waves res
  | _ => []
  end.

(** The settings with other wave thresholds. *)
Definition with_thresholds (settings : AnalysisSettings) (minCount minActors : Z)
  : AnalysisSettings :=
  {| threshold := threshold settings;
     minClusterSize := minClusterSize settings;
     timeBinMinutes := timeBinMinutes settings;
     waveMinCount := minCount;
     waveMinActors := minActors;
     positiveActions := positiveActions settings;
     churnActions := churnActions settings |}.

(** The number of events of an actor. *)
Definition actions_by (logs : list LogEntry) (a : string) : nat :=
  length (filter (λ l, actor l = a) logs).

(** The fields that the passes over [actorStats] leave alone. *)
Definition same_identity (s s' : ActorStats) : Prop :=
  Stats.actor s' = Stats.actor s ∧ Stats.connections s' = Stats.connections s.


(** ** Sample data *)

Definition event (ts a t act : string) : LogEntry :=
  {| timestamp := ts; actor := a; target := t; action := act; platform := "farcaster";
     bio := None; links := None; followerCount := None; followingCount := None;
     amount := None; txHash := None; blockNumber := None; meta := None;
     targetType := None; actorCreatedAt := None; verified := None; location := None |}.

Definition sample_settings : AnalysisSettings :=
  {| threshold := 0.5; minClusterSize := 2; timeBinMinutes := 5;
     waveMinCount := 3; waveMinActors := 3;
     positiveActions := ["follow"; "star"]; churnActions := ["unfollow"] |}.

(** The same actor follows the same target twice. *)
Definition repeated_follow : list LogEntry :=
  [event "2024-01-01T00:00:00Z" "a" "b" "follow";
   event "2024-01-01T00:01:00Z" "a" "b" "follow"].

(** Two actors follow each other. *)
Definition mutual_follow : list LogEntry :=
  [event "2024-01-01T00:00:00Z" "a" "b" "follow";
   event "2024-01-01T00:07:00Z" "b" "a" "follow"].

(** Three actors follow one target within one five-minute bin. *)
Definition follow_wave : list LogEntry :=
  [event "2024-01-01T00:00:00Z" "A" "T" "follow";
   event "2024-01-01T00:01:00Z" "B" "T" "follow";
   event "2024-01-01T00:02:00Z" "C" "T" "follow"].


(** The follow wave, and one more follow at the last instant. *)
Definition follow_wave_and_last_instant : list LogEntry :=
  follow_wave ++ [event "+275760-09-13T00:00:00.000Z" "D" "U" "follow"].

(** An actor called [__proto__]. *)
Definition proto_actor : list LogEntry :=
  [event "2024-01-01T00:00:00Z" "__proto__" "b" "follow"].

(** One event whose timestamp does not parse. *)
Definition unparsable : list LogEntry :=
  [event "2024-01-01T00:00:00Z" "a" "b" "follow";
   event "yesterday" "c" "b" "follow"].

(** Rows as they may come out of an import. *)
Definition imported : list LogEntry :=
  [event " 2024-01-01T00:00:00Z " " a" "b " "follow";
   event "yesterday" "c" "b" "follow";
   event "2024-01-01T00:00:00Z" "  " "b" "follow"].

(** ** Vocabulary of the further properties *)

(** The test that both loops of [lib/validate.ts] apply to a row. *)
Definition row_valid (row : LogEntry) : bool :=
  Js.truthy (Js.trim (timestamp row)) && Js.truthy (Js.trim (actor row))
  && Js.truthy (Js.trim (target row)) && Js.truthy (Js.trim (action row))
  && Js.truthy (Js.trim (platform row))
  && isFinite (Date_parse (Js.trim (timestamp row))).

(** A row with a required field that is blank. *)
Definition row_incomplete (row : LogEntry) : Prop :=
  Js.trim (timestamp row) = "" ∨ Js.trim (actor row) = "" ∨ Js.trim (target row) = "" ∨
  Js.trim (action row) = "" ∨ Js.trim (platform row) = "".

#[local] Instance row_incomplete_dec (r : LogEntry) : Decision (row_incomplete r).
Proof. unfold row_incomplete. apply _. Defined.

(** The row that the cleaning loop pushes for [row]. *)
Definition cleaned (row : LogEntry) : LogEntry :=
  {| timestamp := Js.trim (timestamp row); actor := Js.trim (actor row);
     target := Js.trim (target row); action := Js.trim (action row);
     platform := Js.trim (platform row);
     bio := bio row; links := links row; followerCount := followerCount row;
     followingCount := followingCount row; amount := amount row; txHash := txHash row;
     blockNumber := blockNumber row; meta := meta row; targetType := targetType row;
     actorCreatedAt := actorCreatedAt row; verified := verified row;
     location := location row |}.

(** The number of rows with a property. *)
Definition rows_with (P : LogEntry → Prop) `{∀ r, Decision (P r)} (logs : list LogEntry) : Z :=
  Z.of_nat (length (filter P logs)).

(** The reports of a run over a non-empty log that goes through. *)
Definition all_reports : list AnalyzeProgress :=
  [report Stage.start 0; report Stage.profiles 15; report Stage.graph 30;
   report Stage.clusters 45; report Stage.waves 60; report Stage.scorecards 90;
   report Stage.done 100].

(** The kinds of message the worker posts. *)
Definition is_progress (m : Outgoing) : Prop :=
  match m with ProgressMessage _ _ _ => True | _ => False end.

Definition is_reply (m : Outgoing) : Prop :=
  match m with ResultMessage _ _ | ErrorMessage _ _ => True | _ => False end.

Definition is_analyze (m : Incoming) : Prop :=
  match m with AnalyzeMessage _ _ _ => True | CancelMessage _ => False end.

#[local] Instance is_analyze_dec (m : Incoming) : Decision (is_analyze m).
Proof. destruct m; simpl; apply _. Defined.

(** The events of an actor, in log order. *)
Definition events_of (logs : list LogEntry) (a : string) : list LogEntry :=
  filter (λ l, actor l = a) logs.

(** The earliest of a list of time values. *)
Definition earliest (ts : list Z) : option Z :=
  match ts with
  | [] => None
  | t :: ts => Some (fold_left Z.min ts t)
  end.

(** The time values of the events of an actor whose timestamps parse. *)
Definition times_of (logs : list LogEntry) (a : string) : list Z :=
  omap (λ l, Date_parse (timestamp l)) (events_of logs a).

(** The targets on which [a] acts with a positive action. *)
Definition positive_targets (settings : AnalysisSettings) (logs : list LogEntry)
    (a : string) : gset string :=
  list_to_set
    (target <$> filter (λ l, action l ∈ positiveActions settings) (events_of logs a)).

(** The targets of [a] that act on [a] with a positive action in return. *)
Definition mutual_targets (settings : AnalysisSettings) (logs : list LogEntry)
    (a : string) : gset string :=
  filter (λ t, a ∈ positive_targets settings logs t) (positive_targets settings logs a).

(** The last truthy creation date that the events of an actor carry. *)
Definition created_at (logs : list LogEntry) (a : string) : option string :=
  last (omap (λ l, match actorCreatedAt l with
                   | Some c => if Js.truthy c then Some c else None
                   | None => None
                   end)
          (events_of logs a)).

(** The statistics of [k] after the passes over [actorStats]. *)
Definition final_stats (settings : AnalysisSettings) (logs : list LogEntry)
    (nodes : list string) (G : gmap string (list string)) (cl : list DetailedCluster)
    (tb : list (Z * list (string * list (string * Bin.info)))) (k : string) : ActorStats :=
  let po := collect_positiveOut settings logs in
  let s0 := initial_stats G po (collect_positiveIn settings logs) k in
  let s1 := fold_left (λ v l, if decide (actor l = k) then count_action settings l v else v)
              logs s0 in
  let s2 := fold_left
              (λ v c, fold_left
                        (λ v m, if decide (m = k)
                                then set_clusterSize (Z.of_nat (length (members c))) v else v)
                        (members c) v)
              cl s1 in
  let s3 := fold_left (λ v a, if decide (a = k) then set_mutualPositive (mutual_of po a) v else v)
              nodes s2 in
  set_burstActions (Z.of_nat (size (default ∅ (collect_waveBins settings tb !! k)))) s3.

(** An actor whose first event comes two days after its creation date. *)
Definition new_account : list LogEntry :=
  [ {| timestamp := "2024-01-03T00:00:00Z"; actor := "n"; target := "b";
       action := "follow"; platform := "farcaster";
       bio := None; links := None; followerCount := None; followingCount := None;
       amount := None; txHash := None; blockNumber := None; meta := None;
       targetType := None; actorCreatedAt := Some "2024-01-01T00:00:00Z";
       verified := None; location := None |};
    event "2024-01-04T00:00:00Z" "n" "c" "unfollow" ].

(** The positive events between non-empty ids whose actor is one of [ms]:
    the events that put an entry into the neighbor lists of [ms]. *)
Definition events_within (settings : AnalysisSettings) (logs : list LogEntry)
    (ms : list string) : list LogEntry :=
  filter (λ l, action l ∈ positiveActions settings ∧ actor l ≠ "" ∧ target l ≠ ""
               ∧ actor l ∈ ms) logs.

(** The number of entries in the neighbor lists of the nodes [ms]. *)
Definition degree_sum (G : gmap string (list string)) (ms : list string) : Z :=
  fold_left (λ sum n, sum + Z.of_nat (length (neighbors G n))) ms 0.

(** An edge that the adjacency loop does not skip, with an end in [ms]. *)
Definition ends_in (ms : list string) (e : EdgeDefinition) : Z :=
  if decide (source_of e ≠ "" ∧ target_of e ≠ "")
  then (if decide (source_of e ∈ ms) then 1 else 0) + (if decide (target_of e ∈ ms) then 1 else 0)
  else 0.

(** Two array-index ids in ascending numeric order. *)
Definition index_le (a b : string) : Prop :=
  match Js.array_index a, Js.array_index b with
  | Some i, Some j => (i ≤ j)%N
  | _, _ => False
  end.

(** The events of one (bucket, action) group of the page, in log order. *)
Definition page_group (settings : AnalysisSettings) (data : list LogEntry)
    (b : Z) (a : string) : list LogEntry :=
  filter (λ l, bucket settings l = Some b ∧ action l = a) data.

(** The targets of a group in order of first appearance. *)
Definition targets_in_order (g : list LogEntry) : list string :=
  fold_left (λ s l, Js.Set_add (target l) s) g [].

Definition page_group_info (g : list LogEntry) : PageBin.info :=
  {| PageBin.count := Z.of_nat (length g);
     PageBin.actors := actors_in_order g;
     PageBin.targets := targets_in_order g |}.

(** [timeBins[b]?.[a]] on the page *)
Definition page_cell (timeBins : list (Z * list (string * PageBin.info)))
    (b : Z) (a : string) : option PageBin.info :=
  Js.get a (default [] (Js.get b timeBins)).

(** The wave of a cell of the page whose window ends at a valid Date. *)
Definition page_wave (settings : AnalysisSettings) (time : Z) (action : string)
    (info : PageBin.info) : WaveResult :=
  {| Wave.windowStart := time;
     Wave.windowEnd := time + binSizeMs settings;
     Wave.action := action;
     Wave.target := first_target info;
     Wave.actors := PageBin.actors info;
     Wave.zScore :=
       (inject_Z (PageBin.count info) / inject_Z (Z.max 1 (waveMinCount settings)))%Q |}.

Definition page_waves_of (settings : AnalysisSettings)
    (timeBins : list (Z * list (string * PageBin.info))) : list WaveResult :=
  map (λ '(time, action, info), page_wave settings time action info)
    (page_wave_cells settings timeBins).

(** The number of events with a given platform, or action. *)
Definition count_by (field : LogEntry → string) (logs : list LogEntry) (k : string) : Z :=
  Z.of_nat (length (filter (λ l, field l = k) logs)).

(** The burst pass of the page over [actorStats], as it acts on the
    statistics of [k]. *)
Definition page_bursts (k : string) (timeBins : list (Z * list (string * PageBin.info)))
    (v : PageStats.ActorStats) : PageStats.ActorStats :=
  fold_left
    (λ v actions,
       fold_left
         (λ v info,
            fold_left (λ v actor, if decide (actor = k) then page_count_burst v else v)
              (PageBin.actors info) v)
         (Js.Object_values actions) v)
    (map snd timeBins) v.

(** Ids that are array indices, and one that is not. *)
Definition numeric_ids : list LogEntry :=
  [event "2024-01-01T00:00:00Z" "alice" "10" "follow";
   event "2024-01-01T00:01:00Z" "9" "alice" "follow"].


(** * Properties *)

(** The collaborators play no part in most proofs; automation must not
    pick them up as premises. *)
Ltac without_host :=
  try clear updateProfileAnomalyScore; try clear extractLinks;
  try clear normalizeLinks; try clear Date_now; try clear Date_parse.

(** ** Properties of the host-language helpers *)

Lemma truthy_nonempty (s : string) : Js.truthy s = true ↔ s ≠ "".
Proof.
  unfold Js.truthy. destruct (String.eqb_spec s ""); simpl; split; congruence.
Qed.

Lemma trimStart_head (s : string) :
  match Js.trimStart s with
  | EmptyString => True
  | String c _ => Js.is_whitespace c = false
  end.
Proof.
  induction s as [|c r IH]; simpl; [done|].
  destruct (Js.is_whitespace c) eqn:E; [done|]. by simpl.
Qed.

Lemma trimStart_fixed (c : ascii) (r : string) :
  Js.is_whitespace c = false → Js.trimStart (String c r) = String c r.
Proof. intros E. simpl. by rewrite E. Qed.

Lemma trimEnd_head (c : ascii) (r : string) :
  Js.is_whitespace c = false → ∃ r', Js.trimEnd (String c r) = String c r'.
Proof.
  intros E. simpl. destruct (Js.trimEnd r); rewrite ?E; eauto.
Qed.

Lemma trimEnd_idempotent (s : string) : Js.trimEnd (Js.trimEnd s) = Js.trimEnd s.
Proof.
  induction s as [|c r IH]; simpl; [done|].
  destruct (Js.trimEnd r) as [|c' r'] eqn:E.
  - destruct (Js.is_whitespace c) eqn:W; simpl; [done|]. by rewrite W.
  - simpl in *. by rewrite IH.
Qed.

Lemma trim_idempotent (s : string) : Js.trim (Js.trim s) = Js.trim s.
Proof.
  unfold Js.trim. pose proof (trimStart_head s) as H.
  destruct (Js.trimStart s) as [|c r]; [done|].
  destruct (trimEnd_head c r H) as [r' E].
  rewrite E, (trimStart_fixed c r' H), <- E. apply trimEnd_idempotent.
Qed.

(** ** sanitizeLogs *)

Lemma sanitize_row_clean (valid : list LogEntry) (row : LogEntry) :
  Forall clean valid → Forall clean (sanitize_row valid row).
Proof.
  intros Hv. unfold sanitize_row.
  destruct (Js.truthy (Js.trim (timestamp row))) eqn:E1; simpl; [|done].
  destruct (Js.truthy (Js.trim (actor row))) eqn:E2; simpl; [|done].
  destruct (Js.truthy (Js.trim (target row))) eqn:E3; simpl; [|done].
  destruct (Js.truthy (Js.trim (action row))) eqn:E4; simpl; [|done].
  destruct (Js.truthy (Js.trim (platform row))) eqn:E5; simpl; [|done].
  destruct (isFinite (Date_parse (Js.trim (timestamp row)))) eqn:E6; simpl; [|done].
  apply Forall_app; split; [done|]. constructor; [|constructor].
  apply truthy_nonempty in E1, E2, E3, E4, E5.
  unfold clean; simpl. rewrite !trim_idempotent. by repeat split.
Qed.

Lemma sanitize_rows_clean (logs valid : list LogEntry) :
  Forall clean valid → Forall clean (fold_left sanitize_row logs valid).
Proof.
  revert valid. induction logs as [|row logs IH]; intros valid Hv; simpl; [done|].
  apply IH. by apply sanitize_row_clean.
Qed.

(** C10: every row that [sanitizeLogs] returns has non-empty trimmed
    timestamp, actor, target, action and platform (the fields are already
    trimmed), and its timestamp parses to a finite time value: no row with
    a missing required field or an unparsable timestamp is passed on. *)
Theorem sanitizeLogs_rows_clean (logs : list LogEntry) (r : LogEntry) :
  r ∈ (sanitizeLogs logs).1 →
  Js.trim (timestamp r) ≠ "" ∧ Js.trim (actor r) ≠ "" ∧ Js.trim (target r) ≠ "" ∧
  Js.trim (action r) ≠ "" ∧ Js.trim (platform r) ≠ "" ∧
  (∃ ms, Date_parse (timestamp r) = Some ms) ∧
  timestamp r ≠ "" ∧ actor r ≠ "" ∧ target r ≠ "" ∧ action r ≠ "" ∧ platform r ≠ "".
Proof.
  intros Hr. simpl in Hr.
  pose proof (sanitize_rows_clean logs [] (Forall_nil_2 _)) as Hall.
  rewrite Forall_forall in Hall. specialize (Hall r Hr).
  destruct Hall as (T1 & N1 & T2 & N2 & T3 & N3 & T4 & N4 & T5 & N5 & F).
  rewrite T1, T2, T3, T4, T5. repeat split; try done.
  destruct (Date_parse (timestamp r)) as [ms|]; [by exists ms|done].
Qed.

(** ** The result of a completed run *)

Lemma Date_toISOString_Normal (t : option Z) (k : Z) :
  Date_toISOString t = Normal k ↔ t = Some k ∧ valid_time k.
Proof. without_host.
  unfold Date_toISOString, valid_time. destruct t as [t|]; [|naive_solver].
  destruct (Z.leb_spec (- Js.maxTime) t), (Z.leb_spec t Js.maxTime); simpl;
    split; try (intros [= <-]; split; [done|lia]); try done;
    intros [[= <-] ?]; first [done|lia].
Qed.

Lemma Date_toISOString_outcome (t : option Z) :
  (∃ k, Date_toISOString t = Normal k) ∨
  Date_toISOString t = Throw (RangeError "Invalid time value").
Proof. without_host.
  unfold Date_toISOString. destruct t as [t|]; [|by right].
  destruct (_ && _); [left; by eexists|by right].
Qed.

Lemma map_flat_map {A B C : Type} (f : A → list B) (g : B → C) (l : list A) :
  map g (flat_map f l) = flat_map (λ x, map g (f x)) l.
Proof. without_host. induction l as [|x l IH]; simpl; [done|]. by rewrite map_app, IH. Qed.

Lemma wave_cells_map {A B : Type} (settings : AnalysisSettings)
    (tb : list (Z * list (string * list (string * Bin.info))))
    (f : Z → string → string → Bin.info → A) (g : A → B) :
  wave_cells settings tb (λ time action target info, g (f time action target info))
  = map g (wave_cells settings tb f).
Proof. without_host.
  unfold wave_cells. rewrite map_flat_map. apply flat_map_ext. intros [time actions].
  rewrite map_flat_map. apply flat_map_ext. intros [action targets].
  rewrite map_flat_map. apply flat_map_ext. intros [target info].
  by destruct (is_wave settings info).
Qed.

(** The window ends of the cells that pass the thresholds. *)
Lemma push_wave_Normal (settings : AnalysisSettings)
    (cells : list (Z * string * string * Bin.info)) (acc ws : list WaveResult) :
  forEach_throwing (push_wave settings) cells acc = Normal ws ↔
  ws = acc ++ map (λ '(time, action, target, info),
                     make_wave settings time action target info) cells ∧
  Forall (λ c, valid_time (c.1.1.1 + binSizeMs settings)) cells.
Proof. without_host.
  revert acc. induction cells as [|[[[time action] target] info] cells IH]; intros acc.
  - cbn [forEach_throwing map]. rewrite app_nil_r. split.
    + intros [= <-]. by split.
    + by intros [-> _].
  - cbn [forEach_throwing push_wave].
    destruct (Date_toISOString (Some (time + binSizeMs settings))) as [k| |] eqn:E.
    + apply Date_toISOString_Normal in E as [[= <-] Hv]. rewrite IH.
      rewrite Forall_cons. cbn [map fst]. rewrite <- app_assoc. cbn [app]. unfold make_wave.
      tauto.
    + split; [done|]. rewrite Forall_cons. intros (_ & Hv & _).
      assert (Hn : Date_toISOString (Some (time + binSizeMs settings))
                   = Normal (time + binSizeMs settings))
        by (by apply Date_toISOString_Normal).
      congruence.
    + destruct (Date_toISOString_outcome (Some (time + binSizeMs settings))) as [[k Hk]|Hk];
        congruence.
Qed.

Lemma push_wave_outcome (settings : AnalysisSettings)
    (cells : list (Z * string * string * Bin.info)) (acc : list WaveResult) :
  (∃ ws, forEach_throwing (push_wave settings) cells acc = Normal ws) ∨
  forEach_throwing (push_wave settings) cells acc = Throw (RangeError "Invalid time value").
Proof. without_host.
  revert acc. induction cells as [|[[[time action] target] info] cells IH]; intros acc.
  { left. by eexists. }
  cbn [forEach_throwing push_wave].
  destruct (Date_toISOString_outcome (Some (time + binSizeMs settings))) as [[k ->]| ->];
    [apply IH|by right].
Qed.

Lemma detect_waves_Normal (settings : AnalysisSettings)
    (tb : list (Z * list (string * list (string * Bin.info)))) (ws : list WaveResult) :
  detect_waves settings tb = Normal ws ↔
  ws = waves_of settings tb ∧
  Forall (λ time, valid_time (time + binSizeMs settings))
    (wave_cells settings tb (λ time _ _ _, time)).
Proof. without_host.
  unfold detect_waves, waves_of. rewrite push_wave_Normal. cbn [app].
  set (cells := wave_cells settings tb (λ time action target info,
                                          (time, action, target, info))).
  assert (Hwaves : wave_cells settings tb (make_wave settings)
                   = map (λ '(time, action, target, info),
                            make_wave settings time action target info) cells)
    by exact (wave_cells_map settings tb _ _).
  assert (Htimes : wave_cells settings tb (λ time _ _ _, time) = map (λ c, c.1.1.1) cells)
    by exact (wave_cells_map settings tb
                (λ time action target info, (time, action, target, info)) (λ c, c.1.1.1)).
  by rewrite Hwaves, Htimes, Forall_fmap.
Qed.

Lemma detect_waves_outcome (settings : AnalysisSettings)
    (tb : list (Z * list (string * list (string * Bin.info)))) :
  (∃ ws, detect_waves settings tb = Normal ws) ∨
  detect_waves settings tb = Throw (RangeError "Invalid time value").
Proof. without_host. apply push_wave_outcome. Qed.

Lemma analyzeLogs_Normal (logs : list LogEntry) (settings : AnalysisSettings)
    (res : AnalysisResult) :
  (analyzeLogs logs settings).2 = Normal res →
  (logs = [] ∧ res = {| elements := []; clusters := []; waves := []; scorecards := [] |}) ∨
  (logs ≠ [] ∧ ∃ cl tb,
     detect_clusters (build_graph (collect_nodes logs) (collect_edges settings logs))
       (minClusterSize settings) (collect_nodes logs) = Some cl ∧
     collect_timeBins settings logs = Normal tb ∧
     clusters res = cl ∧
     waves res = waves_of settings tb ∧
     scorecards res =
       map (scorecard_of (collect_profiles logs) (collect_links (collect_profiles logs))
              (datasetStart logs))
         (Js.Object_values
            (collect_actorStats settings logs (collect_nodes logs)
               (build_graph (collect_nodes logs) (collect_edges settings logs)) cl tb))).
Proof.
  unfold analyzeLogs. case_bool_decide as Hlen.
  - intros [= <-]. left. split; [|done]. by destruct logs.
  - intros H. right. split; [by intros ->|].
    destruct (detect_clusters _ _ _) as [cl|]; [|done].
    destruct (collect_timeBins settings logs) as [tb| |]; try done.
    destruct (detect_waves settings tb) as [ws| |] eqn:Hws; try done.
    apply detect_waves_Normal in Hws as [-> _].
    simpl in H. injection H as <-. by exists cl, tb.
Qed.

(** ** The composite score *)

Ltac split_Forall :=
  repeat match goal with
    | H : Forall _ (_ :: _) |- _ => apply Forall_cons in H; destruct H
    end.

Lemma composite_bounds (a c i n d p : Q) :
  (0 <= a <= 1 → 0 <= Qmin (c / 10) 1 <= 1 → 0 <= i <= 1 → 0 <= n <= 1 →
   0 <= d <= 1 → 0 <= p <= 1 → 0 <= composite a c i n d p <= 1)%Q.
Proof.
  unfold composite. set (m := Qmin (c / 10) 1). intros. lra.
Qed.

Lemma composite_extremes (a c i n d p v : Q) :
  (a == v → Qmin (c / 10) 1 == v → i == v → n == v → d == v → p == v →
   composite a c i n d p == v)%Q.
Proof.
  unfold composite. set (m := Qmin (c / 10) 1). intros. lra.
Qed.

(** C4: the composite of every scorecard is the weighted sum of its six
    sub-scores with weights 0.30, 0.20, 0.15, 0.10, 0.10, 0.15 (the churn
    count enters as min(churn/10, 1)); the weights add up to 1; all
    sub-scores at 0 give 0, all at 1 give 1, and sub-scores in [0,1] give a
    composite in [0,1]. *)
Theorem sybilScore_weighted_sum (logs : list LogEntry) (settings : AnalysisSettings)
    (res : AnalysisResult) (sc : ActorScorecard) :
  (analyzeLogs logs settings).2 = Normal res →
  sc ∈ scorecards res →
  let capped := Qmin (Card.churnScore sc / 10) 1 in
  let subscores :=
    [Card.coordinationScore sc; capped; Card.clusterIsolationScore sc;
     Card.newAccountScore sc; Card.lowDiversityScore sc; Card.profileAnomalyScore sc] in
  (Card.sybilScore sc =
     0.30 * Card.coordinationScore sc + 0.20 * capped +
     0.15 * Card.clusterIsolationScore sc + 0.10 * Card.newAccountScore sc +
     0.10 * Card.lowDiversityScore sc + 0.15 * Card.profileAnomalyScore sc)%Q ∧
  (0.30 + 0.20 + 0.15 + 0.10 + 0.10 + 0.15 == 1)%Q ∧
  (Forall (λ x, x == 0)%Q subscores → Card.sybilScore sc == 0)%Q ∧
  (Forall (λ x, x == 1)%Q subscores → Card.sybilScore sc == 1)%Q ∧
  (Forall (λ x, 0 <= x <= 1)%Q subscores → 0 <= Card.sybilScore sc <= 1)%Q.
Proof.
  intros Hres Hsc capped subscores.
  destruct (analyzeLogs_Normal _ _ _ Hres) as [[_ ->]|[_ (cl & tb & _ & _ & _ & _ & Hcards)]].
  { by apply elem_of_nil in Hsc. }
  rewrite Hcards in Hsc. apply list_elem_of_fmap in Hsc as (stats & -> & _).
  assert (Heq : ∀ sc' : ActorScorecard, sc' = scorecard_of (collect_profiles logs)
            (collect_links (collect_profiles logs)) (datasetStart logs) stats →
            Card.sybilScore sc' =
            composite (Card.coordinationScore sc') (Card.churnScore sc')
              (Card.clusterIsolationScore sc') (Card.newAccountScore sc')
              (Card.lowDiversityScore sc') (Card.profileAnomalyScore sc')).
  { by intros sc' ->. }
  specialize (Heq _ eq_refl). subst subscores capped.
  set (sc := scorecard_of _ _ _ _) in *. clearbody sc.
  split; [exact Heq|]. split; [reflexivity|].
  rewrite Heq. split; [|split].
  - intros H. split_Forall. by apply composite_extremes.
  - intros H. split_Forall. by apply composite_extremes.
  - intros H. split_Forall. by apply composite_bounds.
Qed.

(** ** The worker protocol *)

Lemma post_if_active_id (a : option string) (id : string) (m m' : Outgoing) :
  requestId_of m = id → m' ∈ post_if_active a id m → requestId_of m' = id.
Proof.
  unfold post_if_active. intros Hm. case_decide; [by intros ?%elem_of_nil|].
  by intros ->%list_elem_of_singleton.
Qed.

Lemma onmessage_analyze_ids (a : option string) (id : string) (logs : list LogEntry)
    (settings : AnalysisSettings) (m : Outgoing) :
  m ∈ (onmessage a (AnalyzeMessage id logs settings)).2 → requestId_of m = id.
Proof.
  unfold onmessage. destruct (analyzeLogs logs settings) as [reported outcome].
  assert (Hp : ∀ m', m' ∈ flat_map (λ p, post_if_active (Some id) id
                 (ProgressMessage id (stage p) (pct p))) reported → requestId_of m' = id).
  { intros m' (p & _ & Hin)%list_elem_of_In%in_flat_map.
    apply list_elem_of_In in Hin. by eapply post_if_active_id in Hin. }
  destruct outcome; simpl; rewrite ?elem_of_app; intros H.
  - destruct H as [H|H]; [by apply Hp|]. by eapply post_if_active_id in H.
  - destruct H as [H|H]; [by apply Hp|]. by eapply post_if_active_id in H.
  - by apply Hp.
Qed.

Lemma handle_all_other_ids (msgs : list Incoming) (a : option string) (id : string)
    (m : Outgoing) :
  (∀ logs settings, AnalyzeMessage id logs settings ∉ msgs) →
  m ∈ (handle_all a msgs).2 → requestId_of m ≠ id.
Proof.
  revert a. induction msgs as [|msg msgs IH]; intros a Hno; simpl.
  { by intros ?%elem_of_nil. }
  destruct (onmessage a msg) as [a' posted] eqn:Hstep.
  destruct (handle_all a' msgs) as [final later] eqn:Hrest. simpl.
  intros [Hm|Hm]%elem_of_app.
  - destruct msg as [id' logs settings|id'].
    + assert (requestId_of m = id') as ->.
      { apply (onmessage_analyze_ids a id' logs settings). by rewrite Hstep. }
      intros ->. apply (Hno logs settings). by left.
    + simpl in Hstep. injection Hstep as _ <-. by apply elem_of_nil in Hm.
  - apply (IH a'); [|by rewrite Hrest].
    intros logs settings Hin. apply (Hno logs settings). by right.
Qed.

(** C9, as the worker has it: handling a cancel for the active request id
    posts nothing and clears the active id, and from then on no progress,
    result or error message carries that id for as long as no new analyze
    message with the same id arrives. *)
Theorem cancel_silences_request (id : string) (later : list Incoming) (m : Outgoing) :
  (∀ logs settings, AnalyzeMessage id logs settings ∉ later) →
  onmessage (Some id) (CancelMessage id) = (None, []) ∧
  (m ∈ (handle_all (Some id) (CancelMessage id :: later)).2 → requestId_of m ≠ id).
Proof.
  intros Hno. split.
  - simpl. by case_decide.
  - apply handle_all_other_ids. intros logs settings [Heq|Hin]%elem_of_cons; [done|].
    by apply (Hno logs settings).
Qed.

(** ** Dictionaries *)

Section DictionaryFacts.
Context {K V : Type} `{EqDecision K}.
Implicit Types (o : list (K * V)) (k : K) (v : V).

Lemma get_set k k' v o :
  Js.get k' (Js.set k v o) = if decide (k = k') then Some v else Js.get k' o.
Proof.
  induction o as [|[k0 v0] o IH]; simpl.
  - repeat case_decide; congruence.
  - destruct (decide (k = k0)) as [->|Hk]; simpl;
      destruct (decide (k' = k0)) as [->|Hk']; simpl;
      rewrite ?IH; repeat case_decide; congruence.
Qed.

Lemma get_update k k' init f o :
  Js.get k' (Js.update k init f o) =
  if decide (k = k') then Some (f (default init (Js.get k o))) else Js.get k' o.
Proof.
  induction o as [|[k0 v0] o IH]; simpl.
  - repeat case_decide; congruence.
  - destruct (decide (k = k0)) as [->|Hk]; simpl;
      destruct (decide (k' = k0)) as [->|Hk']; simpl;
      rewrite ?IH; repeat case_decide; congruence.
Qed.

Lemma get_modify k k' f o :
  Js.get k' (Js.modify k f o) =
  if decide (k = k') then f <$> Js.get k o else Js.get k' o.
Proof.
  induction o as [|[k0 v0] o IH]; simpl.
  - by case_decide.
  - destruct (decide (k = k0)) as [->|Hk]; simpl;
      destruct (decide (k' = k0)) as [->|Hk']; simpl;
      rewrite ?IH; repeat case_decide; simpl; congruence.
Qed.

Lemma keys_modify k f o : (Js.modify k f o).*1 = o.*1.
Proof.
  induction o as [|[k0 v0] o IH]; simpl; [done|].
  case_decide; rewrite !fmap_cons; simpl; by rewrite ?IH.
Qed.

Lemma get_None k o : Js.get k o = None ↔ k ∉ o.*1.
Proof.
  induction o as [|[k0 v0] o IH]; simpl.
  - split; [intros _; apply not_elem_of_nil|done].
  - rewrite not_elem_of_cons. case_decide; naive_solver.
Qed.

Lemma get_elem_of k v o : Js.get k o = Some v → (k, v) ∈ o.
Proof.
  induction o as [|[k0 v0] o IH]; simpl; [done|].
  case_decide.
  - intros [= ->]. subst. by left.
  - intros ?. right. auto.
Qed.

Lemma elem_of_get k v o : NoDup o.*1 → (k, v) ∈ o → Js.get k o = Some v.
Proof.
  induction o as [|[k0 v0] o IH]; simpl.
  - by intros _ ?%elem_of_nil.
  - intros [Hk0 Hnd]%NoDup_cons [Heq|Hin]%elem_of_cons.
    + injection Heq as -> ->. by case_decide.
    + case_decide; [|by apply IH]. subst. destruct Hk0.
      apply list_elem_of_fmap. by exists (k0, v).
Qed.

Lemma keys_set k v o :
  (Js.set k v o).*1 = if decide (k ∈ o.*1) then o.*1 else o.*1 ++ [k].
Proof.
  induction o as [|[k0 v0] o IH]; [done|].
  cbn [Js.set]. rewrite fmap_cons. cbn [fst].
  destruct (decide (k = k0)) as [->|Hk].
  - rewrite fmap_cons, decide_True; [done|by left].
  - rewrite fmap_cons, IH. cbn [fst]. destruct (decide (k ∈ o.*1)) as [Hin|Hin].
    + rewrite decide_True; [done|by right].
    + rewrite decide_False; [done|]. rewrite not_elem_of_cons. by split.
Qed.

Lemma keys_update k init f o :
  (Js.update k init f o).*1 = if decide (k ∈ o.*1) then o.*1 else o.*1 ++ [k].
Proof.
  induction o as [|[k0 v0] o IH]; [done|].
  cbn [Js.update]. rewrite fmap_cons. cbn [fst].
  destruct (decide (k = k0)) as [->|Hk].
  - rewrite fmap_cons, decide_True; [done|by left].
  - rewrite fmap_cons, IH. cbn [fst]. destruct (decide (k ∈ o.*1)) as [Hin|Hin].
    + rewrite decide_True; [done|by right].
    + rewrite decide_False; [done|]. rewrite not_elem_of_cons. by split.
Qed.

Lemma NoDup_snoc_fresh (l : list K) k : NoDup l → k ∉ l → NoDup (l ++ [k]).
Proof.
  intros Hl Hk. apply NoDup_app. split; [done|]. split.
  - intros x Hx ->%list_elem_of_singleton. done.
  - apply NoDup_singleton.
Qed.

Lemma NoDup_keys_set k v o : NoDup o.*1 → NoDup (Js.set k v o).*1.
Proof. rewrite keys_set. case_decide; auto using NoDup_snoc_fresh. Qed.

Lemma NoDup_keys_update k init f o : NoDup o.*1 → NoDup (Js.update k init f o).*1.
Proof. rewrite keys_update. case_decide; auto using NoDup_snoc_fresh. Qed.
End DictionaryFacts.

Lemma elem_of_insert_by_index {V : Type} (i : N) (kv : string * V)
    (l : list (N * (string * V))) (x : N * (string * V)) :
  x ∈ Js.insert_by_index i kv l ↔ x = (i, kv) ∨ x ∈ l.
Proof.
  induction l as [|[j kv'] l IH]; simpl.
  - rewrite list_elem_of_singleton. split; [auto|]. intros [?|?%elem_of_nil]; done.
  - destruct (i <=? j)%N; rewrite !elem_of_cons; [done|]. rewrite IH. naive_solver.
Qed.

Lemma elem_of_index_entries {V : Type} (o : list (string * V)) (i : N)
    (kv : string * V) :
  (i, kv) ∈ Js.index_entries o ↔ kv ∈ o ∧ Js.array_index kv.1 = Some i.
Proof.
  induction o as [|kv' o IH]; simpl.
  - split; [by intros ?%elem_of_nil|by intros [?%elem_of_nil _]].
  - destruct (Js.array_index kv'.1) as [j|] eqn:E.
    + rewrite elem_of_insert_by_index, IH, elem_of_cons. split.
      * intros [[= -> ->]|[? ?]]; auto.
      * intros [[->|?] ?]; [left; congruence|auto].
    + rewrite IH, elem_of_cons. split; [naive_solver|].
      intros [[->|?] ?]; [congruence|auto].
Qed.

(** [Object.entries] enumerates exactly the entries of the object. *)
Lemma elem_of_Object_entries {V : Type} (o : list (string * V)) (kv : string * V) :
  kv ∈ Js.Object_entries o ↔ kv ∈ o.
Proof.
  unfold Js.Object_entries, Js.named_entries.
  rewrite elem_of_app, list_elem_of_fmap, list_elem_of_filter. split.
  - intros [([i kv'] & -> & Hin)|[_ ?]]; [|done].
    by apply elem_of_index_entries in Hin as [? _].
  - intros Hin. destruct (Js.array_index kv.1) as [i|] eqn:E; [left|by right].
    exists (i, kv). split; [done|]. by apply elem_of_index_entries.
Qed.

Lemma elem_of_Object_values {V : Type} (o : list (string * V)) (v : V) :
  v ∈ Js.Object_values o ↔ ∃ k, (k, v) ∈ o.
Proof.
  unfold Js.Object_values. rewrite list_elem_of_fmap. split.
  - intros ([k v'] & -> & Hin). exists k. by apply elem_of_Object_entries.
  - intros [k Hin]. exists (k, v). split; [done|]. by apply elem_of_Object_entries.
Qed.

(** ** The graph *)

Lemma Set_add_elem (x y : string) (s : list string) :
  y ∈ Js.Set_add x s ↔ y = x ∨ y ∈ s.
Proof. without_host.
  unfold Js.Set_add. case_decide; [naive_solver|].
  rewrite elem_of_app, list_elem_of_singleton. naive_solver.
Qed.

Lemma Set_add_NoDup (x : string) (s : list string) : NoDup s → NoDup (Js.Set_add x s).
Proof. unfold Js.Set_add. case_decide; auto using NoDup_snoc_fresh. Qed.

Lemma collect_nodes_snoc (logs : list LogEntry) (l : LogEntry) :
  collect_nodes (logs ++ [l]) =
  Js.Set_add (target l) (Js.Set_add (actor l) (collect_nodes logs)).
Proof. unfold collect_nodes. by rewrite fold_left_app. Qed.

Lemma collect_nodes_elem (logs : list LogEntry) (x : string) :
  x ∈ collect_nodes logs ↔ ∃ l, l ∈ logs ∧ (actor l = x ∨ target l = x).
Proof.
  induction logs as [|l logs IH] using rev_ind.
  - split; [by intros ?%elem_of_nil|by intros (? & ?%elem_of_nil & _)].
  - rewrite collect_nodes_snoc, !Set_add_elem, IH. split.
    + intros [->|[->|(l' & Hin & H)]].
      * exists l. rewrite elem_of_app, list_elem_of_singleton. auto.
      * exists l. rewrite elem_of_app, list_elem_of_singleton. auto.
      * exists l'. rewrite elem_of_app. auto.
    + intros (l' & [Hin| ->%list_elem_of_singleton]%elem_of_app & H).
      * right; right. by exists l'.
      * destruct H as [<-|<-]; auto.
Qed.

Lemma collect_nodes_NoDup (logs : list LogEntry) : NoDup (collect_nodes logs).
Proof.
  induction logs as [|l logs IH] using rev_ind; [apply NoDup_nil_2|].
  rewrite collect_nodes_snoc. by do 2 apply Set_add_NoDup.
Qed.

Lemma collect_edges_snoc (settings : AnalysisSettings) (logs : list LogEntry)
    (l : LogEntry) :
  collect_edges settings (logs ++ [l]) =
  collect_edges settings logs ++
  (if is_positive settings l then [Edge (actor l) (target l) "interaction"] else []).
Proof.
  unfold collect_edges. rewrite fold_left_app. simpl.
  destruct (is_positive settings l); [done|by rewrite app_nil_r].
Qed.

Lemma collect_edges_endpoints (settings : AnalysisSettings) (logs : list LogEntry)
    (a b ty : string) :
  Edge a b ty ∈ collect_edges settings logs →
  a ∈ collect_nodes logs ∧ b ∈ collect_nodes logs.
Proof. without_host.
  induction logs as [|l logs IH] using rev_ind.
  - by intros ?%elem_of_nil.
  - rewrite collect_edges_snoc, collect_nodes_snoc, !Set_add_elem.
    intros [Hin|Hin]%elem_of_app; [naive_solver|].
    destruct (is_positive settings l); [|by apply elem_of_nil in Hin].
    apply list_elem_of_singleton in Hin as [= -> -> ->]. auto.
Qed.

Lemma edges_between_events (settings : AnalysisSettings) (logs : list LogEntry)
    (s t : string) :
  s ≠ "" → t ≠ "" →
  edges_between (collect_edges settings logs) s t = positive_events settings logs s t.
Proof. without_host.
  intros Hs Ht. unfold edges_between, positive_events.
  induction logs as [|l logs IH] using rev_ind; [done|].
  rewrite collect_edges_snoc, !filter_app, !length_app, IH. f_equal.
  unfold is_positive. case_bool_decide as Hp.
  - rewrite !filter_cons, !filter_nil. repeat case_decide; naive_solver.
  - rewrite !filter_cons, !filter_nil, decide_False; [done|]. by intros [? _].
Qed.

Lemma empty_graph_lookup (nodes : list string) (g : gmap string (list string))
    (x : string) :
  fold_left (λ g node, <[node := []]> g) nodes g !! x =
  if decide (x ∈ nodes) then Some [] else g !! x.
Proof.
  revert g. induction nodes as [|n nodes IH]; intros g; [done|].
  cbn [fold_left]. rewrite IH. destruct (decide (x ∈ nodes)) as [Hin|Hin].
  - rewrite decide_True; [done|by right].
  - destruct (decide (x = n)) as [->|Hne].
    + rewrite decide_True by left. apply lookup_insert_eq.
    + rewrite decide_False by (rewrite not_elem_of_cons; done).
      by apply lookup_insert_ne.
Qed.

Lemma neighbors_push (g : gmap string (list string)) (k v x : string) :
  neighbors (push_neighbor k v g) x =
  if decide (x = k ∧ is_Some (g !! k)) then neighbors g x ++ [v] else neighbors g x.
Proof. without_host.
  unfold neighbors, push_neighbor. rewrite lookup_alter.
  destruct (decide (k = x)) as [->|Hne].
  - destruct (g !! x) as [l|] eqn:E; simpl.
    + rewrite decide_True; [done|]. split; [done|by eexists].
    + rewrite decide_False; [done|]. intros [_ [? ?]]. done.
  - rewrite decide_False; [done|]. naive_solver.
Qed.

Lemma push_neighbor_dom (g : gmap string (list string)) (k v x : string) :
  is_Some (push_neighbor k v g !! x) ↔ is_Some (g !! x).
Proof.
  unfold push_neighbor. rewrite lookup_alter. case_decide; [subst|done].
  by rewrite fmap_is_Some.
Qed.

Lemma add_edge_dom (g : gmap string (list string)) (e : EdgeDefinition) (x : string) :
  is_Some (add_edge g e !! x) ↔ is_Some (g !! x).
Proof.
  destruct e as [a b ty]. unfold add_edge.
  destruct (negb (Js.truthy a) || negb (Js.truthy b)); [done|].
  by rewrite !push_neighbor_dom.
Qed.

Lemma neighbors_add_edge (g : gmap string (list string)) (a b ty x : string) :
  is_Some (g !! a) → is_Some (g !! b) →
  neighbors (add_edge g (Edge a b ty)) x =
  neighbors g x ++
  (if decide (a ≠ "" ∧ b ≠ "")
   then (if decide (x = a) then [b] else []) ++ (if decide (x = b) then [a] else [])
   else []).
Proof. without_host.
  intros Ha Hb. unfold add_edge.
  destruct (Js.truthy a) eqn:Ta; destruct (Js.truthy b) eqn:Tb; simpl.
  2-4: rewrite decide_False, ?app_nil_r; [done|];
    intros [?%truthy_nonempty ?%truthy_nonempty]; congruence.
  apply truthy_nonempty in Ta, Tb. rewrite decide_True by done.
  rewrite !neighbors_push.
  assert (is_Some (push_neighbor a b g !! b)) by by apply push_neighbor_dom.
  repeat case_decide; try naive_solver; by rewrite <- ?app_assoc, ?app_nil_r.
Qed.

Lemma occurrences_app (x : string) (l1 l2 : list string) :
  occurrences x (l1 ++ l2) = (occurrences x l1 + occurrences x l2)%nat.
Proof. unfold occurrences. by rewrite filter_app, length_app. Qed.

Lemma occurrences_pos (x : string) (l : list string) :
  x ∈ l ↔ (0 < occurrences x l)%nat.
Proof. without_host.
  unfold occurrences. induction l as [|y l IH].
  - split; [by intros ?%elem_of_nil|simpl; lia].
  - rewrite elem_of_cons, filter_cons. case_decide; simpl; [split; [lia|auto]|].
    rewrite IH. naive_solver.
Qed.

Lemma edges_between_cons (e : EdgeDefinition) (edges : list EdgeDefinition)
    (s t : string) :
  edges_between (e :: edges) s t =
  ((if decide (source_of e = s ∧ target_of e = t ∧ s ≠ "" ∧ t ≠ "") then 1 else 0)
   + edges_between edges s t)%nat.
Proof. unfold edges_between. rewrite filter_cons. by case_decide. Qed.

Lemma neighbors_fold_edges (edges : list EdgeDefinition)
    (g : gmap string (list string)) (s t : string) :
  (∀ e, e ∈ edges → is_Some (g !! source_of e) ∧ is_Some (g !! target_of e)) →
  occurrences t (neighbors (fold_left add_edge edges g) s) =
  (occurrences t (neighbors g s) + edges_between edges s t + edges_between edges t s)%nat.
Proof. without_host.
  revert g. induction edges as [|[a b ty] edges IH]; intros g Hdom.
  - unfold edges_between. simpl. lia.
  - cbn [fold_left]. rewrite IH.
    + destruct (Hdom (Edge a b ty)) as [Ha Hb]; [by left|]. simpl in Ha, Hb.
      rewrite (neighbors_add_edge g a b ty s Ha Hb), occurrences_app.
      rewrite !edges_between_cons. simpl.
      unfold occurrences.
      repeat (case_decide; rewrite ?filter_app, ?filter_cons, ?filter_nil; simpl);
        try lia; naive_solver.
    + intros e He. rewrite !add_edge_dom. apply Hdom. by right.
Qed.

Lemma graph_of_multiplicity (settings : AnalysisSettings) (logs : list LogEntry)
    (s t : string) :
  occurrences t (neighbors (graph_of settings logs) s) =
  (edges_between (collect_edges settings logs) s t
   + edges_between (collect_edges settings logs) t s)%nat.
Proof.
  unfold graph_of, build_graph. rewrite neighbors_fold_edges.
  - unfold neighbors at 1. rewrite empty_graph_lookup.
    case_decide; rewrite ?lookup_empty; simpl; unfold occurrences; simpl; lia.
  - intros [a b ty] [Ha Hb]%collect_edges_endpoints. simpl.
    rewrite !empty_graph_lookup, !decide_True by done. split; by eexists.
Qed.

(** How often a neighbor is listed: the adjacency lists are filled by one
    [push] on either side for every edge, and nothing removes a repeat.
    For non-empty ids [s] and [t], [t] occurs in the neighbor list of [s]
    once for every positive event from [s] to [t] and once for every
    positive event from [t] to [s]. *)
Lemma adjacency_keeps_multiplicity (settings : AnalysisSettings)
    (logs : list LogEntry) (s t : string) :
  s ≠ "" → t ≠ "" →
  occurrences t (neighbors (graph_of settings logs) s) =
  (positive_events settings logs s t + positive_events settings logs t s)%nat.
Proof.
  intros Hs Ht. by rewrite graph_of_multiplicity, !edges_between_events.
Qed.

Lemma graph_of_symmetric (settings : AnalysisSettings) (logs : list LogEntry)
    (u v : string) :
  v ∈ neighbors (graph_of settings logs) u → u ∈ neighbors (graph_of settings logs) v.
Proof. rewrite !occurrences_pos, !graph_of_multiplicity. lia. Qed.

Lemma edges_between_pos (edges : list EdgeDefinition) (s t : string) :
  (0 < edges_between edges s t)%nat → ∃ ty, Edge s t ty ∈ edges.
Proof.
  unfold edges_between. induction edges as [|[a b ty] edges IH]; [simpl; lia|].
  rewrite filter_cons. destruct (decide _) as [(Ha & Hb & _)|_]; simpl in *.
  - subst. intros _. exists ty. by left.
  - intros [ty' ?]%IH. exists ty'. by right.
Qed.

Lemma graph_of_neighbors_nodes (settings : AnalysisSettings) (logs : list LogEntry)
    (u v : string) :
  v ∈ neighbors (graph_of settings logs) u →
  u ∈ collect_nodes logs ∧ v ∈ collect_nodes logs.
Proof. without_host.
  rewrite occurrences_pos, graph_of_multiplicity. intros H.
  assert ((0 < edges_between (collect_edges settings logs) u v)%nat ∨
          (0 < edges_between (collect_edges settings logs) v u)%nat) as [H'|H'] by lia;
    apply edges_between_pos in H' as [ty H']; apply collect_edges_endpoints in H';
    naive_solver.
Qed.

Lemma filter_none {A : Type} (P : A → Prop) `{∀ x, Decision (P x)} (l : list A) :
  (∀ x, x ∈ l → ¬ P x) → filter P l = [].
Proof.
  induction l as [|x l IH]; intros Hno; [done|].
  rewrite filter_cons, decide_False by (apply Hno; by left).
  apply IH. intros y Hy. apply Hno. by right.
Qed.

Lemma length_filter_pos {A : Type} (P : A → Prop) `{∀ x, Decision (P x)} (l : list A) :
  (0 < length (filter P l))%nat ↔ ∃ x, x ∈ l ∧ P x.
Proof.
  induction l as [|y l IH].
  - split; [simpl; lia|]. by intros (x & ?%elem_of_nil & _).
  - rewrite filter_cons. destruct (decide (P y)) as [Hy|Hy]; simpl.
    + split; [|lia]. intros _. exists y. split; [by left|done].
    + rewrite IH. split.
      * intros (x & Hx & HP). exists x. split; [by right|done].
      * intros (x & [->|Hx]%elem_of_cons & HP); [done|]. by exists x.
Qed.

Lemma edges_between_empty (edges : list EdgeDefinition) (s t : string) :
  s = "" ∨ t = "" → edges_between edges s t = 0%nat.
Proof.
  intros Hst. unfold edges_between. rewrite filter_none; [done|].
  intros e _ (_ & _ & Hs & Ht). by destruct Hst.
Qed.

(** Two nodes are adjacent exactly when both ids are non-empty and some
    positive event joins them, in either direction. *)
Lemma adjacent_iff_positive_event (settings : AnalysisSettings) (logs : list LogEntry)
    (u v : string) :
  adjacent (graph_of settings logs) u v ↔
  u ≠ "" ∧ v ≠ "" ∧
  ∃ l, l ∈ logs ∧ action l ∈ positiveActions settings ∧
       ((actor l = u ∧ target l = v) ∨ (actor l = v ∧ target l = u)).
Proof.
  unfold adjacent. rewrite occurrences_pos, graph_of_multiplicity.
  destruct (decide (u = "")) as [Hu|Hu].
  { rewrite !edges_between_empty by auto. split; [lia|]. by intros [? _]. }
  destruct (decide (v = "")) as [Hv|Hv].
  { rewrite !edges_between_empty by auto. split; [lia|]. by intros (_ & ? & _). }
  rewrite !edges_between_events by done. unfold positive_events. split.
  - intros Hpos. split; [done|]. split; [done|].
    assert ((0 < length (filter (λ l, action l ∈ positiveActions settings
                                       ∧ actor l = u ∧ target l = v) logs))%nat ∨
            (0 < length (filter (λ l, action l ∈ positiveActions settings
                                       ∧ actor l = v ∧ target l = u) logs))%nat)
      as [H|H] by lia;
      apply length_filter_pos in H as (l & Hl & Hp & Ha & Ht); exists l; auto.
  - intros (_ & _ & l & Hl & Hp & [[Ha Ht]|[Ha Ht]]).
    + assert ((0 < length (filter (λ l, action l ∈ positiveActions settings
                                         ∧ actor l = u ∧ target l = v) logs))%nat);
        [|lia].
      apply length_filter_pos. by exists l.
    + assert ((0 < length (filter (λ l, action l ∈ positiveActions settings
                                         ∧ actor l = v ∧ target l = u) logs))%nat);
        [|lia].
      apply length_filter_pos. by exists l.
Qed.

(** ** The traversal *)

Lemma unvisited_add_absent (l : list string) (V : gset string) (n : string) :
  n ∉ l → unvisited l ({[n]} ∪ V) = unvisited l V.
Proof. without_host.
  unfold unvisited. induction l as [|x l IH]; [done|].
  intros [Hx Hl]%not_elem_of_cons. rewrite !filter_cons.
  destruct (decide (x ∉ V)).
  - rewrite decide_True by set_solver. simpl. by rewrite IH.
  - rewrite decide_False by set_solver. by apply IH.
Qed.

Lemma unvisited_add_present (l : list string) (V : gset string) (n : string) :
  NoDup l → n ∈ l → n ∉ V → (unvisited l ({[n]} ∪ V) + 1 = unvisited l V)%nat.
Proof. without_host.
  intros Hnd Hin Hn. induction l as [|x l IH]; [by apply elem_of_nil in Hin|].
  apply NoDup_cons in Hnd as [Hx Hl]. unfold unvisited in *. rewrite !filter_cons.
  apply elem_of_cons in Hin as [->|Hin].
  - rewrite decide_False by set_solver. rewrite decide_True by done. simpl.
    pose proof (unvisited_add_absent l V x Hx) as E. unfold unvisited in E. lia.
  - specialize (IH Hl Hin). assert (x ≠ n) by (intros ->; done).
    destruct (decide (x ∉ V)).
    + rewrite decide_True by set_solver. simpl. lia.
    + rewrite decide_False by set_solver. done.
Qed.

Lemma component_of_self (G : gmap string (list string)) (u : string) (comp : list string) :
  component_of G u comp → u ∈ comp.
Proof. intros [_ H]. apply H, rtc_refl. Qed.

Lemma component_of_length (G : gmap string (list string)) (u : string) (c1 c2 : list string) :
  component_of G u c1 → component_of G u c2 → length c1 = length c2.
Proof.
  intros [Hnd1 H1] [Hnd2 H2]. apply Permutation_length, NoDup_Permutation; [done..|].
  intros x. by rewrite H1, H2.
Qed.

Lemma component_of_closed (G : gmap string (list string)) (u x y : string) (comp : list string) :
  component_of G u comp → x ∈ comp → adjacent G x y → y ∈ comp.
Proof.
  intros [_ H] Hx Hxy. apply H. eapply rtc_r; [|exact Hxy]. by apply H.
Qed.

Lemma members_make_cluster (G : gmap string (list string)) (id : Z) (component : list string) :
  members (make_cluster G id component) = component.
Proof. done. Qed.

Section Traversal.
Variable G : gmap string (list string).
Variable U : list string.
Hypothesis G_symmetric : ∀ u v, adjacent G u v → adjacent G v u.
Hypothesis G_nodes : ∀ u v, adjacent G u v → v ∈ U.
Hypothesis U_NoDup : NoDup U.
Local Set Default Proof Using "Type*".

Lemma connected_symmetric (u v : string) : connected G u v → connected G v u.
Proof.
  induction 1 as [|x y z Hxy _ IH]; [apply rtc_refl|].
  eapply rtc_r; [exact IH|]. by apply G_symmetric.
Qed.

(** The [for] loop over the neighbors of the popped node. *)
Lemma visit_fold (ns : list string) (visited : gset string) (stack : list string) :
  (∀ n, n ∈ ns → n ∈ U) →
  ∃ new,
    (fold_left visit ns (visited, stack)).2 = new ++ stack ∧
    NoDup new ∧
    (∀ x, x ∈ new ↔ x ∈ ns ∧ x ∉ visited) ∧
    (∀ x, x ∈ (fold_left visit ns (visited, stack)).1 ↔ x ∈ visited ∨ x ∈ ns) ∧
    (unvisited U (fold_left visit ns (visited, stack)).1 + length new
     = unvisited U visited)%nat.
Proof. without_host.
  revert visited stack. induction ns as [|n ns IH]; intros visited stack HU.
  - exists []. simpl. split_and!; [done|apply NoDup_nil_2|set_solver..|lia].
  - cbn [fold_left].
    assert (Hstep : visit (visited, stack) n =
              if decide (n ∈ visited) then (visited, stack)
              else ({[n]} ∪ visited, n :: stack)) by done.
    rewrite Hstep. clear Hstep.
    assert (HU' : ∀ n', n' ∈ ns → n' ∈ U) by (intros; apply HU; by right).
    destruct (decide (n ∈ visited)) as [Hv|Hv].
    + destruct (IH visited stack HU') as (new & Hst & Hnd & Hnew & Hvis & Hcnt).
      exists new. split_and!; [done|done| | |done].
      * intros x. rewrite Hnew. set_solver.
      * intros x. rewrite Hvis. set_solver.
    + destruct (IH ({[n]} ∪ visited) (n :: stack) HU')
        as (new & Hst & Hnd & Hnew & Hvis & Hcnt).
      exists (new ++ [n]). split_and!.
      * by rewrite Hst, <- app_assoc.
      * apply NoDup_snoc_fresh; [done|]. intros ?%Hnew. set_solver.
      * intros x. rewrite elem_of_app, Hnew. destruct (decide (x = n)); set_solver.
      * intros x. rewrite Hvis. set_solver.
      * rewrite length_app. simpl.
        pose proof (unvisited_add_present U visited n U_NoDup (HU n ltac:(by left)) Hv).
        lia.
Qed.
Lemma neighbors_in_U (node n : string) : n ∈ neighbors G node → n ∈ U.
Proof. apply G_nodes. Qed.

(** One round of the [while] loop keeps the invariant. *)
Lemma dfs_round (V0 visited : gset string) (s node : string)
    (rest component : list string) :
  dfs_inv G V0 s visited (node :: rest) component →
  let st := fold_left visit (neighbors G node) (visited, rest) in
  dfs_inv G V0 s st.1 st.2 (component ++ [node]) ∧
  (unvisited U st.1 + length st.2 + 1 = unvisited U visited + length (node :: rest))%nat.
Proof. without_host.
  intros [Hnd Hvis Hfresh Hclosed Hstart] st. subst st.
  destruct (visit_fold (neighbors G node) visited rest (neighbors_in_U node))
    as (new & -> & Hnew_nd & Hnew & Hvis' & Hcnt).
  split; [|rewrite length_app; simpl; lia].
  assert (Hconn : connected G s node) by (apply Hfresh; right; by left).
  split.
  - rewrite <- app_assoc. simpl.
    apply NoDup_app in Hnd as (Hc & Hdisj & [Hnode Hrest]%NoDup_cons).
    apply NoDup_app. split_and!; [done| |].
    + intros x Hx. rewrite elem_of_cons, elem_of_app. intros [->|[Hn|Hr]].
      * apply (Hdisj node Hx). by left.
      * apply Hnew in Hn as [_ Hn]. apply Hn, Hvis. auto.
      * apply (Hdisj x Hx). by right.
    + apply NoDup_cons. split.
      * rewrite elem_of_app. intros [Hn|?]; [|done].
        apply Hnew in Hn as [_ Hn]. apply Hn, Hvis. right; right. by left.
      * apply NoDup_app. split_and!; [done| |done].
        intros x [_ Hn]%Hnew Hr. apply Hn, Hvis. right; right. by right.
  - intros x. rewrite Hvis', Hvis, !elem_of_app, Hnew, elem_of_cons, list_elem_of_singleton.
    destruct (decide (x ∈ visited)) as [Hx|Hx]; [|naive_solver].
    apply Hvis in Hx. rewrite elem_of_cons in Hx. naive_solver.
  - intros x. rewrite !elem_of_app, list_elem_of_singleton, Hnew.
    intros [[?| ->]|[[Hn Hx]|?]].
    + apply Hfresh. auto.
    + apply Hfresh. right. by left.
    + split; [intros ?; apply Hx, Hvis; auto|].
      eapply rtc_r; [exact Hconn|done].
    + apply Hfresh. right. by right.
  - intros x y [Hx| ->%list_elem_of_singleton]%elem_of_app Hadj; apply Hvis'.
    + left. by eapply Hclosed.
    + by right.
  - rewrite !elem_of_app, list_elem_of_singleton.
    destruct Hstart as [?|[->|?]%elem_of_cons]; auto.
Qed.

Lemma dfs_loop_inv (fuel : nat) (V0 visited : gset string) (s : string)
    (stack component : list string) (r : gset string * list string) :
  dfs_inv G V0 s visited stack component →
  dfs_loop fuel G visited stack component = Some r →
  dfs_inv G V0 s r.1 [] r.2.
Proof.
  revert visited stack component.
  induction fuel as [|fuel IH]; intros visited stack component Hinv;
    destruct stack as [|node rest]; simpl; try done.
  - by intros [= <-].
  - by intros [= <-].
  - apply IH. by apply dfs_round.
Qed.

Lemma dfs_loop_fuel (fuel : nat) (V0 visited : gset string) (s : string)
    (stack component : list string) :
  dfs_inv G V0 s visited stack component →
  (unvisited U visited + length stack ≤ fuel)%nat →
  is_Some (dfs_loop fuel G visited stack component).
Proof.
  revert visited stack component.
  induction fuel as [|fuel IH]; intros visited stack component Hinv Hfuel;
    destruct stack as [|node rest]; simpl in *; try by eexists.
  - lia.
  - destruct (dfs_round V0 visited s node rest component Hinv) as [Hinv' Hcnt].
    apply IH; [done|]. simpl in Hcnt. lia.
Qed.

(** What [dfs] returns when started at an unvisited node [s], the nodes
    visited before being closed under adjacency. *)
Lemma dfs_component (fuel : nat) (V0 : gset string) (s : string) :
  (∀ x y, x ∈ V0 → adjacent G x y → y ∈ V0) →
  s ∈ U → s ∉ V0 → (length U ≤ fuel)%nat →
  ∃ visited component,
    dfs fuel G V0 s = Some (visited, component) ∧
    (∀ x, x ∈ visited ↔ x ∈ V0 ∨ x ∈ component) ∧
    (∀ x, x ∈ component → x ∉ V0) ∧
    (∀ u, u ∈ component → component_of G u component) ∧
    s ∈ component.
Proof. without_host.
  intros Hclosed HsU Hs Hfuel.
  assert (Hinit : dfs_inv G V0 s ({[s]} ∪ V0) [s] []).
  { split; simpl.
    - apply NoDup_singleton.
    - set_solver.
    - intros x [?%elem_of_nil| ->%list_elem_of_singleton]; [done|].
      split; [done|apply rtc_refl].
    - by intros x y ?%elem_of_nil.
    - right. by left. }
  destruct (dfs_loop_fuel fuel V0 ({[s]} ∪ V0) s [s] [] Hinit) as [[visited comp] Hrun].
  { pose proof (unvisited_add_present U V0 s U_NoDup HsU Hs).
    pose proof (length_filter (λ n, n ∉ V0) U). unfold unvisited in *. simpl. lia. }
  exists visited, comp. unfold dfs. split; [done|].
  destruct (dfs_loop_inv _ _ _ _ _ _ _ Hinit Hrun) as [Hnd Hvis Hfresh Hcl Hstart].
  simpl in *. rewrite app_nil_r in Hnd.
  assert (Hin : s ∈ comp) by (destruct Hstart as [?|?%elem_of_nil]; done).
  assert (Hstep : ∀ x y, x ∈ comp → adjacent G x y → y ∈ comp).
  { intros x y Hx Hxy. destruct (Hvis y) as [Hy _].
    destruct (Hy (Hcl x y Hx Hxy)) as [HV|[?|?%elem_of_nil]]; [|done..].
    destruct (Hfresh x (or_introl Hx)) as [HxV _]. destruct HxV.
    apply (Hclosed y x HV). by apply G_symmetric. }
  assert (Hreach : ∀ x y, connected G x y → x ∈ comp → y ∈ comp).
  { induction 1; eauto. }
  split_and!; [| |..|done].
  - intros x. rewrite Hvis. set_solver.
  - intros x Hx. apply Hfresh. auto.
  - intros u Hu. split; [done|]. intros v. split.
    + intros Hv. eapply rtc_trans.
      * apply connected_symmetric, Hfresh. left. exact Hu.
      * apply Hfresh. by left.
    + intros Huv. by apply (Hreach u v).
Qed.

Lemma connected_in_U (u v : string) : connected G u v → u ∈ U → v ∈ U.
Proof. induction 1; eauto. Qed.

(** The [for] loop over the nodes keeps the invariant and never runs out
    of fuel. *)
Lemma find_clusters_inv (fuel : nat) (minSize : Z) (todo : list string)
    (visited : gset string) (found : list DetailedCluster) (id : Z) :
  clusters_inv G U minSize visited found →
  (∀ x, x ∈ todo → x ∈ U) → (length U ≤ fuel)%nat →
  ∃ cl visited',
    find_clusters fuel G minSize todo visited found id = Some cl ∧
    clusters_inv G U minSize visited' cl ∧
    (∀ x, x ∈ visited ∨ x ∈ todo → x ∈ visited').
Proof. without_host.
  revert visited found id.
  induction todo as [|node todo IH]; intros visited found id Hinv Htodo Hfuel.
  { exists found, visited. split_and!; [done..|]. set_solver. }
  assert (Htodo' : ∀ x, x ∈ todo → x ∈ U) by (intros; apply Htodo; by right).
  cbn [find_clusters]. destruct (decide (node ∈ visited)) as [Hv|Hv].
  { destruct (IH visited found id Hinv Htodo' Hfuel) as (cl & v' & Hrun & Hinv' & Hsub).
    exists cl, v'. split_and!; [done..|]. set_solver. }
  destruct Hinv as [Hnodes Hclosed Hne Hmade Hdisj Hvis Hcomp Hsize Hcomplete].
  destruct (dfs_component fuel visited node Hclosed (Htodo node ltac:(by left)) Hv Hfuel)
    as (visited1 & comp & -> & Hvis1 & Hfresh & Hcomp1 & Hnode).
  assert (Hnodes1 : ∀ x, x ∈ visited1 → x ∈ U).
  { intros x [?|Hx]%Hvis1; [auto|].
    eapply connected_in_U; [apply (Hcomp1 node Hnode), Hx|]. apply Htodo. by left. }
  assert (Hclosed1 : ∀ x y, x ∈ visited1 → adjacent G x y → y ∈ visited1).
  { intros x y [Hx|Hx]%Hvis1 Hxy; apply Hvis1; [left; eauto|right].
    eapply component_of_closed; eauto. }
  destruct (Z.ltb_spec (Z.of_nat (length comp)) minSize) as [Hsmall|Hbig].
  - destruct (IH visited1 found id) as (cl & v' & Hrun & Hinv' & Hsub); [|done..|].
    { split; try done.
      - intros c x Hc Hx. apply Hvis1. left. eauto.
      - intros u comp' [Hu|Hu]%Hvis1 Hcomp' Hlen; [eauto|].
        pose proof (component_of_length G u comp comp' (Hcomp1 u Hu) Hcomp'). lia. }
    exists cl, v'. split_and!; [done..|].
    intros x [Hx|[->|Hx]%elem_of_cons]; apply Hsub; [|left; apply Hvis1; auto|auto].
    left. apply Hvis1. auto.
  - destruct (IH visited1 (found ++ [make_cluster G id comp]) (id + 1))
      as (cl & v' & Hrun & Hinv' & Hsub); [|done..|].
    { split; try done.
      - intros c [Hc| ->%list_elem_of_singleton]%elem_of_app; [eauto|].
        exists node. by rewrite members_make_cluster.
      - intros c [Hc| ->%list_elem_of_singleton]%elem_of_app; [eauto|].
        by exists id.
      - rewrite flat_map_app. simpl. rewrite app_nil_r. apply NoDup_app.
        split_and!; [done| |apply (Hcomp1 node Hnode)].
        intros x (c & Hc & Hx)%list_elem_of_In%in_flat_map Hx'.
        apply (Hfresh x Hx'), (Hvis c x); by apply list_elem_of_In.
      - intros c x [Hc| ->%list_elem_of_singleton]%elem_of_app Hx; apply Hvis1.
        + left. eauto.
        + right. done.
      - intros c u [Hc| ->%list_elem_of_singleton]%elem_of_app Hu; [eauto|].
        rewrite members_make_cluster in *. auto.
      - intros c [Hc| ->%list_elem_of_singleton]%elem_of_app; [eauto|].
        by rewrite members_make_cluster.
      - intros u comp' [Hu|Hu]%Hvis1 Hcomp' Hlen.
        + destruct (Hcomplete u comp' Hu Hcomp' Hlen) as (c & Hc & Hin).
          exists c. split; [|done]. apply elem_of_app. by left.
        + exists (make_cluster G id comp). split; [|by rewrite members_make_cluster].
          apply elem_of_app. right. by apply list_elem_of_singleton. }
    exists cl, v'. split_and!; [done..|].
    intros x [Hx|[->|Hx]%elem_of_cons]; apply Hsub; [|left; apply Hvis1; auto|auto].
    left. apply Hvis1. auto.
Qed.

Lemma detect_clusters_spec (minSize : Z) :
  ∃ cl visited,
    detect_clusters G minSize U = Some cl ∧
    clusters_inv G U minSize visited cl ∧ (∀ x, x ∈ U → x ∈ visited).
Proof.
  destruct (find_clusters_inv (S (length U)) minSize U ∅ [] 0)
    as (cl & v & Hrun & Hinv & Hsub); [|done|lia|].
  - split; try set_solver. apply NoDup_nil_2.
  - exists cl, v. split_and!; [done..|]. auto.
Qed.

End Traversal.

Lemma flat_map_NoDup_unique {A B : Type} (f : A → list B) (l : list A) (a b : A) (x : B) :
  NoDup (flat_map f l) → a ∈ l → b ∈ l → x ∈ f a → x ∈ f b → a = b.
Proof.
  induction l as [|c l IH]; simpl; [by intros _ ?%elem_of_nil|].
  intros (Hc & Hdisj & Hl)%NoDup_app [->|Ha]%elem_of_cons [->|Hb]%elem_of_cons Hxa Hxb;
    [done| | |by apply IH].
  - destruct (Hdisj x Hxa). apply list_elem_of_In, in_flat_map. exists b.
    by rewrite <- !list_elem_of_In.
  - destruct (Hdisj x Hxb). apply list_elem_of_In, in_flat_map. exists a.
    by rewrite <- !list_elem_of_In.
Qed.

(** The cluster detector on the graph of a log: it never runs out of fuel,
    and what it returns satisfies the invariant with every node visited. *)
Lemma graph_clusters (settings : AnalysisSettings) (logs : list LogEntry) :
  ∃ cl visited,
    detect_clusters (graph_of settings logs) (minClusterSize settings)
      (collect_nodes logs) = Some cl ∧
    clusters_inv (graph_of settings logs) (collect_nodes logs) (minClusterSize settings)
      visited cl ∧
    (∀ x, x ∈ collect_nodes logs → x ∈ visited).
Proof.
  apply detect_clusters_spec.
  - intros u v. apply graph_of_symmetric.
  - intros u v H. by apply graph_of_neighbors_nodes in H as [_ ?].
  - apply collect_nodes_NoDup.
Qed.

(** C7: the clusters of a completed run are exactly the connected
    components, over the undirected adjacency of the positive actions, that
    have at least [minClusterSize] nodes.  Two nodes are adjacent when a
    positive event joins them; every cluster is a component of that size; a
    node lies in a cluster if and only if its component is that large; no
    node lies in two clusters, and no component is listed twice. *)
Theorem clusters_are_large_components (logs : list LogEntry)
    (settings : AnalysisSettings) (res : AnalysisResult) :
  (analyzeLogs logs settings).2 = Normal res →
  let G := graph_of settings logs in
  (∀ u v, adjacent G u v ↔
     u ≠ "" ∧ v ≠ "" ∧
     ∃ l, l ∈ logs ∧ action l ∈ positiveActions settings ∧
          ((actor l = u ∧ target l = v) ∨ (actor l = v ∧ target l = u))) ∧
  (∀ c, c ∈ clusters res →
     minClusterSize settings ≤ Z.of_nat (length (members c)) ∧
     (∃ u, u ∈ collect_nodes logs ∧ component_of G u (members c)) ∧
     (∀ u, u ∈ members c → component_of G u (members c))) ∧
  (∀ u comp, u ∈ collect_nodes logs → component_of G u comp →
     (minClusterSize settings ≤ Z.of_nat (length comp) ↔
      ∃ c, c ∈ clusters res ∧ u ∈ members c)) ∧
  NoDup (flat_map members (clusters res)) ∧
  (∀ c c' u, c ∈ clusters res → c' ∈ clusters res →
     u ∈ members c → u ∈ members c' → c = c').
Proof.
  intros Hres G. split; [intros u v; apply adjacent_iff_positive_event|].
  destruct (analyzeLogs_Normal _ _ _ Hres) as [[-> ->]|[_ (cl & tb & Hcl & _ & Hc & _)]].
  { simpl. split_and!.
    - by intros c ?%elem_of_nil.
    - by intros u comp ?%elem_of_nil.
    - apply NoDup_nil_2.
    - by intros c c' u ?%elem_of_nil. }
  destruct (graph_clusters settings logs) as (cl' & visited & Hcl' & Hinv & Hall).
  unfold graph_of in Hcl'. rewrite Hcl in Hcl'. injection Hcl' as <-. rewrite Hc.
  destruct Hinv as [Hnodes Hclosed Hne Hmade Hdisj Hvis Hcomp Hsize Hcomplete].
  assert (Hsym : ∀ u v, adjacent G u v → adjacent G v u)
    by (intros u v; apply graph_of_symmetric).
  split_and!; [| |done|].
  - intros c Hin. split_and!; [by apply Hsize| |intros u Hu; by apply Hcomp].
    destruct (Hne c Hin) as [u Hu]. exists u. split; [|by apply Hcomp]. eauto.
  - intros u comp Hu Hcompu. split; [by apply Hcomplete; auto|].
    intros (c & Hin & Huc).
    rewrite (component_of_length G u comp (members c) Hcompu (Hcomp c u Hin Huc)).
    by apply Hsize.
  - intros c c' u Hin Hin' Hu Hu'. by eapply (flat_map_NoDup_unique members cl c c' u).
Qed.

(** ** Completion of a run *)

Lemma add_to_bin_parsed (settings : AnalysisSettings) (l : LogEntry) (t : Z)
    (tb : list (Z * list (string * list (string * Bin.info)))) :
  Date_parse (timestamp l) = Some t →
  valid_time (t / binSizeMs settings * binSizeMs settings) →
  add_to_bin settings tb l =
  Normal
    (Js.update (t / binSizeMs settings * binSizeMs settings) []
       (Js.update (action l) []
          (Js.update (target l) {| Bin.count := 0; Bin.actors := [] |} (bump l)))
       tb).
Proof.
  intros E Hv. unfold add_to_bin. rewrite E. cbn [bin_of].
  assert (Hk : Date_toISOString (Some (t / binSizeMs settings * binSizeMs settings))
               = Normal (t / binSizeMs settings * binSizeMs settings))
    by (by apply Date_toISOString_Normal).
  by rewrite Hk.
Qed.

Lemma add_to_bin_unparsed (settings : AnalysisSettings) (l : LogEntry)
    (tb : list (Z * list (string * list (string * Bin.info)))) :
  Date_parse (timestamp l) = None →
  add_to_bin settings tb l = Throw (RangeError "Invalid time value").
Proof. intros E. unfold add_to_bin. by rewrite E. Qed.

(** A round of the bucketing loop adds the event to its cell, or throws
    because the start of the bin is no valid Date. *)
Lemma add_to_bin_outcome (settings : AnalysisSettings) (l : LogEntry)
    (tb : list (Z * list (string * list (string * Bin.info)))) :
  (∃ t, Date_parse (timestamp l) = Some t ∧
        valid_time (t / binSizeMs settings * binSizeMs settings) ∧
        add_to_bin settings tb l =
        Normal
          (Js.update (t / binSizeMs settings * binSizeMs settings) []
             (Js.update (action l) []
                (Js.update (target l) {| Bin.count := 0; Bin.actors := [] |} (bump l)))
             tb)) ∨
  add_to_bin settings tb l = Throw (RangeError "Invalid time value").
Proof.
  destruct (Date_parse (timestamp l)) as [t|] eqn:E.
  - unfold add_to_bin. rewrite E. cbn [bin_of].
    destruct (Date_toISOString (Some (t / binSizeMs settings * binSizeMs settings)))
      as [k| |] eqn:Hk.
    + apply Date_toISOString_Normal in Hk as [[= <-] Hv]. left. by exists t.
    + destruct (Date_toISOString_outcome
                  (Some (t / binSizeMs settings * binSizeMs settings))) as [[k Hk']|Hk'];
        [congruence|]. right. congruence.
    + destruct (Date_toISOString_outcome
                  (Some (t / binSizeMs settings * binSizeMs settings))) as [[k Hk']|Hk'];
        congruence.
  - right. by apply add_to_bin_unparsed.
Qed.

Lemma collect_timeBins_Normal (settings : AnalysisSettings) (logs : list LogEntry)
    (tb : list (Z * list (string * list (string * Bin.info)))) :
  (∀ l, l ∈ logs → ∃ b, bucket settings l = Some b ∧ valid_time b) →
  ∃ tb', forEach_throwing (add_to_bin settings) logs tb = Normal tb'.
Proof.
  revert tb. induction logs as [|l logs IH]; intros tb Hall; [by eexists|].
  destruct (Hall l) as (b & Hb & Hv); [by left|].
  unfold bucket, bin_of in Hb. destruct (Date_parse (timestamp l)) as [t|] eqn:Ht; [|done].
  injection Hb as <-.
  cbn [forEach_throwing]. rewrite (add_to_bin_parsed _ _ _ _ Ht Hv).
  apply IH. intros l' Hl'. apply Hall. by right.
Qed.

Lemma collect_timeBins_Throw (settings : AnalysisSettings) (logs : list LogEntry)
    (tb : list (Z * list (string * list (string * Bin.info)))) (l : LogEntry) :
  l ∈ logs → Date_parse (timestamp l) = None →
  forEach_throwing (add_to_bin settings) logs tb = Throw (RangeError "Invalid time value").
Proof.
  revert tb. induction logs as [|l' logs IH]; intros tb Hin Hl; [by apply elem_of_nil in Hin|].
  cbn [forEach_throwing].
  destruct (add_to_bin_outcome settings l' tb) as [(t & E & _ & ->)| ->]; [|done].
  apply IH; [|done]. apply elem_of_cons in Hin as [->|?]; [congruence|done].
Qed.

Lemma collect_timeBins_outcome (settings : AnalysisSettings) (logs : list LogEntry)
    (tb : list (Z * list (string * list (string * Bin.info)))) :
  (∃ tb', forEach_throwing (add_to_bin settings) logs tb = Normal tb') ∨
  forEach_throwing (add_to_bin settings) logs tb = Throw (RangeError "Invalid time value").
Proof.
  revert tb. induction logs as [|l logs IH]; intros tb; [left; by eexists|].
  cbn [forEach_throwing].
  destruct (add_to_bin_outcome settings l tb) as [(t & _ & _ & ->)| ->]; [apply IH|by right].
Qed.

Lemma collect_timeBins_not_Diverge (settings : AnalysisSettings) (logs : list LogEntry)
    (tb : list (Z * list (string * list (string * Bin.info)))) :
  forEach_throwing (add_to_bin settings) logs tb ≠ Diverge.
Proof.
  destruct (collect_timeBins_outcome settings logs tb) as [[tb' ->]| ->]; done.
Qed.

(** Every call of the engine returns or throws. *)
Lemma analyzeLogs_completes (logs : list LogEntry) (settings : AnalysisSettings) :
  (analyzeLogs logs settings).2 ≠ Diverge.
Proof.
  unfold analyzeLogs. case_bool_decide; [done|].
  destruct (graph_clusters settings logs) as (cl & visited & Hcl & _).
  unfold graph_of in Hcl. rewrite Hcl.
  destruct (collect_timeBins settings logs) as [tb|e|] eqn:E; try done.
  - by destruct (detect_waves_outcome settings tb) as [[ws ->]| ->].
  - by apply collect_timeBins_not_Diverge in E.
Qed.

(** C1, as the code behaves: a log that contains an event with an
    unparsable timestamp makes the engine throw a RangeError when the event
    is bucketed; no result is returned. *)
Theorem unparsable_timestamp_throws (logs : list LogEntry)
    (settings : AnalysisSettings) (l : LogEntry) :
  l ∈ logs → Date_parse (timestamp l) = None →
  (analyzeLogs logs settings).2 = Throw (RangeError "Invalid time value").
Proof.
  intros Hin Hl. unfold analyzeLogs. case_bool_decide as Hlen.
  { destruct logs; [by apply elem_of_nil in Hin|done]. }
  destruct (graph_clusters settings logs) as (cl & visited & Hcl & _).
  unfold graph_of in Hcl. rewrite Hcl. unfold collect_timeBins.
  by rewrite (collect_timeBins_Throw settings logs [] l Hin Hl).
Qed.

(** ** Waves *)

Lemma wave_cells_elem {A : Type} (settings : AnalysisSettings)
    (tb : list (Z * list (string * list (string * Bin.info))))
    (f : Z → string → string → Bin.info → A) (x : A) :
  x ∈ wave_cells settings tb f ↔
  ∃ time actions action targets target info,
    (time, actions) ∈ tb ∧ (action, targets) ∈ actions ∧ (target, info) ∈ targets ∧
    is_wave settings info = true ∧ x = f time action target info.
Proof.
  unfold wave_cells. rewrite list_elem_of_In, in_flat_map. split.
  - intros ([time actions] & Htb & H). apply in_flat_map in H as ([action targets] & Ha & H).
    apply in_flat_map in H as ([target info] & Ht & H).
    rewrite <- list_elem_of_In in Htb.
    rewrite <- list_elem_of_In, elem_of_Object_entries in Ha.
    rewrite <- list_elem_of_In, elem_of_Object_entries in Ht.
    destruct (is_wave settings info) eqn:E; [|done].
    destruct H as [<-|[]]. by exists time, actions, action, targets, target, info.
  - intros (time & actions & action & targets & target & info & Htb & Ha & Ht & E & ->).
    exists (time, actions). split; [by apply list_elem_of_In|].
    apply in_flat_map. exists (action, targets).
    split; [by apply list_elem_of_In, elem_of_Object_entries|].
    apply in_flat_map. exists (target, info).
    split; [by apply list_elem_of_In, elem_of_Object_entries|].
    rewrite E. by left.
Qed.

Lemma is_wave_monotone (settings : AnalysisSettings) (minCount minActors : Z)
    (info : Bin.info) :
  waveMinCount settings ≤ minCount → waveMinActors settings ≤ minActors →
  is_wave (with_thresholds settings minCount minActors) info = true →
  is_wave settings info = true.
Proof.
  unfold is_wave. simpl. rewrite !andb_true_iff, !Z.leb_le. lia.
Qed.

(** The part of C8 that the code keeps: when the run under the lower
    thresholds returns, every wave emitted under the higher thresholds is
    among its waves, for the same window, action, target and actors.  The
    record is the very same when [waveMinCount] is left as it is; otherwise
    the two differ in the intensity ratio, which is taken relative to
    [waveMinCount]. *)
Lemma waves_antitone_when_completed (logs : list LogEntry)
    (settings : AnalysisSettings) (minCount minActors : Z) (res : AnalysisResult)
    (w : WaveResult) :
  waveMinCount settings ≤ minCount → waveMinActors settings ≤ minActors →
  (analyzeLogs logs settings).2 = Normal res →
  w ∈ emitted_waves logs (with_thresholds settings minCount minActors) →
  ∃ w', w' ∈ waves res ∧
    Wave.windowStart w' = Wave.windowStart w ∧ Wave.windowEnd w' = Wave.windowEnd w ∧
    Wave.action w' = Wave.action w ∧ Wave.target w' = Wave.target w ∧
    Wave.actors w' = Wave.actors w ∧
    (minCount = waveMinCount settings → w' = w).
Proof.
  intros Hc Ha Hres. unfold emitted_waves.
  destruct (analyzeLogs logs (with_thresholds settings minCount minActors)).2
    as [res'| |] eqn:Hres'; try by intros ?%elem_of_nil.
  destruct (analyzeLogs_Normal _ _ _ Hres')
    as [[_ ->]|[Hne (cl' & tb' & _ & Htb' & _ & -> & _)]]; [by intros ?%elem_of_nil|].
  destruct (analyzeLogs_Normal _ _ _ Hres) as [[-> _]|[_ (cl & tb & _ & Htb & _ & -> & _)]];
    [done|].
  change (collect_timeBins (with_thresholds settings minCount minActors) logs)
    with (collect_timeBins settings logs) in Htb'.
  rewrite Htb in Htb'. injection Htb' as <-.
  unfold waves_of. rewrite wave_cells_elem.
  intros (time & actions & action & targets & target & info & Htb' & Hact & Ht & E & ->).
  exists (make_wave settings time action target info). split.
  - apply wave_cells_elem. exists time, actions, action, targets, target, info.
    split_and!; try done. by eapply is_wave_monotone.
  - split_and!; try done. by intros ->.
Qed.

Lemma forEach_throwing_snoc {A S : Type} (f : S → A → completion S) (l : list A)
    (x : A) (s : S) :
  forEach_throwing f (l ++ [x]) s =
  match forEach_throwing f l s with
  | Normal s' => f s' x
  | Throw e => Throw e
  | Diverge => Diverge
  end.
Proof.
  revert s. induction l as [|y l IH]; intros s; simpl.
  - by destruct (f s x).
  - destruct (f s y); auto.
Qed.

Lemma Forall_update {K V : Type} `{EqDecision K} (P : V → Prop) (k : K) (init : V)
    (f : V → V) (o : list (K * V)) :
  Forall (λ kv, P kv.2) o → P (f init) → (∀ v, P v → P (f v)) →
  Forall (λ kv, P kv.2) (Js.update k init f o).
Proof.
  intros Ho Hinit Hf. induction o as [|[k' v] o IH]; simpl.
  - by repeat constructor.
  - apply Forall_cons in Ho as [Hv Ho]. case_decide; constructor; simpl in *; auto.
Qed.

Lemma cell_update (tb : list (Z * list (string * list (string * Bin.info))))
    (b b' : Z) (a a' t t' : string) (init : Bin.info) (f : Bin.info → Bin.info) :
  cell (Js.update b [] (Js.update a [] (Js.update t init f)) tb) b' a' t' =
  if decide (b = b' ∧ a = a' ∧ t = t')
  then Some (f (default init (cell tb b a t)))
  else cell tb b' a' t'.
Proof.
  unfold cell. rewrite get_update.
  destruct (decide (b = b')) as [<-|Hb]; simpl.
  - rewrite get_update. destruct (decide (a = a')) as [<-|Ha]; simpl.
    + rewrite get_update. destruct (decide (t = t')) as [<-|Ht].
      * by rewrite decide_True.
      * rewrite decide_False; [done|]. naive_solver.
    + rewrite decide_False; [done|]. naive_solver.
  - rewrite decide_False; [done|]. naive_solver.
Qed.

Lemma wf_timeBins_update (tb : list (Z * list (string * list (string * Bin.info))))
    (b : Z) (a t : string) (init : Bin.info) (f : Bin.info → Bin.info) :
  wf_timeBins tb →
  wf_timeBins (Js.update b [] (Js.update a [] (Js.update t init f)) tb).
Proof.
  intros [Hnd Hall]. split; [by apply NoDup_keys_update|].
  apply (Forall_update
           (λ acts, NoDup acts.*1 ∧ Forall (λ kv', NoDup kv'.2.*1) acts)); [done| |].
  - split; [apply NoDup_singleton|]. constructor; [|constructor]. apply NoDup_singleton.
  - intros acts [Hk Hin]. split; [by apply NoDup_keys_update|].
    apply (Forall_update (λ tgts : list (string * Bin.info), NoDup tgts.*1)); [done| |].
    + apply NoDup_singleton.
    + intros tgts ?. by apply NoDup_keys_update.
Qed.

Lemma cell_lookup (tb : list (Z * list (string * list (string * Bin.info))))
    (b : Z) (a t : string) (info : Bin.info) :
  wf_timeBins tb →
  cell tb b a t = Some info ↔
  ∃ actions targets,
    (b, actions) ∈ tb ∧ (a, targets) ∈ actions ∧ (t, info) ∈ targets.
Proof.
  intros [Hnd Hall]. unfold cell. split.
  - destruct (Js.get b tb) as [actions|] eqn:Eb; [|done]. simpl.
    destruct (Js.get a actions) as [targets|] eqn:Ea; [|done]. simpl.
    intros Et. exists actions, targets. split_and!; by apply get_elem_of.
  - intros (actions & targets & Hb & Ha & Ht).
    rewrite Forall_forall in Hall. destruct (Hall _ Hb) as [Hnd' Hall']. simpl in *.
    rewrite Forall_forall in Hall'. specialize (Hall' _ Ha). simpl in *.
    rewrite (elem_of_get _ _ _ Hnd Hb). simpl.
    rewrite (elem_of_get _ _ _ Hnd' Ha). simpl.
    by apply elem_of_get.
Qed.

Lemma group_snoc (settings : AnalysisSettings) (logs : list LogEntry) (l : LogEntry)
    (b : Z) (a t : string) :
  group settings (logs ++ [l]) b a t =
  group settings logs b a t ++
  (if decide (bucket settings l = Some b ∧ action l = a ∧ target l = t) then [l] else []).
Proof. unfold group. by rewrite filter_app. Qed.

Lemma group_info_snoc (g : list LogEntry) (l : LogEntry) :
  bump l (default {| Bin.count := 0; Bin.actors := [] |}
            (if decide (g = []) then None else Some (group_info g)))
  = group_info (g ++ [l]).
Proof.
  unfold bump, group_info, actors_in_order. rewrite fold_left_app, length_app. simpl.
  case_decide as Hg; simpl.
  - subst. done.
  - f_equal. lia.
Qed.

(** What [timeBins] holds once the log has been bucketed. *)
Lemma collect_timeBins_spec (settings : AnalysisSettings) (logs : list LogEntry)
    (tb : list (Z * list (string * list (string * Bin.info)))) :
  collect_timeBins settings logs = Normal tb →
  wf_timeBins tb ∧
  ∀ b a t, cell tb b a t =
           if decide (group settings logs b a t = []) then None
           else Some (group_info (group settings logs b a t)).
Proof.
  unfold collect_timeBins. revert tb.
  induction logs as [|l logs IH] using rev_ind; intros tb.
  - intros [= <-]. split; [|done]. split; [apply NoDup_nil_2|constructor].
  - rewrite forEach_throwing_snoc.
    destruct (forEach_throwing (add_to_bin settings) logs []) as [tb0| |]; try done.
    destruct (IH tb0 eq_refl) as [Hwf Hcell].
    destruct (add_to_bin_outcome settings l tb0) as [(ts & E & _ & ->)| ->]; [|done].
    intros [= <-].
    split; [by apply wf_timeBins_update|].
    intros b a t. rewrite cell_update, group_snoc.
    assert (Hb : bucket settings l = Some (ts / binSizeMs settings * binSizeMs settings)).
    { unfold bucket. by rewrite E. }
    destruct (decide (ts / binSizeMs settings * binSizeMs settings = b
                      ∧ action l = a ∧ target l = t)) as [(<- & <- & <-)|Hne].
    + rewrite (decide_True (P := bucket settings l = _ ∧ _ ∧ _)) by done.
      rewrite Hcell, group_info_snoc.
      rewrite decide_False; [done|]. by intros [_ ?]%app_eq_nil.
    + rewrite (decide_False (P := bucket settings l = _ ∧ _ ∧ _)), app_nil_r;
        [by apply Hcell|].
      rewrite Hb. intros ([= <-] & ? & ?). by apply Hne.
Qed.

Lemma actors_in_order_spec (g : list LogEntry) :
  NoDup (actors_in_order g) ∧ ∀ x, x ∈ actors_in_order g ↔ x ∈ actor <$> g.
Proof. without_host.
  unfold actors_in_order. induction g as [|l g IH] using rev_ind.
  - split; [apply NoDup_nil_2|done].
  - rewrite fold_left_app, fmap_app. simpl. destruct IH as [Hnd Hin].
    split; [by apply Set_add_NoDup|].
    intros x. rewrite Set_add_elem, elem_of_app, list_elem_of_singleton, Hin. tauto.
Qed.

Lemma actors_in_order_length (g : list LogEntry) :
  length (actors_in_order g) = distinct_actors g.
Proof.
  destruct (actors_in_order_spec g) as [Hnd Hin]. unfold distinct_actors.
  rewrite <- (size_list_to_set (C := gset string) (actors_in_order g) Hnd).
  f_equal. apply set_eq. intros x. by rewrite !elem_of_list_to_set, Hin.
Qed.

Lemma waves_of_elem (settings : AnalysisSettings)
    (tb : list (Z * list (string * list (string * Bin.info)))) (w : WaveResult) :
  wf_timeBins tb →
  w ∈ waves_of settings tb ↔
  ∃ b a t info, cell tb b a t = Some info ∧ is_wave settings info = true ∧
                w = make_wave settings b a t info.
Proof.
  intros Hwf. unfold waves_of. rewrite wave_cells_elem. split.
  - intros (b & actions & a & targets & t & info & Hb & Ha & Ht & E & ->).
    exists b, a, t, info. split_and!; [|done..]. apply cell_lookup; [done|].
    by exists actions, targets.
  - intros (b & a & t & info & Hcell & E & ->).
    apply cell_lookup in Hcell as (actions & targets & Hb & Ha & Ht); [|done].
    by exists b, actions, a, targets, t, info.
Qed.

Lemma is_wave_group (settings : AnalysisSettings) (g : list LogEntry) :
  is_wave settings (group_info g) = true ↔
  waveMinCount settings ≤ Z.of_nat (length g) ∧
  waveMinActors settings ≤ Z.of_nat (distinct_actors g).
Proof.
  unfold is_wave. simpl. by rewrite andb_true_iff, !Z.leb_le, actors_in_order_length.
Qed.

(** Every bin of [timeBins] is the bucket of an event. *)
Lemma wave_cells_buckets (settings : AnalysisSettings) (logs : list LogEntry)
    (tb : list (Z * list (string * list (string * Bin.info)))) (time : Z) :
  collect_timeBins settings logs = Normal tb →
  time ∈ wave_cells settings tb (λ time _ _ _, time) →
  ∃ b a t, time = b ∧ group settings logs b a t ≠ [] ∧
           is_wave settings (group_info (group settings logs b a t)) = true.
Proof.
  intros Htb Hin. destruct (collect_timeBins_spec settings logs tb Htb) as [Hwf Hcell].
  apply wave_cells_elem
    in Hin as (b & actions & a & targets & t & info & Hb & Ha & Ht & E & ->).
  assert (Hc : cell tb b a t = Some info).
  { apply cell_lookup; [done|]. by exists actions, targets. }
  rewrite Hcell in Hc. case_decide as Hg; [done|]. injection Hc as <-.
  by exists b, a, t.
Qed.

Lemma group_bucket (settings : AnalysisSettings) (logs : list LogEntry) (b : Z)
    (a t : string) :
  group settings logs b a t ≠ [] → ∃ l, l ∈ logs ∧ bucket settings l = Some b.
Proof. without_host.
  intros Hg. destruct (group settings logs b a t) as [|l g] eqn:E; [done|].
  assert (Hl : l ∈ group settings logs b a t) by (rewrite E; left).
  unfold group in Hl. apply list_elem_of_filter in Hl as [(Hb & _) Hl]. by exists l.
Qed.

(** The run returns when every timestamp parses and every window lies
    within the range of Date. *)
Lemma analyzeLogs_returns (logs : list LogEntry) (settings : AnalysisSettings) :
  (∀ l, l ∈ logs → is_Some (Date_parse (timestamp l))) →
  within_Date_range settings logs →
  ∃ res, (analyzeLogs logs settings).2 = Normal res.
Proof.
  intros Hall Hrange. unfold analyzeLogs. case_bool_decide; [by eexists|].
  destruct (graph_clusters settings logs) as (cl & visited & Hcl & _).
  unfold graph_of in Hcl. rewrite Hcl.
  destruct (collect_timeBins_Normal settings logs []) as [tb Htb].
  { intros l Hl. destruct (Hall l Hl) as [t Ht].
    assert (Hb : bucket settings l = Some (t / binSizeMs settings * binSizeMs settings))
      by (unfold bucket; by rewrite Ht).
    eexists. split; [done|]. by apply (Hrange l _ Hl Hb). }
  fold (collect_timeBins settings logs) in Htb. rewrite Htb.
  assert (Hws : detect_waves settings tb = Normal (waves_of settings tb)).
  { apply detect_waves_Normal. split; [done|]. apply Forall_forall. intros time Hin.
    apply (wave_cells_buckets settings logs tb time Htb) in Hin as (b & a & t & -> & Hg & _).
    apply group_bucket in Hg as (l & Hl & Hb). by apply (Hrange l b Hl Hb). }
  rewrite Hws. by eexists.
Qed.

(** The part of C5 that the code keeps: for a log with plain keys whose
    timestamps all parse and whose windows all lie within the range of
    Date, the run returns, and for every (bucket, action, target) group of
    the log a wave is emitted if and only if the group has at least
    [waveMinCount] events and at least [waveMinActors] distinct actors;
    waves are emitted for such groups only. *)
Lemma waves_iff_thresholds (logs : list LogEntry) (settings : AnalysisSettings) :
  plain_keys logs →
  (∀ l, l ∈ logs → is_Some (Date_parse (timestamp l))) →
  within_Date_range settings logs →
  ∃ res, (analyzeLogs logs settings).2 = Normal res ∧
    (∀ b a t, group settings logs b a t ≠ [] →
       (∃ w, w ∈ waves res ∧ Wave.windowStart w = b ∧ Wave.action w = a ∧
             Wave.target w = t) ↔
       waveMinCount settings ≤ Z.of_nat (length (group settings logs b a t)) ∧
       waveMinActors settings ≤ Z.of_nat (distinct_actors (group settings logs b a t))) ∧
    (∀ w, w ∈ waves res →
       group settings logs (Wave.windowStart w) (Wave.action w) (Wave.target w) ≠ []).
Proof.
  intros _ Hall Hrange.
  destruct (analyzeLogs_returns logs settings Hall Hrange) as [res Hres].
  exists res. split; [done|].
  destruct (analyzeLogs_Normal _ _ _ Hres) as [[-> ->]|[_ (cl & tb & _ & Htb & _ & -> & _)]].
  { split; [by intros b a t []|by intros w ?%elem_of_nil]. }
  destruct (collect_timeBins_spec settings logs tb Htb) as [Hwf Hcell]. split.
  - intros b a t Hg. split.
    + intros (w & (b' & a' & t' & info & Hc & E & ->)%waves_of_elem & <- & <- & <-);
        [|done].
      simpl in *. rewrite Hcell, decide_False in Hc by done. injection Hc as <-.
      by apply is_wave_group.
    + intros Hth%is_wave_group.
      exists (make_wave settings b a t (group_info (group settings logs b a t))).
      split; [|done]. apply waves_of_elem; [done|].
      exists b, a, t, (group_info (group settings logs b a t)).
      split_and!; [|done..]. by rewrite Hcell, decide_False.
  - intros w (b & a & t & info & Hc & E & ->)%waves_of_elem; [|done]. simpl.
    rewrite Hcell in Hc. by case_decide.
Qed.


(** ** Actor statistics *)

Lemma fold_assign {V : Type} (f : string → V) (nodes : list string)
    (o : list (string * V)) :
  fold_left (λ o node, Js.assign node (f node) o) nodes o
  = fold_left (λ o node, Js.set node (f node) o) (own_nodes nodes) o.
Proof. without_host.
  unfold own_nodes. revert o. induction nodes as [|n nodes IH]; intros o; [done|].
  cbn [fold_left]. rewrite filter_cons, IH. unfold Js.assign.
  destruct (decide (n = "__proto__")) as [->|Hn].
  - by rewrite decide_False by (by intros []).
  - by rewrite decide_True by done.
Qed.

Lemma init_actorStats_get (G : gmap string (list string))
    (po pi : gmap string (gset string)) (nodes : list string)
    (o : list (string * ActorStats)) (k : string) :
  Js.get k (fold_left (λ o node, Js.set node (initial_stats G po pi node) o) nodes o) =
  if decide (k ∈ nodes) then Some (initial_stats G po pi k) else Js.get k o.
Proof.
  revert o. induction nodes as [|n nodes IH]; intros o; [done|].
  cbn [fold_left]. rewrite IH, get_set.
  destruct (decide (k ∈ nodes)) as [Hin|Hin].
  - rewrite decide_True; [done|by right].
  - destruct (decide (n = k)) as [->|Hne].
    + rewrite decide_True; [done|by left].
    + rewrite decide_False; [done|]. rewrite not_elem_of_cons. split; [congruence|done].
Qed.

Lemma init_actorStats_keys (G : gmap string (list string))
    (po pi : gmap string (gset string)) (nodes : list string)
    (o : list (string * ActorStats)) :
  NoDup o.*1 →
  NoDup (fold_left (λ o node, Js.set node (initial_stats G po pi node) o) nodes o).*1.
Proof.
  revert o. induction nodes as [|n nodes IH]; intros o Ho; [done|].
  cbn [fold_left]. by apply IH, NoDup_keys_set.
Qed.

(** What [actorStats] holds after the first pass. *)
Lemma init_actorStats_spec (G : gmap string (list string))
    (po pi : gmap string (gset string)) (nodes : list string) :
  NoDup (init_actorStats G po pi nodes).*1 ∧
  ∀ k, Js.get k (init_actorStats G po pi nodes) =
       if decide (k ∈ own_nodes nodes) then Some (initial_stats G po pi k) else None.
Proof.
  unfold init_actorStats. rewrite fold_assign. split.
  - apply init_actorStats_keys, NoDup_nil_2.
  - intros k. by rewrite init_actorStats_get.
Qed.

Lemma own_nodes_elem (nodes : list string) (k : string) :
  k ∈ own_nodes nodes ↔ k ≠ "__proto__" ∧ k ∈ nodes.
Proof. without_host. unfold own_nodes. by rewrite list_elem_of_filter. Qed.

Lemma count_actions_keys (settings : AnalysisSettings) (logs : list LogEntry)
    (o : list (string * ActorStats)) :
  (count_actions settings logs o).*1 = o.*1.
Proof.
  unfold count_actions. revert o. induction logs as [|l logs IH]; intros o; [done|].
  cbn [fold_left]. by rewrite IH, keys_modify.
Qed.

Lemma count_actions_get (settings : AnalysisSettings) (logs : list LogEntry)
    (o : list (string * ActorStats)) (k : string) (s : ActorStats) :
  Js.get k o = Some s →
  ∃ s', Js.get k (count_actions settings logs o) = Some s' ∧
    same_identity s s' ∧
    Stats.totalActions s' = Stats.totalActions s + Z.of_nat (actions_by logs k) ∧
    Stats.clusterSize s' = Stats.clusterSize s.
Proof.
  unfold count_actions, actions_by. revert o s.
  induction logs as [|l logs IH]; intros o s Hget.
  - exists s. simpl. split_and!; [done..|lia|done].
  - cbn [fold_left]. rewrite filter_cons.
    destruct (decide (actor l = k)) as [Hk|Hk].
    + destruct (IH (Js.modify (actor l) (count_action settings l) o)
                  (count_action settings l s)) as (s' & Hs' & Hid & Ht & Hc).
      { rewrite get_modify, decide_True, Hk, Hget by done. done. }
      exists s'. split_and!; [done..| |done]. rewrite Ht. simpl. lia.
    + destruct (IH (Js.modify (actor l) (count_action settings l) o) s)
        as (s' & Hs' & Hid & Ht & Hc).
      { by rewrite get_modify, decide_False. }
      by exists s'.
Qed.

Lemma assign_members_keys (n : Z) (ms : list string) (o : list (string * ActorStats)) :
  (fold_left (λ o member, Js.modify member (set_clusterSize n) o) ms o).*1 = o.*1.
Proof.
  revert o. induction ms as [|m ms IH]; intros o; [done|].
  cbn [fold_left]. by rewrite IH, keys_modify.
Qed.

Lemma assign_members_get (n : Z) (ms : list string) (o : list (string * ActorStats))
    (k : string) (s : ActorStats) :
  Js.get k o = Some s →
  ∃ s', Js.get k (fold_left (λ o member, Js.modify member (set_clusterSize n) o) ms o)
        = Some s' ∧
    same_identity s s' ∧
    Stats.totalActions s' = Stats.totalActions s ∧
    Stats.clusterSize s' = if decide (k ∈ ms) then n else Stats.clusterSize s.
Proof. without_host.
  revert o s. induction ms as [|m ms IH]; intros o s Hget.
  - by exists s.
  - cbn [fold_left]. destruct (decide (m = k)) as [->|Hk].
    + destruct (IH (Js.modify k (set_clusterSize n) o) (set_clusterSize n s))
        as (s' & Hs' & Hid & Ht & Hc).
      { by rewrite get_modify, decide_True, Hget. }
      exists s'. split_and!; [done..|]. rewrite Hc, (decide_True (P := k ∈ k :: ms)) by left.
      by case_decide.
    + destruct (IH (Js.modify m (set_clusterSize n) o) s) as (s' & Hs' & Hid & Ht & Hc).
      { by rewrite get_modify, decide_False. }
      exists s'. split_and!; [done..|]. rewrite Hc.
      destruct (decide (k ∈ ms)) as [Hin|Hin].
      * rewrite decide_True; [done|by right].
      * rewrite decide_False; [done|]. rewrite not_elem_of_cons. split; [congruence|done].
Qed.

Lemma assign_clusterSizes_keys (cls : list DetailedCluster)
    (o : list (string * ActorStats)) :
  (assign_clusterSizes cls o).*1 = o.*1.
Proof.
  unfold assign_clusterSizes. revert o. induction cls as [|c cls IH]; intros o; [done|].
  cbn [fold_left]. by rewrite IH, assign_members_keys.
Qed.

Lemma assign_clusterSizes_get (cls : list DetailedCluster)
    (o : list (string * ActorStats)) (k : string) (s : ActorStats) :
  Js.get k o = Some s →
  ∃ s', Js.get k (assign_clusterSizes cls o) = Some s' ∧
    same_identity s s' ∧
    Stats.totalActions s' = Stats.totalActions s ∧
    ((∀ c, c ∈ cls → k ∉ members c) → Stats.clusterSize s' = Stats.clusterSize s) ∧
    (NoDup (flat_map members cls) → ∀ c, c ∈ cls → k ∈ members c →
     Stats.clusterSize s' = Z.of_nat (length (members c))).
Proof. without_host.
  unfold assign_clusterSizes. revert o s.
  induction cls as [|c cls IH]; intros o s Hget.
  - exists s. split_and!; [done..|]. by intros _ c ?%elem_of_nil.
  - cbn [fold_left].
    destruct (assign_members_get (Z.of_nat (length (members c))) (members c) o k s Hget)
      as (s1 & Hs1 & [Ha1 Hn1] & Ht1 & Hc1).
    destruct (IH _ s1 Hs1) as (s' & Hs' & [Ha Hn] & Ht & Hout & Hin).
    exists s'. split_and!; [done|split; congruence|congruence| |].
    + intros Hno. rewrite Hout, Hc1.
      * rewrite decide_False; [done|]. apply Hno. by left.
      * intros c' Hc'. apply Hno. by right.
    + simpl. intros (Hc & Hdisj & Hrest)%NoDup_app c' [->|Hc']%elem_of_cons Hk.
      * rewrite Hout, Hc1, decide_True; [done..|].
        intros c' Hc' Hk'. apply (Hdisj k Hk), list_elem_of_In, in_flat_map.
        exists c'. by rewrite <- !list_elem_of_In.
      * by apply Hin.
Qed.

Lemma assign_reciprocity_keys (po : gmap string (gset string)) (nodes : list string)
    (o : list (string * ActorStats)) :
  (assign_reciprocity po nodes o).*1 = o.*1.
Proof.
  unfold assign_reciprocity. revert o. induction nodes as [|n nodes IH]; intros o; [done|].
  cbn [fold_left]. by rewrite IH, keys_modify.
Qed.

Lemma assign_reciprocity_get (po : gmap string (gset string)) (nodes : list string)
    (o : list (string * ActorStats)) (k : string) (s : ActorStats) :
  Js.get k o = Some s →
  ∃ s', Js.get k (assign_reciprocity po nodes o) = Some s' ∧
    same_identity s s' ∧
    Stats.totalActions s' = Stats.totalActions s ∧
    Stats.clusterSize s' = Stats.clusterSize s.
Proof.
  unfold assign_reciprocity. revert o s.
  induction nodes as [|n nodes IH]; intros o s Hget.
  - by exists s.
  - cbn [fold_left]. destruct (decide (n = k)) as [->|Hk].
    + destruct (IH (Js.modify k (set_mutualPositive (mutual_of po k)) o)
                  (set_mutualPositive (mutual_of po k) s)) as (s' & Hs' & Hid & Ht & Hc).
      { by rewrite get_modify, decide_True, Hget. }
      by exists s'.
    + apply IH. by rewrite get_modify, decide_False.
Qed.

Lemma assign_bursts_keys (w : gmap string (gset (Z * string)))
    (o : list (string * ActorStats)) :
  (assign_bursts w o).*1 = o.*1.
Proof.
  unfold assign_bursts. induction o as [|[k s] o IH]; [done|].
  cbn [map]. rewrite !fmap_cons. cbn [fst]. f_equal. exact IH.
Qed.

Lemma assign_bursts_get (w : gmap string (gset (Z * string)))
    (o : list (string * ActorStats)) (k : string) :
  Js.get k (assign_bursts w o) =
  set_burstActions (Z.of_nat (size (default ∅ (w !! k)))) <$> Js.get k o.
Proof.
  unfold assign_bursts. induction o as [|[k' s] o IH]; [done|].
  simpl. case_decide; [by subst|done].
Qed.

(** The statistics with which a scorecard is computed. *)
Lemma collect_actorStats_entry (settings : AnalysisSettings) (logs : list LogEntry)
    (G : gmap string (list string)) (cl : list DetailedCluster)
    (tb : list (Z * list (string * list (string * Bin.info))))
    (nodes : list string) (k : string) (s : ActorStats) :
  (k, s) ∈ collect_actorStats settings logs nodes G cl tb →
  Stats.actor s = k ∧
  Stats.connections s = Z.of_nat (length (neighbors G k)) ∧
  Stats.totalActions s = Z.of_nat (actions_by logs k) ∧
  ((∀ c, c ∈ cl → k ∉ members c) → Stats.clusterSize s = 0) ∧
  (NoDup (flat_map members cl) → ∀ c, c ∈ cl → k ∈ members c →
   Stats.clusterSize s = Z.of_nat (length (members c))).
Proof.
  unfold collect_actorStats. intros Hin.
  set (po := collect_positiveOut settings logs) in *.
  set (pi := collect_positiveIn settings logs) in *.
  set (o0 := init_actorStats G po pi nodes) in *.
  assert (Hnd : NoDup o0.*1) by apply init_actorStats_spec.
  assert (Hkeys : (assign_bursts (collect_waveBins settings tb)
                     (assign_reciprocity po nodes
                        (assign_clusterSizes cl (count_actions settings logs o0)))).*1
                  = o0.*1).
  { by rewrite assign_bursts_keys, assign_reciprocity_keys, assign_clusterSizes_keys,
      count_actions_keys. }
  assert (Hk : is_Some (Js.get k o0)).
  { apply not_eq_None_Some. rewrite get_None, <- Hkeys. intros Hno. apply Hno.
    apply list_elem_of_fmap. by exists (k, s). }
  destruct Hk as [s0 Hs0].
  assert (Hinit : s0 = initial_stats G po pi k).
  { unfold o0 in Hs0. rewrite (proj2 (init_actorStats_spec G po pi nodes)) in Hs0.
    case_decide; [congruence|done]. }
  destruct (count_actions_get settings logs o0 k s0 Hs0)
    as (s1 & Hs1 & [Ha1 Hn1] & Ht1 & Hc1).
  destruct (assign_clusterSizes_get cl _ k s1 Hs1)
    as (s2 & Hs2 & [Ha2 Hn2] & Ht2 & Hout & Hmem).
  destruct (assign_reciprocity_get po nodes _ k s2 Hs2)
    as (s3 & Hs3 & [Ha3 Hn3] & Ht3 & Hc3).
  apply elem_of_get in Hin; [|by rewrite Hkeys].
  rewrite assign_bursts_get, Hs3 in Hin. injection Hin as <-. simpl.
  rewrite Ha3, Ha2, Ha1, Hn3, Hn2, Hn1, Ht3, Ht2, Ht1, Hc3, Hinit. simpl.
  split_and!; [done|done|lia| |].
  - intros Hno. by rewrite Hout, Hc1, Hinit.
  - intros Hdisj c Hc Hkc. by apply Hmem.
Qed.

(** C6, as the code has it: a scorecard of an actor with no actions has
    lowDiversityScore 0 (and coordinationScore 0) by the guard on the action
    count.  clusterIsolationScore is guarded by the cluster size instead: it
    is 0 for every actor that belongs to no returned cluster, and 1 minus
    adjacency entries over cluster size for a member of a cluster, whatever
    its action count. *)
Theorem zero_guards (logs : list LogEntry) (settings : AnalysisSettings)
    (res : AnalysisResult) (sc : ActorScorecard) :
  (analyzeLogs logs settings).2 = Normal res →
  sc ∈ scorecards res →
  (actions_by logs (Card.actor sc) = 0%nat →
   Card.lowDiversityScore sc = 0%Q ∧ Card.coordinationScore sc = 0%Q) ∧
  ((∀ c, c ∈ clusters res → Card.actor sc ∉ members c) →
   Card.clusterIsolationScore sc = 0%Q) ∧
  (∀ c, c ∈ clusters res → Card.actor sc ∈ members c →
   Card.clusterIsolationScore sc =
   (1 - ratio (Z.of_nat (length (neighbors (graph_of settings logs) (Card.actor sc))))
          (Z.of_nat (length (members c))))%Q).
Proof.
  intros Hres Hsc.
  destruct (analyzeLogs_Normal _ _ _ Hres) as [[_ ->]|[_ (cl & tb & Hrun & _ & Hcl & _ & Hcards)]].
  { by apply elem_of_nil in Hsc. }
  destruct (graph_clusters settings logs) as (cl0 & visited & Hrun' & Hinv & _).
  unfold graph_of in Hrun'. rewrite Hrun in Hrun'. injection Hrun' as <-.
  rewrite Hcards in Hsc. apply list_elem_of_fmap in Hsc as (s & -> & Hs).
  apply elem_of_Object_values in Hs as [k Hk].
  apply collect_actorStats_entry in Hk as (Ha & Hn & Ht & Hout & Hmem).
  rewrite Hcl. simpl. rewrite Ha, Ht, Hn. split_and!.
  - intros ->. done.
  - intros Hno. by rewrite (Hout Hno).
  - intros c Hc Hkc. rewrite (Hmem (cl_disjoint _ _ _ _ _ Hinv) c Hc Hkc).
    destruct (members c) as [|m ms]; [by apply elem_of_nil in Hkc|]. done.
Qed.

(** ** Cluster metrics *)

Lemma count_neighbors_acc (G : gmap string (list string)) (P : string → Prop)
    `{∀ x, Decision (P x)} (component : list string) (acc : Z) :
  fold_left (λ sum n, sum + Z.of_nat (length (filter P (neighbors G n)))) component acc
  = acc + count_neighbors G P component.
Proof.
  unfold count_neighbors. revert acc. induction component as [|n comp IH]; intros acc.
  - simpl. lia.
  - cbn [fold_left]. rewrite IH, (IH (0 + _)). lia.
Qed.

Lemma count_neighbors_nonneg (G : gmap string (list string)) (P : string → Prop)
    `{∀ x, Decision (P x)} (component : list string) :
  0 ≤ count_neighbors G P component.
Proof.
  induction component as [|n comp IH]; [done|].
  unfold count_neighbors. cbn [fold_left]. rewrite count_neighbors_acc. lia.
Qed.

Lemma count_neighbors_none (G : gmap string (list string)) (P : string → Prop)
    `{∀ x, Decision (P x)} (component : list string) :
  (∀ n x, n ∈ component → x ∈ neighbors G n → ¬ P x) →
  count_neighbors G P component = 0.
Proof.
  induction component as [|n comp IH]; intros Hno; [done|].
  unfold count_neighbors. cbn [fold_left]. rewrite count_neighbors_acc, IH.
  - rewrite filter_none; [done|]. intros x Hx. apply (Hno n x); [by left|done].
  - intros m x Hm. apply Hno. by right.
Qed.

Lemma Qpositive_spec (q : Q) : Qpositive q = true ↔ (0 < q)%Q.
Proof.
  unfold Qpositive. rewrite negb_true_iff, <- not_true_iff_false, Qle_bool_iff.
  split; [apply Qnot_le_lt|apply Qlt_not_le].
Qed.

(** The part of the metric bounds that holds on every cluster: a cluster is
    a whole component, so it has no external edge and conductance 0, and
    its density is not negative. *)
Lemma cluster_metrics (logs : list LogEntry) (settings : AnalysisSettings)
    (res : AnalysisResult) (c : DetailedCluster) :
  (analyzeLogs logs settings).2 = Normal res →
  c ∈ clusters res →
  externalEdges c = 0 ∧ (conductance c == 0)%Q ∧ (0 <= density c)%Q.
Proof.
  intros Hres Hc.
  destruct (analyzeLogs_Normal _ _ _ Hres) as [[_ ->]|[_ (cl & tb & Hcl & _ & Hcl' & _)]].
  { by apply elem_of_nil in Hc. }
  destruct (graph_clusters settings logs) as (cl0 & visited & Hrun & Hinv & _).
  unfold graph_of in Hrun. rewrite Hcl in Hrun. injection Hrun as <-.
  rewrite Hcl' in Hc. destruct Hinv as [_ _ _ Hmade _ _ Hcomp _ _].
  destruct (Hmade c Hc) as [id Hid].
  assert (Hext : count_neighbors (graph_of settings logs)
                   (λ neigh, neigh ∉ (list_to_set (members c) : gset string)) (members c) = 0).
  { apply count_neighbors_none. intros n x Hn Hx Hnot. apply Hnot, elem_of_list_to_set.
    eapply component_of_closed; [apply (Hcomp c n Hc Hn)|exact Hn|exact Hx]. }
  rewrite Hid. unfold make_cluster. cbn [externalEdges conductance density members].
  fold (graph_of settings logs). rewrite Hext. split_and!; [done| |].
  - destruct (Qpositive _); [|done]. unfold Qdiv. apply Qmult_0_l.
  - destruct (Qpositive _) eqn:E; [|done]. apply Qpositive_spec in E.
    apply Qle_shift_div_l; [done|]. rewrite Qmult_0_l.
    apply Qle_shift_div_l; [done|]. rewrite Qmult_0_l.
    change 0%Q with (inject_Z 0). rewrite <- Zle_Qle. apply count_neighbors_nonneg.
Qed.


Lemma occurrences_NoDup (l : list string) :
  (∀ y, (occurrences y l ≤ 1)%nat) → NoDup l.
Proof. without_host.
  unfold occurrences. induction l as [|a l IH]; intros Hocc; [apply NoDup_nil_2|].
  apply NoDup_cons. split.
  - intros Hin. specialize (Hocc a). rewrite filter_cons, decide_True in Hocc by done.
    apply occurrences_pos in Hin. unfold occurrences in Hin. simpl in Hocc. lia.
  - apply IH. intros y. specialize (Hocc y). rewrite filter_cons in Hocc.
    destruct (decide (a = y)); simpl in Hocc; lia.
Qed.

Lemma count_neighbors_bound (G : gmap string (list string)) (P : string → Prop)
    `{∀ x, Decision (P x)} (component : list string) (b : Z) :
  (∀ x, x ∈ component → Z.of_nat (length (filter P (neighbors G x))) ≤ b) →
  count_neighbors G P component ≤ Z.of_nat (length component) * b.
Proof. without_host.
  induction component as [|n comp IH]; intros Hb; [done|].
  unfold count_neighbors. cbn [fold_left]. rewrite count_neighbors_acc.
  assert (Z.of_nat (length (filter P (neighbors G n))) ≤ b) by (apply Hb; by left).
  assert (count_neighbors G P comp ≤ Z.of_nat (length comp) * b).
  { apply IH. intros x Hx. apply Hb. by right. }
  rewrite length_cons. lia.
Qed.

(** When no two positive events join the same pair of nodes and none joins a
    node to itself, the adjacency is a simple graph and the density of every
    cluster is at most 1. *)
Lemma density_at_most_one_without_repeats (logs : list LogEntry)
    (settings : AnalysisSettings) (res : AnalysisResult) (c : DetailedCluster) :
  (analyzeLogs logs settings).2 = Normal res →
  c ∈ clusters res →
  (∀ s t, (positive_events settings logs s t + positive_events settings logs t s ≤ 1)%nat) →
  (density c <= 1)%Q.
Proof.
  intros Hres Hc Hsimple.
  destruct (analyzeLogs_Normal _ _ _ Hres) as [[_ ->]|[_ (cl & tb & Hcl & _ & Hcl' & _)]].
  { by apply elem_of_nil in Hc. }
  destruct (graph_clusters settings logs) as (cl0 & visited & Hrun & Hinv & _).
  unfold graph_of in Hrun. rewrite Hcl in Hrun. injection Hrun as <-.
  rewrite Hcl' in Hc. destruct Hinv as [_ _ _ Hmade _ _ Hcomp _ _].
  destruct (Hmade c Hc) as [id Hid].
  set (G := graph_of settings logs) in *.
  assert (Hocc : ∀ u v, (occurrences v (neighbors G u) ≤ 1)%nat).
  { intros u v. unfold G. rewrite graph_of_multiplicity.
    destruct (decide (u = "")) as [Hu|Hu]; [rewrite !edges_between_empty by auto; lia|].
    destruct (decide (v = "")) as [Hv|Hv]; [rewrite !edges_between_empty by auto; lia|].
    rewrite !edges_between_events by done. apply Hsimple. }
  assert (Hself : ∀ u, u ∉ neighbors G u).
  { intros u Hin. apply occurrences_pos in Hin. unfold G in Hin.
    rewrite graph_of_multiplicity in Hin.
    destruct (decide (u = "")) as [Hu|Hu]; [rewrite !edges_between_empty in Hin by auto; lia|].
    rewrite !edges_between_events in Hin by done. specialize (Hsimple u u). lia. }
  assert (Hdeg : ∀ x, x ∈ members c →
            Z.of_nat (length (filter (λ neigh, neigh ∈ (list_to_set (members c) : gset string))
                                (neighbors G x)))
            ≤ Z.of_nat (length (members c)) - 1).
  { intros x Hx.
    set (l := filter (λ neigh, neigh ∈ (list_to_set (members c) : gset string))
                (neighbors G x)).
    assert (Hsub : x :: l ⊆+ members c).
    { apply NoDup_submseteq.
      - apply NoDup_cons. split.
        + intros [_ Hin]%list_elem_of_filter. by apply (Hself x).
        + apply NoDup_filter, occurrences_NoDup, Hocc.
      - intros y [->|[Hy _]%list_elem_of_filter]%elem_of_cons; [done|].
        by apply elem_of_list_to_set in Hy. }
    apply submseteq_length in Hsub. simpl in Hsub. lia. }
  pose proof (count_neighbors_bound G _ (members c) _ Hdeg) as Hsum.
  rewrite Hid. unfold make_cluster. cbn [density members]. fold G.
  destruct (Qpositive _) eqn:E; [|done]. apply Qpositive_spec in E.
  apply Qle_shift_div_r; [done|]. rewrite Qmult_1_l. unfold Qdiv.
  apply Qmult_le_compat_r; [|done]. by rewrite <- Zle_Qle.
Qed.

(** * Further properties *)

(** ** validateLogs *)

Lemma fold_count_row (proj : ValidationStats → Z) (P : LogEntry → Prop)
    `{∀ r, Decision (P r)} :
  (∀ st r, proj (count_row st r) = proj st + if decide (P r) then 1 else 0) →
  ∀ logs st, proj (fold_left count_row logs st) = proj st + rows_with P logs.
Proof.
  intros Hstep. unfold rows_with. induction logs as [|r logs IH]; intros st.
  - simpl. lia.
  - cbn [fold_left]. rewrite IH, Hstep, filter_cons.
    destruct (decide (P r)); simpl length; lia.
Qed.

Lemma row_valid_true (r : LogEntry) :
  row_valid r = true ↔
  ¬ row_incomplete r ∧ is_Some (Date_parse (Js.trim (timestamp r))).
Proof.
  unfold row_valid, row_incomplete. rewrite !andb_true_iff, !truthy_nonempty.
  destruct (Date_parse (Js.trim (timestamp r))) as [ms|]; simpl.
  - split; [intros; split; [tauto|by eexists]|]. intros [Hn _]. split_and!; try done.
    all: intros E; apply Hn; tauto.
  - split; [intros [_ ?]; done|]. intros [_ [? ?]]. done.
Qed.

Lemma row_incomplete_false (r : LogEntry) :
  negb (Js.truthy (Js.trim (timestamp r))) || negb (Js.truthy (Js.trim (actor r)))
  || negb (Js.truthy (Js.trim (target r))) || negb (Js.truthy (Js.trim (action r)))
  || negb (Js.truthy (Js.trim (platform r))) = true ↔ row_incomplete r.
Proof. without_host.
  unfold row_incomplete. rewrite !orb_true_iff, !negb_true_iff.
  assert (Hf : ∀ s, Js.truthy s = false ↔ s = "").
  { intros s. rewrite <- not_true_iff_false, truthy_nonempty.
    destruct (decide (s = "")); naive_solver. }
  rewrite !Hf. tauto.
Qed.

(** What the tallies of [validateLogs] count. *)
Lemma count_rows_spec (logs : list LogEntry) :
  let st := stats (validateLogs logs) in
  rows st = Z.of_nat (length logs) ∧
  validRows st = rows_with (λ r, row_valid r = true) logs ∧
  droppedRows st = rows_with (λ r, row_valid r ≠ true) logs ∧
  missingRequired st = rows_with row_incomplete logs ∧
  invalidTimestamps st = rows_with (λ r, Date_parse (Js.trim (timestamp r)) = None) logs ∧
  emptyActors st = rows_with (λ r, Js.trim (actor r) = "") logs ∧
  emptyTargets st = rows_with (λ r, Js.trim (target r) = "") logs ∧
  emptyActions st = rows_with (λ r, Js.trim (action r) = "") logs ∧
  emptyPlatforms st = rows_with (λ r, Js.trim (platform r) = "") logs.
Proof.
  cbn [validateLogs stats].
  assert (Hempty : ∀ (s : string) (a : Z),
            (if Js.truthy s then a else a + 1) = a + if decide (s = "") then 1 else 0).
  { intros s a. destruct (Js.truthy s) eqn:E.
    - apply truthy_nonempty in E. rewrite decide_False by done. lia.
    - rewrite decide_True; [done|]. destruct (decide (s = "")) as [|Hn]; [done|].
      apply truthy_nonempty in Hn. congruence. }
  split_and!.
  - set (st0 := Build_ValidationStats _ _ _ _ _ _ _ _ _).
    change (Z.of_nat (length logs)) with (rows st0). generalize st0.
    induction logs as [|r logs IH]; intros st; [done|]. cbn [fold_left]. by rewrite IH.
  - rewrite (fold_count_row validRows (λ r, row_valid r = true)); [done|].
    intros st r. cbn [count_row validRows]. fold (row_valid r).
    destruct (row_valid r); simpl; lia.
  - rewrite (fold_count_row droppedRows (λ r, row_valid r ≠ true)); [done|].
    intros st r. cbn [count_row droppedRows]. fold (row_valid r).
    destruct (row_valid r); simpl; lia.
  - rewrite (fold_count_row missingRequired row_incomplete); [done|].
    intros st r. cbn [count_row missingRequired].
    pose proof (row_incomplete_false r) as Hm.
    destruct (_ || _) eqn:E in |- *.
    + rewrite decide_True; [done|]. apply Hm. exact E.
    + rewrite decide_False; [lia|]. intros Hi. apply Hm in Hi. congruence.
  - rewrite (fold_count_row invalidTimestamps
               (λ r, Date_parse (Js.trim (timestamp r)) = None)); [done|].
    intros st r. cbn [count_row invalidTimestamps].
    destruct (Date_parse (Js.trim (timestamp r))); simpl; lia.
  - rewrite (fold_count_row emptyActors (λ r, Js.trim (actor r) = "")); [done|].
    intros st r. cbn [count_row emptyActors]. apply Hempty.
  - rewrite (fold_count_row emptyTargets (λ r, Js.trim (target r) = "")); [done|].
    intros st r. cbn [count_row emptyTargets]. apply Hempty.
  - rewrite (fold_count_row emptyActions (λ r, Js.trim (action r) = "")); [done|].
    intros st r. cbn [count_row emptyActions]. apply Hempty.
  - rewrite (fold_count_row emptyPlatforms (λ r, Js.trim (platform r) = "")); [done|].
    intros st r. cbn [count_row emptyPlatforms]. apply Hempty.
Qed.

Section Tallies.
Context (P Q R : LogEntry → Prop) `{∀ r, Decision (P r)} `{∀ r, Decision (Q r)}
  `{∀ r, Decision (R r)}.

Lemma rows_with_bounds (logs : list LogEntry) :
  0 ≤ rows_with P logs ≤ Z.of_nat (length logs).
Proof. without_host.
  unfold rows_with. pose proof (length_filter P logs). lia.
Qed.

Lemma rows_with_mono (logs : list LogEntry) :
  (∀ r, P r → Q r) → rows_with P logs ≤ rows_with Q logs.
Proof. without_host.
  intros HPQ. unfold rows_with. induction logs as [|r logs IH]; [done|].
  rewrite !filter_cons. destruct (decide (P r)) as [HP|HP].
  - rewrite decide_True by auto. simpl length. lia.
  - destruct (decide (Q r)); simpl length; lia.
Qed.

Lemma rows_with_cover (logs : list LogEntry) :
  (∀ r, P r → Q r ∨ R r) → rows_with P logs ≤ rows_with Q logs + rows_with R logs.
Proof. without_host.
  intros HPQ. unfold rows_with. induction logs as [|r logs IH]; [done|].
  rewrite !filter_cons. destruct (decide (P r)) as [HP|HP].
  - destruct (HPQ r HP); [rewrite (decide_True (P := Q r)) by done
                         |rewrite (decide_True (P := R r)) by done];
      repeat case_decide; simpl length; lia.
  - repeat case_decide; simpl length; lia.
Qed.

Lemma rows_with_split (logs : list LogEntry) :
  (∀ r, Q r ↔ ¬ P r) → rows_with P logs + rows_with Q logs = Z.of_nat (length logs).
Proof. without_host.
  intros HPQ. unfold rows_with. induction logs as [|r logs IH]; [done|].
  rewrite !filter_cons. destruct (decide (P r)) as [HP|HP].
  - rewrite decide_False by (rewrite HPQ; tauto). simpl length. lia.
  - rewrite decide_True by (by rewrite HPQ). simpl length. lia.
Qed.

Lemma rows_with_pos (logs : list LogEntry) :
  0 < rows_with P logs ↔ ∃ r, r ∈ logs ∧ P r.
Proof. without_host.
  unfold rows_with. destruct (filter P logs) as [|r l] eqn:E.
  - split; [simpl; lia|]. intros (r & Hr & HP).
    assert (r ∈ filter P logs) as Hin by (by apply list_elem_of_filter).
    rewrite E in Hin. by apply elem_of_nil in Hin.
  - split; [intros _|simpl; lia]. exists r.
    assert (Hin : r ∈ filter P logs) by (rewrite E; left).
    by apply list_elem_of_filter in Hin as [? ?].
Qed.

Lemma rows_with_zero (logs : list LogEntry) :
  rows_with P logs = 0 ↔ ∀ r, r ∈ logs → ¬ P r.
Proof. without_host.
  pose proof (rows_with_bounds logs) as Hb. pose proof (rows_with_pos logs) as Hp.
  split.
  - intros Hz r Hr HP. assert (0 < rows_with P logs) by (apply Hp; eauto). lia.
  - intros Hall. destruct (decide (0 < rows_with P logs)) as [Hpos|]; [|lia].
    apply Hp in Hpos as (r & Hr & HP). by destruct (Hall r Hr).
Qed.
End Tallies.

(** X1: the tallies of [validateLogs] add up: every row is either valid or
    dropped; a row is dropped exactly when a required field is blank or its
    timestamp does not parse, so the dropped rows are at least as many as
    either kind and at most as many as both together; a row with a blank
    actor, target, action or platform counts as missing a required field. *)
Theorem validateLogs_accounting (logs : list LogEntry) :
  let st := stats (validateLogs logs) in
  rows st = Z.of_nat (length logs) ∧
  validRows st + droppedRows st = rows st ∧
  0 ≤ validRows st ∧
  Z.max (missingRequired st) (invalidTimestamps st) ≤ droppedRows st ∧
  droppedRows st ≤ missingRequired st + invalidTimestamps st ∧
  0 ≤ invalidTimestamps st ∧
  (0 ≤ emptyActors st ≤ missingRequired st) ∧ (0 ≤ emptyTargets st ≤ missingRequired st) ∧
  (0 ≤ emptyActions st ≤ missingRequired st) ∧ (0 ≤ emptyPlatforms st ≤ missingRequired st).
Proof.
  destruct (count_rows_spec logs) as (Hr & Hv & Hd & Hm & Hi & Ha & Ht & Hc & Hp).
  intros st. subst st. rewrite Hr, Hv, Hd, Hm, Hi, Ha, Ht, Hc, Hp.
  assert (Hmiss : ∀ r, row_incomplete r → row_valid r ≠ true).
  { intros r Hinc Hval. by apply row_valid_true in Hval as [? _]. }
  assert (Hinv : ∀ r, Date_parse (Js.trim (timestamp r)) = None → row_valid r ≠ true).
  { intros r Hnone Hval. apply row_valid_true in Hval as [_ [ms Hms]]. congruence. }
  assert (Hdrop : ∀ r, row_valid r ≠ true →
            row_incomplete r ∨ Date_parse (Js.trim (timestamp r)) = None).
  { intros r Hval. destruct (decide (row_incomplete r)) as [|Hc']; [by left|]. right.
    destruct (Date_parse (Js.trim (timestamp r))) as [ms|] eqn:E; [|done].
    destruct Hval. apply row_valid_true. split; [done|]. rewrite E. by eexists. }
  split_and!; try done.
  - by apply rows_with_split.
  - apply rows_with_bounds.
  - apply Z.max_lub; by apply rows_with_mono.
  - by apply rows_with_cover.
  - apply rows_with_bounds.
  - apply rows_with_bounds.
  - apply rows_with_mono. unfold row_incomplete. tauto.
  - apply rows_with_bounds.
  - apply rows_with_mono. unfold row_incomplete. tauto.
  - apply rows_with_bounds.
  - apply rows_with_mono. unfold row_incomplete. tauto.
  - apply rows_with_bounds.
  - apply rows_with_mono. unfold row_incomplete. tauto.
Qed.

Lemma validateLogs_ok_iff_valid_row_aux (logs : list LogEntry) :
  validRows (stats (validateLogs logs)) = rows_with (λ r, row_valid r = true) logs ∧
  (ok (validateLogs logs) = true ↔ ∃ r, r ∈ logs ∧ row_valid r = true).
Proof.
  destruct (count_rows_spec logs) as (_ & Hv & _). split; [exact Hv|].
  change (ok (validateLogs logs))
    with ((0 <? Z.of_nat (length logs)) && (0 <? validRows (stats (validateLogs logs)))).
  rewrite Hv, andb_true_iff, !Z.ltb_lt, rows_with_pos. split; [tauto|].
  intros (r & Hr & Hval). split; [|eauto]. destruct logs; [by apply elem_of_nil in Hr|].
  simpl length. lia.
Qed.

(** X2: the report of [validateLogs] is ok exactly when some row is valid,
    that is, has all five required fields non-blank after trimming and a
    timestamp that parses; [validRows] is the number of such rows. *)
Theorem validateLogs_ok_iff_valid_row (logs : list LogEntry) :
  validRows (stats (validateLogs logs)) = rows_with (λ r, row_valid r = true) logs ∧
  (ok (validateLogs logs) = true ↔ ∃ r, r ∈ logs ∧ row_valid r = true).
Proof. exact (validateLogs_ok_iff_valid_row_aux logs). Qed.

Lemma push_if_elem {A : Type} (b : bool) (x y : A) (l : list A) :
  y ∈ push_if b x l ↔ y ∈ l ∨ (b = true ∧ y = x).
Proof. without_host.
  unfold push_if. destruct b.
  - rewrite elem_of_app, list_elem_of_singleton. naive_solver.
  - naive_solver.
Qed.

Lemma push_if_nil {A : Type} (b : bool) (x : A) (l : list A) :
  push_if b x l = [] ↔ l = [] ∧ b = false.
Proof. without_host.
  unfold push_if. destruct b.
  - split; [intros [_ ?]%app_eq_nil; done|intros [_ ?]; done].
  - naive_solver.
Qed.

Lemma validateLogs_issues_aux (logs : list LogEntry) :
  (logs = [] →
   issues (validateLogs logs) = [ {| level := level_error; message := "No rows loaded." |} ]) ∧
  (logs ≠ [] → ∀ i, i ∈ issues (validateLogs logs) → level i = level_warn) ∧
  (issues (validateLogs logs) = [] ↔ logs ≠ [] ∧ ∀ r, r ∈ logs → row_valid r = true).
Proof.
  split; [by intros ->|].
  destruct (count_rows_spec logs) as (_ & _ & _ & Hm & Hi & _ & _ & Hc & Hp).
  cbn [validateLogs issues stats] in *.
  set (st := fold_left count_row logs _) in *.
  assert (Hlen : (Z.of_nat (length logs) =? 0) = true ↔ logs = []).
  { rewrite Z.eqb_eq. destruct logs; simpl length; split; (done || lia). }
  split.
  - intros Hne i. rewrite !push_if_elem.
    intros [[[[[?%elem_of_nil|[E ->]]|[_ ->]]|[_ ->]]|[_ ->]]|[_ ->]]; try done.
    by apply Hlen in E.
  - rewrite !push_if_nil, !andb_false_iff, !Z.ltb_ge, Hm, Hi, Hc, Hp.
    pose proof (rows_with_bounds row_incomplete logs) as Bm.
    pose proof (rows_with_bounds (λ r, Date_parse (Js.trim (timestamp r)) = None) logs) as Bi.
    assert (Mc : rows_with (λ r, Js.trim (action r) = "") logs
                 ≤ rows_with row_incomplete logs).
    { apply rows_with_mono. unfold row_incomplete. tauto. }
    assert (Mp : rows_with (λ r, Js.trim (platform r) = "") logs
                 ≤ rows_with row_incomplete logs).
    { apply rows_with_mono. unfold row_incomplete. tauto. }
    pose proof (rows_with_bounds (λ r, Js.trim (action r) = "") logs) as Bc.
    pose proof (rows_with_bounds (λ r, Js.trim (platform r) = "") logs) as Bp.
    split.
    + intros (((((_ & Hl) & Hm0) & Hi0) & _) & _). split.
      { intros E. apply Hlen in E. congruence. }
      assert (Hz1 : rows_with row_incomplete logs = 0) by lia.
      assert (Hz2 : rows_with (λ r, Date_parse (Js.trim (timestamp r)) = None) logs = 0)
        by lia.
      intros r Hr. apply row_valid_true. split.
      * eapply rows_with_zero in Hz1; eauto.
      * eapply rows_with_zero in Hz2; eauto. simpl in Hz2.
        destruct (Date_parse (Js.trim (timestamp r))); [by eexists|done].
    + intros [Hne Hall].
      assert (Hz1 : rows_with row_incomplete logs = 0).
      { apply rows_with_zero. intros r Hr. by apply Hall, row_valid_true in Hr as [? _]. }
      assert (Hz2 : rows_with (λ r, Date_parse (Js.trim (timestamp r)) = None) logs = 0).
      { apply rows_with_zero. intros r Hr Hnone.
        apply Hall, row_valid_true in Hr as [_ [ms Hms]]. congruence. }
      assert (Hl : (Z.of_nat (length logs) =? 0) = false).
      { apply not_true_iff_false. by rewrite Hlen. }
      split_and!; try done; try lia; left; lia.
Qed.

(** X3: [validateLogs] raises an error-level issue exactly for the empty
    log, which gets the single issue 'No rows loaded.'; a non-empty log gets
    warnings only, and gets no issue at all exactly when every row is
    valid. *)
Theorem validateLogs_issues (logs : list LogEntry) :
  (logs = [] →
   issues (validateLogs logs) = [ {| level := level_error; message := "No rows loaded." |} ]) ∧
  (logs ≠ [] → ∀ i, i ∈ issues (validateLogs logs) → level i = level_warn) ∧
  (issues (validateLogs logs) = [] ↔ logs ≠ [] ∧ ∀ r, r ∈ logs → row_valid r = true).
Proof. exact (validateLogs_issues_aux logs). Qed.

(** ** sanitizeLogs, as a whole *)

Lemma sanitize_row_spec (valid : list LogEntry) (row : LogEntry) :
  sanitize_row valid row = if row_valid row then valid ++ [cleaned row] else valid.
Proof.
  unfold sanitize_row, row_valid.
  destruct (Js.truthy (Js.trim (timestamp row))); simpl; [|done].
  destruct (Js.truthy (Js.trim (actor row))); simpl; [|done].
  destruct (Js.truthy (Js.trim (target row))); simpl; [|done].
  destruct (Js.truthy (Js.trim (action row))); simpl; [|done].
  destruct (Js.truthy (Js.trim (platform row))); simpl; [|done].
  by destruct (isFinite (Date_parse (Js.trim (timestamp row)))).
Qed.

Lemma sanitize_rows_spec (logs valid : list LogEntry) :
  fold_left sanitize_row logs valid =
  valid ++ (cleaned <$> filter (λ r, row_valid r = true) logs).
Proof.
  revert valid. induction logs as [|r logs IH]; intros valid.
  - by rewrite app_nil_r.
  - cbn [fold_left]. rewrite IH, sanitize_row_spec, filter_cons.
    destruct (row_valid r); simpl.
    + by rewrite <- app_assoc.
    + done.
Qed.

Lemma cleaned_valid (r : LogEntry) :
  row_valid r = true → row_valid (cleaned r) = true ∧ cleaned (cleaned r) = cleaned r.
Proof.
  intros Hv. unfold row_valid, cleaned in *. simpl. by rewrite !trim_idempotent.
Qed.

Lemma filter_all {A : Type} (P : A → Prop) `{∀ x, Decision (P x)} (l : list A) :
  (∀ x, x ∈ l → P x) → filter P l = l.
Proof. without_host.
  induction l as [|x l IH]; intros Hall; [done|].
  rewrite filter_cons, decide_True by (apply Hall; left).
  f_equal. apply IH. intros y Hy. apply Hall. by right.
Qed.

(** X4: the rows that [sanitizeLogs] returns are the valid rows of the
    input, in their order, each with its five required fields trimmed and
    its optional fields as they were. *)
Theorem sanitizeLogs_keeps_valid_rows (logs : list LogEntry) :
  (sanitizeLogs logs).1 = cleaned <$> filter (λ r, row_valid r = true) logs.
Proof. cbn [sanitizeLogs fst]. by rewrite sanitize_rows_spec. Qed.

(** X5: the report that comes with the cleaned rows agrees with them: its
    statistics are those of [validateLogs] on the input, [validRows] is the
    number of rows returned and [droppedRows] the number left out. *)
Theorem sanitizeLogs_report_counts (logs : list LogEntry) :
  let out := sanitizeLogs logs in
  stats out.2 = stats (validateLogs logs) ∧
  validRows (stats out.2) = Z.of_nat (length out.1) ∧
  droppedRows (stats out.2) = Z.of_nat (length logs) - Z.of_nat (length out.1).
Proof.
  intros out.
  assert (Hst : stats out.2 = stats (validateLogs logs)).
  { subst out. unfold sanitizeLogs. cbn [snd]. by repeat case_match. }
  assert (Hlen : Z.of_nat (length out.1) = rows_with (λ r, row_valid r = true) logs).
  { subst out. cbn [sanitizeLogs fst]. by rewrite sanitize_rows_spec, app_nil_l, length_fmap. }
  destruct (count_rows_spec logs) as (Hr & Hv & Hd & _).
  pose proof (rows_with_split (λ r, row_valid r = true) (λ r, row_valid r ≠ true) logs) as Hs.
  rewrite Hst, Hlen, Hv, Hd. split_and!; [done..|].
  rewrite <- Hs by done. lia.
Qed.

(** X6: the report of [sanitizeLogs] is ok exactly when at least one row is
    returned.  When none is, whatever [validateLogs] found is replaced by
    the single error 'No valid rows to analyze after cleaning.'; when some
    are, the report carries no error-level issue. *)
Theorem sanitizeLogs_ok_iff_rows (logs : list LogEntry) :
  let out := sanitizeLogs logs in
  (ok out.2 = true ↔ out.1 ≠ []) ∧
  (out.1 = [] →
   issues out.2 = [ {| level := level_error;
                       message := "No valid rows to analyze after cleaning." |} ]) ∧
  (out.1 ≠ [] → ∀ i, i ∈ issues out.2 → level i = level_warn).
Proof.
  intros out. subst out. unfold sanitizeLogs. cbn [fst snd].
  rewrite sanitize_rows_spec, app_nil_l.
  set (kept := cleaned <$> filter (λ r, row_valid r = true) logs).
  assert (Hkept : kept ≠ [] ↔ ∃ r, r ∈ logs ∧ row_valid r = true).
  { subst kept. split.
    - destruct (filter _ logs) as [|r l] eqn:E; [done|]. intros _. exists r.
      assert (Hin : r ∈ filter (λ r, row_valid r = true) logs) by (rewrite E; left).
      by apply list_elem_of_filter in Hin as [? ?].
    - intros (r & Hr & Hv) E. apply fmap_nil_inv in E.
      assert (Hin : r ∈ filter (λ r, row_valid r = true) logs)
        by (by apply list_elem_of_filter).
      rewrite E in Hin. by apply elem_of_nil in Hin. }
  assert (Hzero : (Z.of_nat (length kept) =? 0) = true ↔ kept = []).
  { rewrite Z.eqb_eq. destruct kept; simpl length; split; (done || lia). }
  destruct (validateLogs_ok_iff_valid_row_aux logs) as [_ Hok].
  destruct (validateLogs_issues_aux logs) as (_ & Hwarn & _).
  destruct (Z.of_nat (length kept) =? 0) eqn:E.
  - assert (Hk : kept = []) by (by apply Hzero). cbn [ok issues]. by split_and!.
  - assert (Hk : kept ≠ []). { intros Hk. apply Hzero in Hk. congruence. }
    assert (Hne : logs ≠ []). { intros ->. by apply Hk. }
    split_and!; [|done|].
    + case_match; cbn [ok]; rewrite Hok, <- Hkept; tauto.
    + intros _ i. case_match; cbn [issues]; [|by apply Hwarn].
      intros [Hi| ->%list_elem_of_singleton]%elem_of_app; [by apply Hwarn|done].
Qed.

Lemma kept_rows_valid (logs : list LogEntry) (x : LogEntry) :
  x ∈ cleaned <$> filter (λ r, row_valid r = true) logs →
  row_valid x = true ∧ cleaned x = x.
Proof.
  intros (r & -> & Hr)%list_elem_of_fmap.
  apply list_elem_of_filter in Hr as [Hv _]. by apply cleaned_valid.
Qed.

(** X7: cleaning is idempotent: cleaning the rows that [sanitizeLogs]
    returned gives the same rows back, drops none, and, when there are any,
    reports ok with no issue. *)
Theorem sanitizeLogs_idempotent (logs : list LogEntry) :
  let once := sanitizeLogs logs in
  let twice := sanitizeLogs once.1 in
  twice.1 = once.1 ∧
  droppedRows (stats twice.2) = 0 ∧
  (once.1 ≠ [] → ok twice.2 = true ∧ issues twice.2 = []).
Proof.
  intros once twice.
  assert (Honce : once.1 = cleaned <$> filter (λ r, row_valid r = true) logs).
  { subst once. cbn [sanitizeLogs fst]. by rewrite sanitize_rows_spec. }
  pose proof (kept_rows_valid logs) as Hkept. rewrite <- Honce in Hkept.
  subst twice. generalize dependent (once.1). clear once. intros kept _ Hkept.
  assert (Hfix : cleaned <$> filter (λ r, row_valid r = true) kept = kept).
  { rewrite filter_all by (intros x Hx; by apply Hkept).
    rewrite <- (list_fmap_id kept) at 2. apply list_fmap_ext.
    intros i x Hx%list_elem_of_lookup_2. by apply Hkept. }
  assert (Hdrop : droppedRows (stats (validateLogs kept)) = 0).
  { destruct (count_rows_spec kept) as (_ & _ & -> & _). apply rows_with_zero.
    intros r Hr Hn. by apply Hn, Hkept. }
  unfold sanitizeLogs. cbn [fst snd]. rewrite sanitize_rows_spec, app_nil_l, Hfix, Hdrop.
  change (0 <? 0) with false. cbv iota.
  split; [done|]. destruct kept as [|x kept]; [done|].
  change (Z.of_nat (length (x :: kept)) =? 0) with false. cbv iota.
  split; [done|]. intros _. split.
  - apply validateLogs_ok_iff_valid_row_aux. exists x. split; [left|]. apply Hkept. left.
  - apply validateLogs_issues_aux. split; [done|]. intros r Hr. by apply Hkept.
Qed.

(** X8: what [sanitizeLogs] leaves for the engine to fail on.  The run
    over the rows that [sanitizeLogs] returns comes back with a result,
    whatever the input rows and the settings, when no actor, target or
    action among them names a member of Object.prototype and the window of
    every row lies within the range of Date. *)
Theorem analyzeLogs_returns_on_sanitized (logs : list LogEntry)
    (settings : AnalysisSettings) :
  plain_keys (sanitizeLogs logs).1 →
  within_Date_range settings (sanitizeLogs logs).1 →
  ∃ res, (analyzeLogs (sanitizeLogs logs).1 settings).2 = Normal res.
Proof.
  intros _ Hrange. apply analyzeLogs_returns; [|done]. intros l. cbn [sanitizeLogs fst].
  rewrite sanitize_rows_spec, app_nil_l.
  intros (r & -> & Hr)%list_elem_of_fmap. apply list_elem_of_filter in Hr as [Hv _].
  by apply row_valid_true in Hv as [_ ?].
Qed.

(** ** Progress reports *)

Lemma analyzeLogs_reports (logs : list LogEntry) (settings : AnalysisSettings) :
  (analyzeLogs logs settings).1 =
  if decide (logs = []) then [report Stage.start 0]
  else match (analyzeLogs logs settings).2 with
       | Normal _ => all_reports
       | _ => [report Stage.start 0; report Stage.profiles 15; report Stage.graph 30;
               report Stage.clusters 45]
       end.
Proof.
  unfold analyzeLogs. case_bool_decide as Hlen.
  { rewrite decide_True; [done|]. by destruct logs. }
  rewrite decide_False by (by intros ->).
  destruct (graph_clusters settings logs) as (cl & visited & Hcl & _).
  unfold graph_of in Hcl. rewrite Hcl.
  destruct (collect_timeBins settings logs) as [tb| |]; [|done..].
  by destruct (detect_waves settings tb).
Qed.

(** X9: what the engine reports while it runs.  On the empty log only
    'start' (0) is reported.  A run over a non-empty log that returns has
    reported the seven stages start, profiles, graph, clusters, waves,
    scorecards and done, in this order, with 0, 15, 30, 45, 60, 90 and 100
    per cent; this is so for every log with plain keys whose timestamps all
    parse and whose windows lie within the range of Date.  A run that
    throws, over a log with plain keys, has reported the four stages up to
    'clusters' (45) and no other: such a run fails while the waves are
    collected, on a timestamp that does not parse or on a window beyond the
    range of Date, and 'done' is never reported for it. *)
Theorem analyzeLogs_progress (logs : list LogEntry) (settings : AnalysisSettings) :
  (logs = [] → (analyzeLogs logs settings).1 = [report Stage.start 0]) ∧
  (logs ≠ [] → ∀ res, (analyzeLogs logs settings).2 = Normal res →
   (analyzeLogs logs settings).1 =
   [report Stage.start 0; report Stage.profiles 15; report Stage.graph 30;
    report Stage.clusters 45; report Stage.waves 60; report Stage.scorecards 90;
    report Stage.done 100]) ∧
  (logs ≠ [] → plain_keys logs →
   (∀ l, l ∈ logs → is_Some (Date_parse (timestamp l))) →
   within_Date_range settings logs →
   (analyzeLogs logs settings).1 =
   [report Stage.start 0; report Stage.profiles 15; report Stage.graph 30;
    report Stage.clusters 45; report Stage.waves 60; report Stage.scorecards 90;
    report Stage.done 100]) ∧
  (plain_keys logs → ∀ e, (analyzeLogs logs settings).2 = Throw e →
   (analyzeLogs logs settings).1 =
   [report Stage.start 0; report Stage.profiles 15; report Stage.graph 30;
    report Stage.clusters 45]).
Proof.
  rewrite analyzeLogs_reports. split_and!.
  - intros ->. done.
  - intros Hne res ->. by rewrite decide_False.
  - intros Hne _ Hall Hrange.
    destruct (analyzeLogs_returns logs settings Hall Hrange) as [res ->].
    by rewrite decide_False.
  - intros _ e He. rewrite He. case_decide as Hl; [|done].
    subst logs. by vm_compute in He.
Qed.

(** ** The worker, message by message *)

Lemma post_active (id : string) (m : Outgoing) : post_if_active (Some id) id m = [m].
Proof. without_host. unfold post_if_active. by rewrite decide_False by (intros ?; done). Qed.

Lemma onmessage_analyze (a : option string) (id : string) (logs : list LogEntry)
    (settings : AnalysisSettings) :
  onmessage a (AnalyzeMessage id logs settings) =
  (Some id,
   map (λ p, ProgressMessage id (stage p) (pct p)) (analyzeLogs logs settings).1 ++
   match (analyzeLogs logs settings).2 with
   | Normal result => [ResultMessage id result]
   | Throw e => [ErrorMessage id (error_message e)]
   | Diverge => []
   end).
Proof.
  unfold onmessage. destruct (analyzeLogs logs settings) as [reported outcome]. cbn [fst snd].
  assert (Hflat : flat_map (λ p, post_if_active (Some id) id
                              (ProgressMessage id (stage p) (pct p))) reported
                  = map (λ p, ProgressMessage id (stage p) (pct p)) reported).
  { induction reported as [|p r IH]; [done|]. cbn [flat_map map].
    by rewrite IH, post_active. }
  rewrite Hflat. destruct outcome; by rewrite ?post_active, ?app_nil_r.
Qed.

(** X10: the worker answers every analyze message, whatever was active
    before: the request becomes the active one, and the messages posted are
    the progress reports of the run followed by exactly one reply, the
    result when the run returns and the error with the exception's message
    when it throws; all of them carry the request id. *)
Theorem worker_replies_once (a : option string) (id : string) (logs : list LogEntry)
    (settings : AnalysisSettings) :
  ∃ reply,
    onmessage a (AnalyzeMessage id logs settings) =
    (Some id,
     map (λ p, ProgressMessage id (stage p) (pct p)) (analyzeLogs logs settings).1
     ++ [reply]) ∧
    match (analyzeLogs logs settings).2 with
    | Normal result => reply = ResultMessage id result
    | Throw e => reply = ErrorMessage id (error_message e)
    | Diverge => False
    end.
Proof.
  rewrite onmessage_analyze. pose proof (analyzeLogs_completes logs settings) as Hc.
  destruct (analyzeLogs logs settings).2 as [result|e|]; [by eexists..|done].
Qed.


Lemma handle_all_posted (msgs : list Incoming) (a : option string) :
  (handle_all a msgs).2 =
  flat_map (λ msg, (onmessage None msg).2) (filter is_analyze msgs).
Proof.
  revert a. induction msgs as [|msg msgs IH]; intros a; [done|].
  cbn [handle_all]. destruct (onmessage a msg) as [a' posted] eqn:Hstep.
  specialize (IH a'). destruct (handle_all a' msgs) as [final later]. cbn [snd] in *.
  rewrite filter_cons. destruct msg as [id logs settings|id].
  - rewrite decide_True by done. cbn [flat_map]. rewrite <- IH. f_equal.
    rewrite onmessage_analyze in Hstep. injection Hstep as _ <-.
    by rewrite onmessage_analyze.
  - rewrite decide_False by (by intros []). simpl in Hstep. injection Hstep as _ <-.
    by rewrite IH.
Qed.

(** X12: cancel messages never change what the worker posts.  The handler
    runs each analysis to completion before the next message is taken up,
    and every analyze message makes its own request the active one, so the
    messages posted for a sequence of incoming messages are those posted
    for its analyze messages alone, whatever request was active at the
    start. *)
Theorem cancel_never_suppresses (a a' : option string) (msgs : list Incoming) :
  (handle_all a msgs).2 = (handle_all a' (filter is_analyze msgs)).2.
Proof.
  rewrite !handle_all_posted. f_equal. symmetry. apply filter_all.
  by intros m [? _]%list_elem_of_filter.
Qed.

(** ** The graph elements *)

Lemma collect_edges_spec (settings : AnalysisSettings) (logs : list LogEntry) :
  collect_edges settings logs =
  map (λ l, Edge (actor l) (target l) "interaction")
      (filter (λ l, action l ∈ positiveActions settings) logs).
Proof.
  induction logs as [|l logs IH] using rev_ind; [done|].
  rewrite collect_edges_snoc, filter_app, map_app, IH. f_equal.
  unfold is_positive. rewrite filter_cons, filter_nil. case_bool_decide.
  - by rewrite decide_True.
  - by rewrite decide_False.
Qed.

Lemma analyzeLogs_elements (logs : list LogEntry) (settings : AnalysisSettings)
    (res : AnalysisResult) :
  (analyzeLogs logs settings).2 = Normal res →
  elements res =
  map (λ id, NodeElement id id) (collect_nodes logs) ++
  map EdgeElement (collect_edges settings logs).
Proof.
  unfold analyzeLogs. case_bool_decide as Hlen.
  - intros [= <-]. by destruct logs.
  - destruct (detect_clusters _ _ _) as [cl|]; [|done].
    destruct (collect_timeBins settings logs) as [tb| |]; try done.
    destruct (detect_waves settings tb) as [ws| |]; try done.
    by intros [= <-].
Qed.

(** X13: the graph elements of a result are one node element per distinct
    actor or target id, labelled with the id, followed by one edge element
    of type 'interaction' per event with a positive action, in log order.
    Every edge joins two ids that have a node element. *)
Theorem elements_nodes_then_edges (logs : list LogEntry) (settings : AnalysisSettings)
    (res : AnalysisResult) :
  (analyzeLogs logs settings).2 = Normal res →
  ∃ ids,
    NoDup ids ∧
    (∀ x, x ∈ ids ↔ ∃ l, l ∈ logs ∧ (actor l = x ∨ target l = x)) ∧
    elements res =
      map (λ id, NodeElement id id) ids ++
      map (λ l, EdgeElement (Edge (actor l) (target l) "interaction"))
        (filter (λ l, action l ∈ positiveActions settings) logs) ∧
    (∀ e, EdgeElement e ∈ elements res →
       NodeElement (source_of e) (source_of e) ∈ elements res ∧
       NodeElement (target_of e) (target_of e) ∈ elements res).
Proof.
  intros Hres. apply analyzeLogs_elements in Hres. exists (collect_nodes logs).
  split; [apply collect_nodes_NoDup|]. split; [apply collect_nodes_elem|].
  split; [by rewrite Hres, collect_edges_spec, map_map|].
  intros [s t ty]. rewrite Hres, !elem_of_app, !list_elem_of_In, !in_map_iff.
  intros [(id & [=] & _)|(e & [= ->] & Hin)].
  apply list_elem_of_In, collect_edges_endpoints in Hin as [Hs Ht]. cbn [source_of target_of].
  split; left; eexists; (split; [reflexivity|]); by apply list_elem_of_In.
Qed.

(** ** Cluster ids *)

Lemma find_clusters_ids (fuel : nat) (G : gmap string (list string)) (minSize : Z)
    (todo : list string) (visited : gset string) (found cl : list DetailedCluster) :
  find_clusters fuel G minSize todo visited found (Z.of_nat (length found)) = Some cl →
  (∀ i c, found !! i = Some c → clusterId c = Z.of_nat i) →
  ∀ i c, cl !! i = Some c → clusterId c = Z.of_nat i.
Proof. without_host.
  revert visited found. induction todo as [|node todo IH]; intros visited found.
  { intros [= <-]. auto. }
  cbn [find_clusters]. case_decide; [apply IH|].
  destruct (dfs fuel G visited node) as [[visited' component]|]; [|done].
  case_match; [apply IH|]. intros Hrun Hfound.
  apply (IH visited' (found ++ [make_cluster G (Z.of_nat (length found)) component])).
  - rewrite length_app. simpl length.
    replace (Z.of_nat (length found + 1)) with (Z.of_nat (length found) + 1) by lia.
    exact Hrun.
  - intros i c. rewrite lookup_app_Some.
    intros [Hi|[Hlen Hi]]; [by apply Hfound|].
    apply list_lookup_singleton_Some in Hi as [Hz <-]. simpl. lia.
Qed.

(** X14: the clusters of a result are numbered 0, 1, 2, ... in the order in
    which they are listed. *)
Theorem clusterIds_count_from_zero (logs : list LogEntry) (settings : AnalysisSettings)
    (res : AnalysisResult) (i : nat) (c : DetailedCluster) :
  (analyzeLogs logs settings).2 = Normal res →
  clusters res !! i = Some c → clusterId c = Z.of_nat i.
Proof.
  intros Hres.
  destruct (analyzeLogs_Normal _ _ _ Hres) as [[_ ->]|[_ (cl & tb & Hrun & _ & -> & _)]].
  { done. }
  unfold detect_clusters in Hrun. revert i c.
  eapply (find_clusters_ids _ _ _ _ _ []); [exact Hrun|done].
Qed.

(** ** One scorecard per node *)

Lemma insert_by_index_Permutation {V : Type} (i : N) (kv : string * V)
    (l : list (N * (string * V))) :
  Js.insert_by_index i kv l ≡ₚ (i, kv) :: l.
Proof. without_host.
  induction l as [|[j kv'] l IH]; simpl; [done|].
  destruct (i <=? j)%N; [done|]. rewrite IH. apply Permutation_swap.
Qed.

Lemma Object_entries_Permutation {V : Type} (o : list (string * V)) :
  Js.Object_entries o ≡ₚ o.
Proof. without_host.
  unfold Js.Object_entries, Js.named_entries. induction o as [|kv o IH]; [done|].
  cbn [Js.index_entries]. rewrite filter_cons.
  destruct (Js.array_index kv.1) as [i|] eqn:E.
  - rewrite decide_False by done.
    rewrite (Permutation_map snd (insert_by_index_Permutation i kv _)). simpl.
    by rewrite IH.
  - rewrite decide_True by done. rewrite <- Permutation_middle. by rewrite IH.
Qed.

Lemma init_actorStats_keys_eq (G : gmap string (list string))
    (po pi : gmap string (gset string)) (nodes : list string)
    (o : list (string * ActorStats)) :
  NoDup (o.*1 ++ nodes) →
  (fold_left (λ o node, Js.set node (initial_stats G po pi node) o) nodes o).*1
  = o.*1 ++ nodes.
Proof. without_host.
  revert o. induction nodes as [|n nodes IH]; intros o Hnd; [by rewrite app_nil_r|].
  cbn [fold_left]. rewrite IH; rewrite keys_set, decide_False.
  - by rewrite <- app_assoc.
  - apply NoDup_app in Hnd as (_ & Hdisj & _). intros Hin. apply (Hdisj n Hin). by left.
  - by rewrite <- app_assoc.
  - apply NoDup_app in Hnd as (_ & Hdisj & _). intros Hin. apply (Hdisj n Hin). by left.
Qed.

Lemma collect_actorStats_keys (settings : AnalysisSettings) (logs : list LogEntry)
    (G : gmap string (list string)) (cl : list DetailedCluster)
    (tb : list (Z * list (string * list (string * Bin.info)))) (nodes : list string) :
  NoDup nodes → (collect_actorStats settings logs nodes G cl tb).*1 = own_nodes nodes.
Proof.
  intros Hnd. unfold collect_actorStats, init_actorStats.
  rewrite assign_bursts_keys, assign_reciprocity_keys, assign_clusterSizes_keys,
    count_actions_keys, fold_assign.
  rewrite init_actorStats_keys_eq; [done|]. by apply NoDup_filter.
Qed.

Lemma scorecard_actors (logs : list LogEntry) (settings : AnalysisSettings)
    (res : AnalysisResult) :
  (analyzeLogs logs settings).2 = Normal res →
  map Card.actor (scorecards res) ≡ₚ own_nodes (collect_nodes logs).
Proof.
  intros Hres.
  destruct (analyzeLogs_Normal _ _ _ Hres) as [[-> ->]|[_ (cl & tb & _ & _ & _ & _ & ->)]].
  { done. }
  set (o := collect_actorStats _ _ _ _ _ _).
  rewrite <- (collect_actorStats_keys settings logs
                (build_graph (collect_nodes logs) (collect_edges settings logs)) cl tb
                (collect_nodes logs) (collect_nodes_NoDup logs)).
  fold o. unfold Js.Object_values. rewrite !map_map.
  assert (Heq : map (λ x, Card.actor
                      (scorecard_of (collect_profiles logs)
                         (collect_links (collect_profiles logs)) (datasetStart logs) x.2))
                  (Js.Object_entries o)
                = map fst (Js.Object_entries o)).
  { apply map_ext_in. intros [k s] Hks. apply list_elem_of_In in Hks.
    rewrite elem_of_Object_entries in Hks. subst o.
    by apply collect_actorStats_entry in Hks as [? _]. }
  rewrite Heq. apply (Permutation_map fst), Object_entries_Permutation.
Qed.

(** X15: a result has exactly one scorecard for every id that occurs in the
    log as an actor or as a target, except the id [__proto__], and no other
    scorecard.  An actor or target called [__proto__] gets none: the
    statistics object takes what is assigned under that name as its
    prototype, and the scorecards are made from its own keys. *)
Theorem one_scorecard_per_node (logs : list LogEntry) (settings : AnalysisSettings)
    (res : AnalysisResult) :
  (analyzeLogs logs settings).2 = Normal res →
  NoDup (map Card.actor (scorecards res)) ∧
  ∀ a, a ∈ map Card.actor (scorecards res) ↔
       a ≠ "__proto__" ∧ ∃ l, l ∈ logs ∧ (actor l = a ∨ target l = a).
Proof.
  intros Hperm%scorecard_actors. split.
  - rewrite Hperm. apply NoDup_filter, collect_nodes_NoDup.
  - intros a. by rewrite Hperm, own_nodes_elem, collect_nodes_elem.
Qed.

(** ** Waves, one by one *)

Lemma binSizeMs_pos (settings : AnalysisSettings) : 0 < binSizeMs settings.
Proof. without_host. unfold binSizeMs. lia. Qed.

Lemma bucket_window (settings : AnalysisSettings) (l : LogEntry) (b : Z) :
  (binSizeMs settings | b) →
  bucket settings l = Some b ↔
  ∃ ts, Date_parse (timestamp l) = Some ts ∧ b ≤ ts < b + binSizeMs settings.
Proof.
  pose proof (binSizeMs_pos settings) as Hpos. intros [q ->].
  unfold bucket, bin_of. destruct (Date_parse (timestamp l)) as [ts|].
  - split.
    + intros [= Hb]. exists ts. split; [done|].
      apply Z.mul_cancel_r in Hb; [|lia]. subst q.
      pose proof (Z.mul_div_le ts (binSizeMs settings) Hpos).
      pose proof (Z.mul_succ_div_gt ts (binSizeMs settings) Hpos). lia.
    + intros (ts' & [= <-] & Hlo & Hhi). f_equal. f_equal.
      symmetry. apply (Z.div_unique ts (binSizeMs settings) q (ts - q * binSizeMs settings)); lia.
  - split; [done|]. by intros (ts & ? & _).
Qed.

Lemma group_elem (settings : AnalysisSettings) (logs : list LogEntry) (b : Z)
    (a t : string) (l : LogEntry) :
  l ∈ group settings logs b a t ↔
  l ∈ logs ∧ bucket settings l = Some b ∧ action l = a ∧ target l = t.
Proof. without_host. unfold group. rewrite list_elem_of_filter. tauto. Qed.

(** What a wave of a completed run is. *)
Lemma wave_of_group (logs : list LogEntry) (settings : AnalysisSettings)
    (res : AnalysisResult) (w : WaveResult) :
  (analyzeLogs logs settings).2 = Normal res → w ∈ waves res →
  ∃ b a t,
    let g := group settings logs b a t in
    g ≠ [] ∧ is_wave settings (group_info g) = true ∧
    w = make_wave settings b a t (group_info g).
Proof.
  intros Hres Hw.
  destruct (analyzeLogs_Normal _ _ _ Hres) as [[_ ->]|[_ (cl & tb & _ & Htb & _ & Hwaves & _)]].
  { by apply elem_of_nil in Hw. }
  destruct (collect_timeBins_spec settings logs tb Htb) as [Hwf Hcell].
  rewrite Hwaves in Hw. apply waves_of_elem in Hw as (b & a & t & info & Hc & E & ->);
    [|done].
  rewrite Hcell in Hc. case_decide as Hg; [done|]. injection Hc as <-.
  by exists b, a, t.
Qed.

(** X16: the window of a wave is one bin of the time axis: it starts at a
    multiple of the bin size (max(1, timeBinMinutes) minutes) and ends one
    bin size later; and the actors of the wave are exactly the actors of
    the events with the wave's action and target whose time lies in the
    window, start included and end excluded. *)
Theorem wave_window (logs : list LogEntry) (settings : AnalysisSettings)
    (res : AnalysisResult) (w : WaveResult) :
  (analyzeLogs logs settings).2 = Normal res → w ∈ waves res →
  (Z.max 1 (timeBinMinutes settings) * 60000 | Wave.windowStart w) ∧
  Wave.windowEnd w = Wave.windowStart w + Z.max 1 (timeBinMinutes settings) * 60000 ∧
  ∀ x, x ∈ Wave.actors w ↔
       ∃ l ts, l ∈ logs ∧ actor l = x ∧ action l = Wave.action w ∧
               target l = Wave.target w ∧ Date_parse (timestamp l) = Some ts ∧
               Wave.windowStart w ≤ ts < Wave.windowEnd w.
Proof.
  intros Hres Hw. destruct (wave_of_group _ _ _ _ Hres Hw) as (b & a & t & Hg & _ & ->).
  cbn zeta in Hg. cbn [make_wave Wave.windowStart Wave.windowEnd Wave.action Wave.target
                       Wave.actors group_info Bin.actors].
  assert (Hbs : binSizeMs settings = Z.max 1 (timeBinMinutes settings) * 60000).
  { unfold binSizeMs. lia. }
  rewrite <- Hbs.
  assert (Hdiv : (binSizeMs settings | b)).
  { destruct (group settings logs b a t) as [|l g] eqn:E; [done|].
    assert (Hl : l ∈ group settings logs b a t) by (rewrite E; left).
    apply group_elem in Hl as (_ & Hb & _). unfold bucket, bin_of in Hb.
    destruct (Date_parse (timestamp l)) as [ts|]; [|done]. injection Hb as <-.
    by eexists. }
  split_and!; [done..|]. intros x.
  destruct (actors_in_order_spec (group settings logs b a t)) as [_ Hin].
  rewrite Hin, list_elem_of_fmap. split.
  - intros (l & -> & (Hl & Hb & Ha & Ht)%group_elem).
    apply bucket_window in Hb as (ts & Hts & Hrange); [|done]. by exists l, ts.
  - intros (l & ts & Hl & <- & Ha & Ht & Hts & Hrange). exists l. split; [done|].
    apply group_elem. split_and!; [done| |done..]. apply bucket_window; [done|].
    by exists ts.
Qed.

Lemma length_list_to_set_le (l : list string) :
  (size (list_to_set l : gset string) ≤ length l)%nat.
Proof. without_host.
  induction l as [|x l IH]; [done|]. simpl.
  destruct (decide (x ∈ (list_to_set l : gset string))) as [Hin|Hin].
  - replace ({[x]} ∪ list_to_set l : gset string) with (list_to_set l : gset string)
      by set_solver. lia.
  - rewrite size_union by set_solver. rewrite size_singleton. lia.
Qed.

(** X17: a wave lists every actor once, has at least [waveMinActors] actors
    and at most as many as it has events, and its intensity ratio is the
    number of its events over max(1, waveMinCount), which is never below
    1. *)
Theorem wave_intensity (logs : list LogEntry) (settings : AnalysisSettings)
    (res : AnalysisResult) (w : WaveResult) :
  (analyzeLogs logs settings).2 = Normal res → w ∈ waves res →
  let events := group settings logs (Wave.windowStart w) (Wave.action w) (Wave.target w) in
  NoDup (Wave.actors w) ∧
  waveMinActors settings ≤ Z.of_nat (length (Wave.actors w)) ∧
  (length (Wave.actors w) ≤ length events)%nat ∧
  waveMinCount settings ≤ Z.of_nat (length events) ∧
  Wave.zScore w =
    (inject_Z (Z.of_nat (length events)) / inject_Z (Z.max 1 (waveMinCount settings)))%Q ∧
  (1 <= Wave.zScore w)%Q.
Proof.
  intros Hres Hw. destruct (wave_of_group _ _ _ _ Hres Hw) as (b & a & t & Hg & E & ->).
  cbn zeta in Hg, E.
  cbn [make_wave Wave.windowStart Wave.windowEnd Wave.action Wave.target
       Wave.actors Wave.zScore group_info Bin.actors Bin.count].
  set (g := group settings logs b a t) in *.
  destruct (actors_in_order_spec g) as [Hnd Hin].
  apply is_wave_group in E as [Hcount Hactors].
  rewrite actors_in_order_length. split_and!; try done.
  - unfold distinct_actors. rewrite <- (length_fmap actor g).
    apply length_list_to_set_le.
  - assert (Hpos : 0 < Z.max 1 (waveMinCount settings)) by lia.
    assert (Hle : Z.max 1 (waveMinCount settings) ≤ Z.of_nat (length g)).
    { destruct g; [done|]. simpl length in *. lia. }
    apply Qle_shift_div_l.
    + change 0%Q with (inject_Z 0). by rewrite <- Zlt_Qlt.
    + rewrite Qmult_1_l. by rewrite <- Zle_Qle.
Qed.

Lemma NoDup_flat_map_keys {A B K : Type} (f : A → list B) (key : B → K) (l : list A) :
  NoDup l →
  (∀ x, x ∈ l → NoDup (map key (f x))) →
  (∀ x1 x2 y1 y2, x1 ∈ l → x2 ∈ l → y1 ∈ f x1 → y2 ∈ f x2 → key y1 = key y2 → x1 = x2) →
  NoDup (map key (flat_map f l)).
Proof. without_host.
  induction l as [|x l IH]; intros Hnd Hin Hdisj; [apply NoDup_nil_2|].
  apply NoDup_cons in Hnd as [Hx Hnd]. cbn [flat_map]. rewrite map_app.
  apply NoDup_app. split_and!.
  - apply Hin. left.
  - intros k (y1 & Hk1 & Hy1)%list_elem_of_In%in_map_iff
             (y2 & Hk2 & (x2 & Hx2 & Hy2)%in_flat_map)%list_elem_of_In%in_map_iff.
    apply list_elem_of_In in Hy1, Hx2, Hy2.
    assert (x = x2); [|by subst].
    apply (Hdisj x x2 y1 y2); [left|by right|done|done|congruence].
  - apply IH; [done| |].
    + intros x' Hx'. apply Hin. by right.
    + intros x1 x2 y1 y2 H1 H2. apply Hdisj; by right.
Qed.

Lemma NoDup_entries {V : Type} (o : list (string * V)) :
  NoDup o.*1 → NoDup (Js.Object_entries o) ∧
  ∀ k v v', (k, v) ∈ Js.Object_entries o → (k, v') ∈ Js.Object_entries o → v = v'.
Proof. without_host.
  intros Hnd. split.
  - rewrite Object_entries_Permutation. by apply NoDup_fmap_1 in Hnd.
  - intros k v v'. rewrite !elem_of_Object_entries. intros H1 H2.
    apply (elem_of_get _ _ _ Hnd) in H1, H2. congruence.
Qed.

(** X18: a result holds at most one wave for a window, action and target:
    the waves are pairwise distinct in these three. *)
Theorem waves_distinct (logs : list LogEntry) (settings : AnalysisSettings)
    (res : AnalysisResult) :
  (analyzeLogs logs settings).2 = Normal res →
  NoDup (map (λ w, (Wave.windowStart w, Wave.action w, Wave.target w)) (waves res)).
Proof.
  intros Hres.
  destruct (analyzeLogs_Normal _ _ _ Hres) as [[_ ->]|[_ (cl & tb & _ & Htb & _ & -> & _)]].
  { apply NoDup_nil_2. }
  destruct (collect_timeBins_spec settings logs tb Htb) as [[Hnd Hall] _].
  rewrite Forall_forall in Hall.
  unfold waves_of, wave_cells. apply NoDup_flat_map_keys.
  - by apply NoDup_fmap_1 in Hnd.
  - intros [time actions] Hta. destruct (Hall _ Hta) as [Hka Hat]. cbn [snd] in Hka, Hat.
    rewrite Forall_forall in Hat. destruct (NoDup_entries actions Hka) as [Hnda Hfa].
    apply NoDup_flat_map_keys; [done| |].
    + intros [action targets] Hat'. rewrite elem_of_Object_entries in Hat'.
      specialize (Hat _ Hat'). cbn [snd] in Hat.
      destruct (NoDup_entries targets Hat) as [Hndt Hft].
      apply NoDup_flat_map_keys; [done| |].
      * intros [target info] _. destruct (is_wave settings info); simpl;
          [apply NoDup_singleton|apply NoDup_nil_2].
      * intros [t1 i1] [t2 i2] y1 y2 H1 H2 Hy1 Hy2 Hkey.
        destruct (is_wave settings i1); [|by apply elem_of_nil in Hy1].
        destruct (is_wave settings i2); [|by apply elem_of_nil in Hy2].
        apply list_elem_of_singleton in Hy1, Hy2. subst y1 y2. simpl in Hkey.
        injection Hkey as ->. f_equal. by eapply Hft.
    + intros [a1 ts1] [a2 ts2] y1 y2 H1 H2
        ([t1 i1] & _ & Hy1)%list_elem_of_In%in_flat_map
        ([t2 i2] & _ & Hy2)%list_elem_of_In%in_flat_map Hkey.
      destruct (is_wave settings i1); [|done]. destruct (is_wave settings i2); [|done].
      destruct Hy1 as [<-|[]], Hy2 as [<-|[]]. simpl in Hkey. injection Hkey as -> _.
      f_equal. by eapply Hfa.
  - intros [b1 as1] [b2 as2] y1 y2 H1 H2
      ([a1 ts1] & _ & ([t1 i1] & _ & Hy1)%in_flat_map)%list_elem_of_In%in_flat_map
      ([a2 ts2] & _ & ([t2 i2] & _ & Hy2)%in_flat_map)%list_elem_of_In%in_flat_map Hkey.
    destruct (is_wave settings i1); [|done]. destruct (is_wave settings i2); [|done].
    destruct Hy1 as [<-|[]], Hy2 as [<-|[]]. simpl in Hkey. injection Hkey as -> _ _.
    f_equal. apply (elem_of_get _ _ _ Hnd) in H1, H2. congruence.
Qed.

(** ** The statistics behind a scorecard *)

Lemma get_fold_steps {A V : Type}
    (step : A → list (string * V) → list (string * V))
    (h : A → V → V) (k : string) :
  (∀ x o, Js.get k (step x o) = h x <$> Js.get k o) →
  ∀ xs o, Js.get k (fold_left (λ o x, step x o) xs o) =
          (λ v, fold_left (λ v x, h x v) xs v) <$> Js.get k o.
Proof. without_host.
  intros Hstep. induction xs as [|x xs IH]; intros o.
  - cbn [fold_left]. by destruct (Js.get k o).
  - cbn [fold_left]. rewrite IH, Hstep. by destruct (Js.get k o).
Qed.

Lemma get_modify_at {V : Type} (k k' : string) (f : V → V) (o : list (string * V)) :
  Js.get k (Js.modify k' f o) = (λ v, if decide (k' = k) then f v else v) <$> Js.get k o.
Proof. without_host.
  rewrite get_modify. case_decide as Hk.
  - subst. by destruct (Js.get k o).
  - by destruct (Js.get k o).
Qed.

Lemma fold_left_preserves {A B C : Type} (proj : B → C) (h : A → B → B) (xs : list A) (v : B) :
  (∀ x v, proj (h x v) = proj v) → proj (fold_left (λ v x, h x v) xs v) = proj v.
Proof. without_host.
  intros Hh. revert v. induction xs as [|x xs IH]; intros v; [done|].
  cbn [fold_left]. by rewrite IH.
Qed.

Lemma collect_actorStats_final (settings : AnalysisSettings) (logs : list LogEntry)
    (G : gmap string (list string)) (cl : list DetailedCluster)
    (tb : list (Z * list (string * list (string * Bin.info))))
    (nodes : list string) (k : string) (s : ActorStats) :
  (k, s) ∈ collect_actorStats settings logs nodes G cl tb →
  k ∈ nodes ∧ s = final_stats settings logs nodes G cl tb k.
Proof.
  intros Hin.
  assert (Hget : Js.get k (collect_actorStats settings logs nodes G cl tb) = Some s).
  { apply elem_of_get; [|done]. unfold collect_actorStats.
    rewrite assign_bursts_keys, assign_reciprocity_keys, assign_clusterSizes_keys,
      count_actions_keys.
    apply init_actorStats_spec. }
  unfold collect_actorStats in Hget. rewrite assign_bursts_get in Hget.
  unfold assign_reciprocity in Hget.
  rewrite (get_fold_steps
             (λ a o, Js.modify a (set_mutualPositive
                                    (mutual_of (collect_positiveOut settings logs) a)) o)
             (λ a v, if decide (a = k)
                     then set_mutualPositive (mutual_of (collect_positiveOut settings logs) a) v
                     else v)) in Hget
    by (intros; apply get_modify_at).
  unfold assign_clusterSizes in Hget.
  rewrite (get_fold_steps
             (λ c o, fold_left
                       (λ o m, Js.modify m (set_clusterSize (Z.of_nat (length (members c)))) o)
                       (members c) o)
             (λ c v, fold_left
                       (λ v m, if decide (m = k)
                               then set_clusterSize (Z.of_nat (length (members c))) v else v)
                       (members c) v)) in Hget.
  2:{ intros c o.
      apply (get_fold_steps
               (λ m o, Js.modify m (set_clusterSize (Z.of_nat (length (members c)))) o)
               (λ m v, if decide (m = k)
                       then set_clusterSize (Z.of_nat (length (members c))) v else v)).
      intros; apply get_modify_at. }
  unfold count_actions in Hget.
  rewrite (get_fold_steps
             (λ l o, Js.modify (actor l) (count_action settings l) o)
             (λ l v, if decide (actor l = k) then count_action settings l v else v)) in Hget
    by (intros; apply get_modify_at).
  rewrite (proj2 (init_actorStats_spec _ _ _ _)) in Hget.
  case_decide as Hk; [|done]. split; [by apply own_nodes_elem in Hk as [_ ?]|].
  cbn [fmap option_fmap option_map] in Hget. by injection Hget as <-.
Qed.

Lemma events_of_snoc (logs : list LogEntry) (l : LogEntry) (a : string) :
  events_of (logs ++ [l]) a = events_of logs a ++ (if decide (actor l = a) then [l] else []).
Proof. without_host. unfold events_of. by rewrite filter_app. Qed.

Lemma earliest_snoc (ts : list Z) (t : Z) :
  earliest (ts ++ [t]) = Some (match earliest ts with Some f => Z.min f t | None => t end).
Proof. without_host.
  destruct ts as [|t0 ts]; [done|]. simpl. by rewrite fold_left_app.
Qed.

Lemma count_fold (settings : AnalysisSettings) (logs : list LogEntry) (k : string)
    (v : ActorStats) :
  let s := fold_left (λ v l, if decide (actor l = k) then count_action settings l v else v)
             logs v in
  Stats.actor s = Stats.actor v ∧
  Stats.churnActions s =
    Stats.churnActions v +
    Z.of_nat (length (filter (λ l, action l ∈ churnActions settings) (events_of logs k))) ∧
  Stats.uniqueTargets s = Stats.uniqueTargets v ∪ list_to_set (target <$> events_of logs k) ∧
  Stats.firstSeenMs s =
    match earliest (times_of logs k), Stats.firstSeenMs v with
    | Some t, Some f => Some (Z.min f t)
    | Some t, None => Some t
    | None, first => first
    end ∧
  Stats.positiveOut s = Stats.positiveOut v ∧
  Stats.mutualPositive s = Stats.mutualPositive v ∧
  Stats.burstActions s = Stats.burstActions v.
Proof. without_host.
  induction logs as [|l logs IH] using rev_ind.
  - cbn [fold_left events_of times_of filter list_filter omap list_omap fmap list_fmap
         list_to_set length earliest].
    split_and!; [reflexivity|lia|by rewrite (right_id_L ∅ (∪))|reflexivity..].
  - cbn zeta in *. rewrite fold_left_app. cbn [fold_left].
    set (s := fold_left _ logs v) in *. destruct IH as (Ha & Hc & Hu & Hf & Hp & Hm & Hb).
    unfold times_of in *. rewrite events_of_snoc.
    destruct (decide (actor l = k)) as [Hk|Hk].
    + rewrite filter_app, length_app, fmap_app, list_to_set_app_L, omap_app.
      cbn [count_action Stats.actor Stats.churnActions Stats.uniqueTargets Stats.firstSeenMs
           Stats.positiveOut Stats.mutualPositive Stats.burstActions].
      rewrite Ha, Hc, Hu, Hf, Hp, Hm, Hb. split_and!; try done.
      * rewrite filter_cons, filter_nil. case_bool_decide.
        -- rewrite decide_True by done. simpl length. lia.
        -- rewrite decide_False by done. simpl length. lia.
      * set_solver.
      * cbn [omap list_omap]. destruct (Date_parse (timestamp l)) as [t|].
        -- rewrite earliest_snoc.
           destruct (earliest _), (Stats.firstSeenMs v); f_equal; lia.
        -- by rewrite app_nil_r.
    + rewrite !app_nil_r. done.
Qed.

Lemma mutual_fold (po : gmap string (gset string)) (nodes : list string) (k : string)
    (v : ActorStats) :
  Stats.mutualPositive
    (fold_left (λ v a, if decide (a = k) then set_mutualPositive (mutual_of po a) v else v)
       nodes v)
  = if decide (k ∈ nodes) then mutual_of po k else Stats.mutualPositive v.
Proof. without_host.
  revert v. induction nodes as [|n nodes IH]; intros v; [done|].
  cbn [fold_left]. rewrite IH. destruct (decide (k ∈ nodes)) as [Hin|Hin].
  - rewrite decide_True; [done|by right].
  - destruct (decide (n = k)) as [->|Hne].
    + rewrite decide_True; [done|by left].
    + rewrite decide_False; [done|]. rewrite not_elem_of_cons. split; [congruence|done].
Qed.

Lemma final_stats_fields (settings : AnalysisSettings) (logs : list LogEntry)
    (nodes : list string) (G : gmap string (list string)) (cl : list DetailedCluster)
    (tb : list (Z * list (string * list (string * Bin.info)))) (k : string) :
  k ∈ nodes →
  let s := final_stats settings logs nodes G cl tb k in
  let po := collect_positiveOut settings logs in
  Stats.actor s = k ∧
  Stats.churnActions s =
    Z.of_nat (length (filter (λ l, action l ∈ churnActions settings) (events_of logs k))) ∧
  Stats.uniqueTargets s = list_to_set (target <$> events_of logs k) ∧
  Stats.firstSeenMs s = earliest (times_of logs k) ∧
  Stats.positiveOut s = Z.of_nat (size (default ∅ (po !! k))) ∧
  Stats.mutualPositive s = mutual_of po k ∧
  Stats.burstActions s = Z.of_nat (size (default ∅ (collect_waveBins settings tb !! k))).
Proof. without_host.
  intros Hk s po. subst s. unfold final_stats. fold po.
  set (s0 := initial_stats G po (collect_positiveIn settings logs) k).
  set (s1 := fold_left _ logs s0). set (s2 := fold_left _ cl s1).
  set (s3 := fold_left _ nodes s2).
  cbn [set_burstActions Stats.actor Stats.churnActions Stats.uniqueTargets Stats.firstSeenMs
       Stats.positiveOut Stats.mutualPositive Stats.burstActions].
  destruct (count_fold settings logs k s0) as (Ha & Hc & Hu & Hf & Hp & _). fold s1 in Ha, Hc, Hu, Hf, Hp.
  assert (H3 : ∀ {C : Type} (proj : ActorStats → C),
            (∀ n v, proj (set_mutualPositive n v) = proj v) → proj s3 = proj s2).
  { intros C proj Hproj. subst s3.
    apply (fold_left_preserves proj
             (λ a v, if decide (a = k) then set_mutualPositive (mutual_of po a) v else v)).
    intros a v. by case_decide. }
  assert (H2 : ∀ {C : Type} (proj : ActorStats → C),
            (∀ n v, proj (set_clusterSize n v) = proj v) → proj s2 = proj s1).
  { intros C proj Hproj. subst s2.
    apply (fold_left_preserves proj
             (λ c v, fold_left
                       (λ v m, if decide (m = k)
                               then set_clusterSize (Z.of_nat (length (members c))) v else v)
                       (members c) v)).
    intros c v.
    apply (fold_left_preserves proj
             (λ m v, if decide (m = k)
                     then set_clusterSize (Z.of_nat (length (members c))) v else v)).
    intros m v'. by case_decide. }
  rewrite (H3 _ Stats.actor), (H2 _ Stats.actor), Ha by done.
  rewrite (H3 _ Stats.churnActions), (H2 _ Stats.churnActions), Hc by done.
  rewrite (H3 _ Stats.uniqueTargets), (H2 _ Stats.uniqueTargets), Hu by done.
  rewrite (H3 _ Stats.firstSeenMs), (H2 _ Stats.firstSeenMs), Hf by done.
  rewrite (H3 _ Stats.positiveOut), (H2 _ Stats.positiveOut), Hp by done.
  subst s3. rewrite mutual_fold, decide_True by done. subst s0.
  cbn [initial_stats Stats.actor Stats.churnActions Stats.uniqueTargets Stats.firstSeenMs
       Stats.positiveOut].
  split_and!; [reflexivity|lia|apply (left_id_L ∅ (∪))|by destruct (earliest _)
              |reflexivity..].
Qed.

Lemma collect_positiveOut_lookup (settings : AnalysisSettings) (logs : list LogEntry)
    (a : string) :
  default ∅ (collect_positiveOut settings logs !! a) = positive_targets settings logs a.
Proof. without_host.
  unfold collect_positiveOut, positive_targets.
  induction logs as [|l logs IH] using rev_ind; [done|].
  rewrite fold_left_app, events_of_snoc, filter_app, fmap_app, list_to_set_app_L, <- IH.
  cbn [fold_left]. set (m := fold_left _ logs ∅). unfold is_positive.
  case_bool_decide as Hp.
  - unfold add_to. destruct (decide (actor l = a)) as [<-|Hne].
    + rewrite lookup_insert_eq, filter_cons, filter_nil, decide_True by done. simpl.
      set_solver.
    + rewrite lookup_insert_ne, filter_nil by done. simpl. set_solver.
  - destruct (decide (actor l = a)) as [<-|Hne].
    + rewrite filter_cons, filter_nil, decide_False by done. simpl. set_solver.
    + rewrite filter_nil. simpl. set_solver.
Qed.

Lemma mutual_of_spec (settings : AnalysisSettings) (logs : list LogEntry) (a : string) :
  mutual_of (collect_positiveOut settings logs) a =
  Z.of_nat (size (mutual_targets settings logs a)).
Proof. without_host.
  unfold mutual_of, mutual_targets. rewrite collect_positiveOut_lookup. do 2 f_equal.
  apply set_eq. intros t. rewrite !elem_of_filter. by rewrite collect_positiveOut_lookup.
Qed.

Lemma waveBins_inner (key : Z * string) (actors : list string)
    (m : gmap string (gset (Z * string))) (a : string) (key' : Z * string) :
  key' ∈ default ∅ (fold_left (λ m actor, <[actor := {[key]} ∪ default ∅ (m !! actor)]> m)
                      actors m !! a) ↔
  key' ∈ default ∅ (m !! a) ∨ (key' = key ∧ a ∈ actors).
Proof. without_host.
  revert m. induction actors as [|x actors IH]; intros m.
  - cbn [fold_left]. split; [auto|]. by intros [?|[_ ?%elem_of_nil]].
  - cbn [fold_left]. rewrite IH, elem_of_cons. destruct (decide (x = a)) as [->|Hne].
    + rewrite lookup_insert_eq. simpl. set_solver.
    + rewrite lookup_insert_ne by done. naive_solver.
Qed.

Lemma waveBins_outer (cells : list ((Z * string) * list string))
    (m : gmap string (gset (Z * string))) (a : string) (key' : Z * string) :
  key' ∈ default ∅
           (fold_left
              (λ m '(key, actors),
                 fold_left (λ m actor, <[actor := {[key]} ∪ default ∅ (m !! actor)]> m) actors m)
              cells m !! a) ↔
  key' ∈ default ∅ (m !! a) ∨ ∃ actors, (key', actors) ∈ cells ∧ a ∈ actors.
Proof. without_host.
  revert m. induction cells as [|[key actors] cells IH]; intros m.
  - cbn [fold_left]. split; [auto|]. by intros [?|(? & ?%elem_of_nil & _)].
  - cbn [fold_left]. rewrite IH, waveBins_inner. split.
    + intros [[?|[-> ?]]|(actors' & ? & ?)]; [by left|right..].
      * exists actors. split; [left|done].
      * exists actors'. split; [by right|done].
    + intros [?|(actors' & [[= <- <-]|?]%elem_of_cons & ?)]; [by left; left|by left; right|].
      right. by exists actors'.
Qed.

Lemma in_some_wave (settings : AnalysisSettings)
    (tb : list (Z * list (string * list (string * Bin.info)))) (a : string) :
  (0 < size (default ∅ (collect_waveBins settings tb !! a)))%nat ↔
  ∃ w, w ∈ waves_of settings tb ∧ a ∈ Wave.actors w.
Proof. without_host.
  set (X := default ∅ (collect_waveBins settings tb !! a)).
  assert (HX : ∀ key, key ∈ X ↔
            ∃ actors, (key, actors) ∈ wave_cells settings tb
                        (λ time action target info,
                           (waveKey time action target, Bin.actors info)) ∧ a ∈ actors).
  { intros key. subst X. unfold collect_waveBins. rewrite waveBins_outer, lookup_empty.
    simpl. set_solver. }
  split.
  - intros Hpos. destruct (set_choose_L X) as [key Hkey].
    { intros HE. rewrite HE, size_empty in Hpos. lia. }
    apply HX in Hkey as (actors & Hin & Ha).
    apply wave_cells_elem in Hin as (time & acts & action & tgts & target & info & ? & ? & ? & ? & [= -> ->]).
    exists (make_wave settings time action target info). split; [|done].
    apply wave_cells_elem. by exists time, acts, action, tgts, target, info.
  - intros (w & Hw & Ha).
    apply wave_cells_elem in Hw as (time & acts & action & tgts & target & info & ? & ? & ? & ? & ->).
    assert (Hin : waveKey time action target ∈ X).
    { apply HX. exists (Bin.actors info). split; [|done].
      apply wave_cells_elem. by exists time, acts, action, tgts, target, info. }
    destruct (decide (size X = 0%nat)) as [Hz|]; [|lia].
    apply size_empty_iff in Hz. set_solver.
Qed.

(** The scorecard of a completed run and the statistics it is made from. *)
Lemma scorecard_stats (logs : list LogEntry) (settings : AnalysisSettings)
    (res : AnalysisResult) (sc : ActorScorecard) :
  (analyzeLogs logs settings).2 = Normal res → sc ∈ scorecards res →
  ∃ tb s,
    collect_timeBins settings logs = Normal tb ∧
    waves res = waves_of settings tb ∧
    (Card.actor sc, s) ∈ collect_actorStats settings logs (collect_nodes logs)
                           (graph_of settings logs) (clusters res) tb ∧
    sc = scorecard_of (collect_profiles logs) (collect_links (collect_profiles logs))
           (datasetStart logs) s.
Proof.
  intros Hres Hsc.
  destruct (analyzeLogs_Normal _ _ _ Hres) as [[_ ->]|[_ (cl & tb & _ & Htb & <- & Hw & Hcards)]].
  { by apply elem_of_nil in Hsc. }
  rewrite Hcards in Hsc. apply list_elem_of_In, in_map_iff in Hsc as (s & <- & Hs).
  apply list_elem_of_In, elem_of_Object_values in Hs as [k Hk].
  pose proof (collect_actorStats_entry _ _ _ _ _ _ _ _ Hk) as [Ha _].
  exists tb, s. split_and!; [done..| |done]. cbn [scorecard_of Card.actor]. by rewrite Ha.
Qed.

Lemma ratio_range (a b : Z) :
  0 ≤ a → a ≤ b → 0 < b → (0 <= ratio a b)%Q ∧ (ratio a b <= 1)%Q.
Proof. without_host.
  intros Ha Hab Hb. unfold ratio.
  assert (0 < inject_Z b)%Q by (change 0%Q with (inject_Z 0); by rewrite <- Zlt_Qlt).
  split.
  - apply Qle_shift_div_l; [done|]. rewrite Qmult_0_l.
    change 0%Q with (inject_Z 0). by rewrite <- Zle_Qle.
  - apply Qle_shift_div_r; [done|]. rewrite Qmult_1_l. by rewrite <- Zle_Qle.
Qed.

Lemma ratio_pos (a b : Z) : 0 < b → (0 < ratio a b)%Q ↔ 0 < a.
Proof. without_host.
  intros Hb. unfold ratio.
  assert (Hb' : (0 < inject_Z b)%Q) by (change 0%Q with (inject_Z 0); by rewrite <- Zlt_Qlt).
  split.
  - intros Hr. destruct (decide (0 < a)) as [|Hn]; [done|]. exfalso.
    assert (Hle : (inject_Z a / inject_Z b <= 0)%Q).
    { apply Qle_shift_div_r; [done|]. rewrite Qmult_0_l.
      change 0%Q with (inject_Z 0). rewrite <- Zle_Qle. lia. }
    apply (Qlt_not_le _ _ Hr Hle).
  - intros Ha. apply Qlt_shift_div_l; [done|]. rewrite Qmult_0_l.
    change 0%Q with (inject_Z 0). by rewrite <- Zlt_Qlt.
Qed.

Lemma events_of_length (logs : list LogEntry) (a : string) :
  actions_by logs a = length (events_of logs a).
Proof. done. Qed.

Lemma churn_and_diversity_aux (logs : list LogEntry) (settings : AnalysisSettings)
    (res : AnalysisResult) (sc : ActorScorecard) :
  (analyzeLogs logs settings).2 = Normal res → sc ∈ scorecards res →
  let events := events_of logs (Card.actor sc) in
  let targets : gset string := list_to_set (target <$> events) in
  Card.churnScore sc =
    inject_Z (Z.of_nat (length (filter (λ l, action l ∈ churnActions settings) events))) ∧
  (events ≠ [] →
   Card.lowDiversityScore sc =
     (1 - inject_Z (Z.of_nat (size targets)) / inject_Z (Z.of_nat (length events)))%Q) ∧
  (0 <= Card.lowDiversityScore sc)%Q ∧ (Card.lowDiversityScore sc < 1)%Q.
Proof.
  intros Hres Hsc events targets.
  destruct (scorecard_stats _ _ _ _ Hres Hsc) as (tb & s & _ & _ & Hin & Hcard).
  pose proof (collect_actorStats_entry _ _ _ _ _ _ _ _ Hin) as (_ & _ & Htotal & _).
  apply collect_actorStats_final in Hin as [Hk ->].
  destruct (final_stats_fields settings logs (collect_nodes logs) (graph_of settings logs)
              (clusters res) tb (Card.actor sc) Hk) as (_ & Hchurn & Huniq & _).
  cbn zeta in Hchurn, Huniq. rewrite events_of_length in Htotal. fold events in Htotal.
  rewrite Hcard at 1 2 3 4. cbn [scorecard_of Card.churnScore Card.lowDiversityScore].
  rewrite Hchurn, Huniq, Htotal. fold events targets. split; [done|].
  assert (Hle : (size targets ≤ length events)%nat).
  { subst targets. rewrite <- (length_fmap target events). apply length_list_to_set_le. }
  destruct events as [|l ev] eqn:E.
  - split; [done|]. change (0 <? Z.of_nat (length [])) with false. cbv iota. done.
  - replace (0 <? Z.of_nat (length (l :: ev))) with true
      by (symmetry; apply Z.ltb_lt; simpl length; lia).
    split; [done|].
    assert (Hpos : (0 < size targets)%nat).
    { destruct (decide (size targets = 0%nat)) as [Hz|]; [|lia].
      apply size_empty_iff in Hz. subst targets. set_solver. }
    destruct (ratio_range (Z.of_nat (size targets)) (Z.of_nat (length (l :: ev)))) as [H0 H1];
      [lia|lia|simpl length; lia|].
    assert (Hr : (0 < ratio (Z.of_nat (size targets)) (Z.of_nat (length (l :: ev))))%Q).
    { apply ratio_pos; [simpl length; lia|lia]. }
    revert H1 Hr. generalize (ratio (Z.of_nat (size targets)) (Z.of_nat (length (l :: ev)))).
    intros r H1 Hr. split; lra.
Qed.

(** X19: the churn score of a scorecard is the number of the actor's events
    whose action is a churn action.  The low-diversity score of an actor
    with events is 1 minus the number of distinct targets over the number
    of events of the actor; it is at least 0 and always below 1. *)
Theorem churn_and_diversity (logs : list LogEntry) (settings : AnalysisSettings)
    (res : AnalysisResult) (sc : ActorScorecard) :
  (analyzeLogs logs settings).2 = Normal res → sc ∈ scorecards res →
  let events := events_of logs (Card.actor sc) in
  let targets : gset string := list_to_set (target <$> events) in
  Card.churnScore sc =
    inject_Z (Z.of_nat (length (filter (λ l, action l ∈ churnActions settings) events))) ∧
  (events ≠ [] →
   Card.lowDiversityScore sc =
     (1 - inject_Z (Z.of_nat (size targets)) / inject_Z (Z.of_nat (length events)))%Q) ∧
  (0 <= Card.lowDiversityScore sc)%Q ∧ (Card.lowDiversityScore sc < 1)%Q.
Proof. exact (churn_and_diversity_aux logs settings res sc). Qed.

(** X20: the reciprocal rate of a scorecard is, for an actor that acts
    positively on at least one target, the share of these targets that act
    positively on the actor in return, and 0 otherwise; it lies between 0
    and 1. *)
Theorem reciprocalRate_spec (logs : list LogEntry) (settings : AnalysisSettings)
    (res : AnalysisResult) (sc : ActorScorecard) :
  (analyzeLogs logs settings).2 = Normal res → sc ∈ scorecards res →
  let out := positive_targets settings logs (Card.actor sc) in
  let back := mutual_targets settings logs (Card.actor sc) in
  Card.reciprocalRate sc =
    (if decide (out = ∅) then 0
     else inject_Z (Z.of_nat (size back)) / inject_Z (Z.of_nat (size out)))%Q ∧
  (0 <= Card.reciprocalRate sc)%Q ∧ (Card.reciprocalRate sc <= 1)%Q.
Proof.
  intros Hres Hsc out back.
  destruct (scorecard_stats _ _ _ _ Hres Hsc) as (tb & s & _ & _ & Hin & Hcard).
  apply collect_actorStats_final in Hin as [Hk ->].
  destruct (final_stats_fields settings logs (collect_nodes logs) (graph_of settings logs)
              (clusters res) tb (Card.actor sc) Hk) as (_ & _ & _ & _ & Hout & Hmut & _).
  cbn zeta in Hout, Hmut. rewrite collect_positiveOut_lookup in Hout.
  rewrite mutual_of_spec in Hmut. fold out in Hout. fold back in Hmut.
  rewrite Hcard at 1 2 3. cbn [scorecard_of Card.reciprocalRate].
  rewrite Hout, Hmut.
  assert (Hle : (size back ≤ size out)%nat).
  { apply subseteq_size. subst back. unfold mutual_targets. fold out. set_solver. }
  destruct (decide (out = ∅)) as [HE|HE].
  - rewrite HE, size_empty. change (0 <? Z.of_nat 0) with false. cbv iota. done.
  - assert (Hpos : (0 < size out)%nat).
    { destruct (decide (size out = 0%nat)) as [Hz|]; [|lia].
      apply size_empty_iff in Hz. by apply leibniz_equiv in Hz. }
    replace (0 <? Z.of_nat (size out)) with true by (symmetry; apply Z.ltb_lt; lia).
    split; [done|]. apply ratio_range; lia.
Qed.

Lemma coordination_spec_aux (logs : list LogEntry) (settings : AnalysisSettings)
    (res : AnalysisResult) (sc : ActorScorecard) :
  (analyzeLogs logs settings).2 = Normal res → sc ∈ scorecards res →
  Card.burstRate sc = Card.coordinationScore sc ∧
  (0 <= Card.coordinationScore sc)%Q ∧ (Card.coordinationScore sc <= 1)%Q ∧
  ((0 < Card.coordinationScore sc)%Q ↔
   ∃ w, w ∈ waves res ∧ Card.actor sc ∈ Wave.actors w).
Proof.
  intros Hres Hsc.
  destruct (scorecard_stats _ _ _ _ Hres Hsc) as (tb & s & _ & Hwaves & Hin & Hcard).
  pose proof (collect_actorStats_entry _ _ _ _ _ _ _ _ Hin) as (_ & _ & Htotal & _).
  apply collect_actorStats_final in Hin as [Hk ->].
  destruct (final_stats_fields settings logs (collect_nodes logs) (graph_of settings logs)
              (clusters res) tb (Card.actor sc) Hk) as (_ & _ & _ & _ & _ & _ & Hburst).
  cbn zeta in Hburst. rewrite events_of_length in Htotal.
  pose proof (in_some_wave settings tb (Card.actor sc)) as Hsome. rewrite <- Hwaves in Hsome.
  assert (Hev : (∃ w, w ∈ waves res ∧ Card.actor sc ∈ Wave.actors w) →
                events_of logs (Card.actor sc) ≠ []).
  { intros (w & Hw & Ha). destruct (wave_of_group _ _ _ _ Hres Hw) as (b & a & t & _ & _ & ->).
    cbn in Ha. apply actors_in_order_spec, list_elem_of_fmap in Ha as (l & Hl & Hg).
    apply group_elem in Hg as (Hlogs & _).
    assert (Hin : l ∈ events_of logs (Card.actor sc)) by (by apply list_elem_of_filter).
    intros E. rewrite E in Hin. by apply elem_of_nil in Hin. }
  rewrite Hcard at 1 2 3 4 5. cbn [scorecard_of Card.burstRate Card.coordinationScore].
  rewrite Hburst, Htotal. split; [done|].
  set (n := size (default ∅ (collect_waveBins settings tb !! Card.actor sc))) in *.
  destruct (events_of logs (Card.actor sc)) as [|l ev] eqn:E.
  - change (0 <? Z.of_nat (length [])) with false. cbv iota. split_and!; [done..|].
    split; [done|]. intros Hw. by destruct (Hev Hw).
  - replace (0 <? Z.of_nat (length (l :: ev))) with true
      by (symmetry; apply Z.ltb_lt; simpl length; lia).
    assert (Hlen : 0 < Z.of_nat (length (l :: ev))) by (simpl length; lia).
    pose proof (ratio_pos (Z.of_nat n) _ Hlen) as Hrp.
    assert (H0 : (0 <= ratio (Z.of_nat n) (Z.of_nat (length (l :: ev))))%Q).
    { unfold ratio. apply Qle_shift_div_l.
      - change 0%Q with (inject_Z 0). by rewrite <- Zlt_Qlt.
      - rewrite Qmult_0_l. change 0%Q with (inject_Z 0). rewrite <- Zle_Qle. lia. }
    revert Hrp H0. generalize (ratio (Z.of_nat n) (Z.of_nat (length (l :: ev)))).
    intros r Hrp H0. split_and!.
    + by apply Q.min_glb.
    + apply Q.le_min_r.
    + rewrite <- Hsome. split.
      * intros Hmin. assert (0 < r)%Q as Hr%Hrp; [|lia].
        eapply Qlt_le_trans; [exact Hmin|apply Q.le_min_l].
      * intros Hn. apply Q.min_glb_lt; [apply Hrp; lia|done].
Qed.

(** X21: the coordination score of a scorecard lies between 0 and 1, is
    reported a second time as the burst rate, and is positive exactly for
    the actors that take part in a wave of the result. *)
Theorem coordination_spec (logs : list LogEntry) (settings : AnalysisSettings)
    (res : AnalysisResult) (sc : ActorScorecard) :
  (analyzeLogs logs settings).2 = Normal res → sc ∈ scorecards res →
  Card.burstRate sc = Card.coordinationScore sc ∧
  (0 <= Card.coordinationScore sc)%Q ∧ (Card.coordinationScore sc <= 1)%Q ∧
  ((0 < Card.coordinationScore sc)%Q ↔
   ∃ w, w ∈ waves res ∧ Card.actor sc ∈ Wave.actors w).
Proof. exact (coordination_spec_aux logs settings res sc). Qed.

(** ** The new-account score *)

Lemma collect_timeBins_parsed (settings : AnalysisSettings) (logs : list LogEntry)
    (tb : list (Z * list (string * list (string * Bin.info)))) (l : LogEntry) :
  collect_timeBins settings logs = Normal tb → l ∈ logs →
  is_Some (Date_parse (timestamp l)).
Proof.
  intros Htb Hl. destruct (Date_parse (timestamp l)) as [t|] eqn:E; [by eexists|].
  unfold collect_timeBins in Htb.
  by rewrite (collect_timeBins_Throw settings logs [] l Hl E) in Htb.
Qed.

Lemma collect_profiles_get (logs : list LogEntry) (a : string) :
  Js.get a (collect_profiles logs) =
  if decide (events_of logs a = []) then None
  else Some (fold_left (λ p l, merge_profile l p) (events_of logs a) Profile.empty).
Proof. without_host.
  unfold collect_profiles. induction logs as [|l logs IH] using rev_ind; [done|].
  rewrite fold_left_app. cbn [fold_left]. rewrite get_update, events_of_snoc.
  destruct (decide (actor l = a)) as [Ha|Ha].
  - rewrite decide_False by (by intros [_ ?]%app_eq_nil).
    rewrite fold_left_app. cbn [fold_left]. rewrite Ha, IH.
    by destruct (decide (events_of logs a = [])) as [->|].
  - by rewrite app_nil_r.
Qed.

Lemma merged_created (ev : list LogEntry) (p : Profile.t) :
  Profile.actorCreatedAt (fold_left (λ p l, merge_profile l p) ev p) =
  match last (omap (λ l, match actorCreatedAt l with
                         | Some c => if Js.truthy c then Some c else None
                         | None => None
                         end) ev) with
  | Some c => Some c
  | None => Profile.actorCreatedAt p
  end.
Proof. without_host.
  induction ev as [|l ev IH] using rev_ind; [done|].
  rewrite fold_left_app, omap_app. cbn [fold_left merge_profile Profile.actorCreatedAt].
  cbn [omap list_omap]. destruct (actorCreatedAt l) as [c|].
  - destruct (Js.truthy c).
    + by rewrite last_snoc.
    + by rewrite app_nil_r.
  - by rewrite app_nil_r.
Qed.

Lemma created_at_truthy (logs : list LogEntry) (a c : string) :
  created_at logs a = Some c → Js.truthy c = true ∧ events_of logs a ≠ [].
Proof. without_host.
  unfold created_at. intros Hlast.
  assert (Hin : c ∈ omap (λ l, match actorCreatedAt l with
                               | Some c => if Js.truthy c then Some c else None
                               | None => None
                               end) (events_of logs a)).
  { destruct (omap _ _) as [|x xs] using rev_ind; [done|].
    rewrite last_snoc in Hlast. injection Hlast as ->.
    apply elem_of_app. right. by left. }
  apply list_elem_of_omap in Hin as (l & Hl & Hc). split.
  - destruct (actorCreatedAt l) as [c'|]; [|done].
    destruct (Js.truthy c') eqn:E; [|done]. by injection Hc as <-.
  - intros E. rewrite E in Hl. by apply elem_of_nil in Hl.
Qed.

Lemma ratio_le (c x d : Z) : 0 < d → (inject_Z c <= ratio x d)%Q ↔ c * d ≤ x.
Proof. without_host.
  intros Hd. unfold ratio, Qle, Qdiv, Qmult, Qinv, inject_Z.
  destruct d as [|p|p]; [lia| |lia]. simpl. lia.
Qed.

Lemma newAccountScore_aux (logs : list LogEntry) (settings : AnalysisSettings)
    (res : AnalysisResult) (sc : ActorScorecard) :
  (analyzeLogs logs settings).2 = Normal res → sc ∈ scorecards res →
  Card.noveltyScore sc = Card.newAccountScore sc ∧
  (Card.newAccountScore sc = 1%Q ∨ Card.newAccountScore sc = 0%Q) ∧
  (Card.newAccountScore sc = 1%Q ↔
   ∃ c created first,
     created_at logs (Card.actor sc) = Some c ∧ Date_parse c = Some created ∧
     created ≠ 0 ∧ earliest (times_of logs (Card.actor sc)) = Some first ∧
     created ≤ first < created + 7 * 86400000).
Proof.
  intros Hres Hsc.
  destruct (scorecard_stats _ _ _ _ Hres Hsc) as (tb & s & Htb & _ & Hin & Hcard).
  apply collect_actorStats_final in Hin as [Hk ->].
  destruct (final_stats_fields settings logs (collect_nodes logs) (graph_of settings logs)
              (clusters res) tb (Card.actor sc) Hk) as (Hactor & _ & _ & Hfirst & _).
  cbn zeta in Hactor, Hfirst.
  rewrite Hcard at 1 2 3 4 5. cbn [scorecard_of Card.noveltyScore Card.newAccountScore].
  rewrite Hactor, Hfirst, collect_profiles_get. split; [done|].
  assert (Hcreated : match (if decide (events_of logs (Card.actor sc) = []) then None
                            else Some (fold_left (λ p l, merge_profile l p)
                                         (events_of logs (Card.actor sc)) Profile.empty)) with
                     | Some p => Profile.actorCreatedAt p
                     | None => None
                     end = created_at logs (Card.actor sc)).
  { unfold created_at. case_decide as E; [by rewrite E|].
    rewrite merged_created. by destruct (last _). }
  rewrite Hcreated. clear Hcreated.
  destruct (created_at logs (Card.actor sc)) as [c|] eqn:Hc.
  2:{ split; [by right|]. split; [done|]. by intros (? & ? & ? & ? & _). }
  destruct (created_at_truthy _ _ _ Hc) as [Htruthy Hev]. rewrite Htruthy.
  assert (Hsome : is_Some (earliest (times_of logs (Card.actor sc)))).
  { unfold times_of. destruct (events_of logs (Card.actor sc)) as [|l ev] eqn:E; [done|].
    assert (Hl : l ∈ logs).
    { assert (Hin : l ∈ events_of logs (Card.actor sc)) by (rewrite E; left).
      by apply list_elem_of_filter in Hin as [_ ?]. }
    destruct (collect_timeBins_parsed settings logs tb l Htb Hl) as [t Ht].
    cbn [omap list_omap]. rewrite Ht. by eexists. }
  destruct Hsome as [first Hf]. rewrite Hf. cbn [default from_option]. unfold id.
  destruct (Date_parse c) as [created|] eqn:Hp.
  2:{ split; [by right|]. split; [done|]. intros (? & ? & ? & [= <-] & ? & _). congruence. }
  destruct (Z.eqb_spec created 0) as [Hz|Hz].
  { split; [by right|]. split; [done|]. intros (? & ? & ? & [= <-] & ? & ? & _). congruence. }
  change (24 * 60 * 60 * 1000) with 86400000.
  destruct (Qle_bool 0 (ratio (first - created) 86400000)) eqn:E0;
    destruct (Qle_bool 7 (ratio (first - created) 86400000)) eqn:E7; cbn [andb negb].
  all: try apply Qle_bool_iff in E0; try apply Qle_bool_iff in E7.
  all: try (apply not_true_iff_false in E0; rewrite Qle_bool_iff in E0).
  all: try (apply not_true_iff_false in E7; rewrite Qle_bool_iff in E7).
  all: change 0%Q with (inject_Z 0) in E0; change 7%Q with (inject_Z 7) in E7.
  all: rewrite ratio_le in E0 by lia; rewrite ratio_le in E7 by lia.
  all: split; [first [by left|by right]|].
  all: split; [try done; intros _; exists c, created, first; split_and!; try done; lia|].
  all: try done.
  all: intros (c' & created' & first' & [= <-] & Hp' & _ & [= <-] & Hr); try lia.
  all: rewrite Hp in Hp'; injection Hp' as <-; lia.
Qed.

(** X22: the new-account score is 1 or 0, and the novelty score repeats it.
    For a log with plain keys it is 1 exactly when the actor's events carry
    a creation date (the last non-empty one counts) that parses to a time
    value other than 0, and the earliest event of the actor lies at or
    after that time and less than seven days after it.  (What an actor
    called [__proto__] carries would be inherited by every profile.) *)
Theorem newAccountScore_spec (logs : list LogEntry) (settings : AnalysisSettings)
    (res : AnalysisResult) (sc : ActorScorecard) :
  plain_keys logs →
  (analyzeLogs logs settings).2 = Normal res → sc ∈ scorecards res →
  Card.noveltyScore sc = Card.newAccountScore sc ∧
  (Card.newAccountScore sc = 1%Q ∨ Card.newAccountScore sc = 0%Q) ∧
  (Card.newAccountScore sc = 1%Q ↔
   ∃ c created first,
     created_at logs (Card.actor sc) = Some c ∧ Date_parse c = Some created ∧
     created ≠ 0 ∧ earliest (times_of logs (Card.actor sc)) = Some first ∧
     created ≤ first < created + 7 * 86400000).
Proof. intros _. apply newAccountScore_aux. Qed.

(** ** Bounds of the composite *)

(** X23: when the profile anomaly score of the collaborating module is at
    most 1, the composite score of every scorecard is at most 1.  The
    coordination, churn, new-account and low-diversity terms are never
    negative, so the composite is at least the weighted sum of the cluster
    isolation and profile anomaly scores. *)
Theorem sybilScore_at_most_one (logs : list LogEntry) (settings : AnalysisSettings)
    (res : AnalysisResult) (sc : ActorScorecard) :
  (∀ a l followers following, (updateProfileAnomalyScore a l followers following <= 1)%Q) →
  (analyzeLogs logs settings).2 = Normal res → sc ∈ scorecards res →
  (Card.sybilScore sc <= 1)%Q ∧
  (0.15 * Card.clusterIsolationScore sc + 0.15 * Card.profileAnomalyScore sc
   <= Card.sybilScore sc)%Q.
Proof.
  intros Hanomaly Hres Hsc.
  destruct (churn_and_diversity_aux _ _ _ _ Hres Hsc) as (Hchurn & _ & Hd0 & Hd1).
  destruct (coordination_spec_aux _ _ _ _ Hres Hsc) as (_ & Hc0 & Hc1 & _).
  destruct (newAccountScore_aux _ _ _ _ Hres Hsc) as (_ & Hnew & _).
  destruct (scorecard_stats _ _ _ _ Hres Hsc) as (tb & s & _ & _ & Hin & Hcard).
  pose proof (collect_actorStats_entry _ _ _ _ _ _ _ _ Hin) as (_ & Hconn & _).
  assert (Hiso : (Card.clusterIsolationScore sc <= 1)%Q).
  { rewrite Hcard. cbn [scorecard_of Card.clusterIsolationScore].
    destruct (Z.ltb_spec 0 (Stats.clusterSize s)) as [Hpos|]; [|done].
    assert (0 <= ratio (Stats.connections s) (Stats.clusterSize s))%Q; [|lra].
    unfold ratio. apply Qle_shift_div_l.
    - change 0%Q with (inject_Z 0). by rewrite <- Zlt_Qlt.
    - rewrite Qmult_0_l, Hconn. change 0%Q with (inject_Z 0). rewrite <- Zle_Qle. lia. }
  assert (Hanom : (Card.profileAnomalyScore sc <= 1)%Q).
  { rewrite Hcard. cbn [scorecard_of Card.profileAnomalyScore]. apply Hanomaly. }
  assert (Hcap : (0 <= Qmin (Card.churnScore sc / 10) 1)%Q ∧
                 (Qmin (Card.churnScore sc / 10) 1 <= 1)%Q).
  { split; [|apply Q.le_min_r]. apply Q.min_glb; [|done]. rewrite Hchurn.
    apply Qle_shift_div_l; [done|]. rewrite Qmult_0_l.
    change 0%Q with (inject_Z 0). rewrite <- Zle_Qle. lia. }
  assert (Hnew' : (0 <= Card.newAccountScore sc)%Q ∧ (Card.newAccountScore sc <= 1)%Q).
  { destruct Hnew as [-> | ->]; done. }
  assert (Heq : Card.sybilScore sc =
                composite (Card.coordinationScore sc) (Card.churnScore sc)
                  (Card.clusterIsolationScore sc) (Card.newAccountScore sc)
                  (Card.lowDiversityScore sc) (Card.profileAnomalyScore sc)).
  { by rewrite Hcard. }
  rewrite Heq. unfold composite.
  revert Hcap. generalize (Qmin (Card.churnScore sc / 10) 1). intros m [Hm0 Hm1].
  destruct Hnew' as [Hn0 Hn1]. split; lra.
Qed.

(** ** Cluster metrics, exactly *)

Lemma degree_sum_acc (G : gmap string (list string)) (ms : list string) (acc : Z) :
  fold_left (λ sum n, sum + Z.of_nat (length (neighbors G n))) ms acc = acc + degree_sum G ms.
Proof. without_host.
  unfold degree_sum. revert acc. induction ms as [|n ms IH]; intros acc.
  - simpl. lia.
  - cbn [fold_left]. rewrite IH, (IH (0 + _)). lia.
Qed.

Lemma degree_sum_cons (G : gmap string (list string)) (n : string) (ms : list string) :
  degree_sum G (n :: ms) = Z.of_nat (length (neighbors G n)) + degree_sum G ms.
Proof. without_host. unfold degree_sum at 1. cbn [fold_left]. by rewrite degree_sum_acc. Qed.

Lemma member_cons (x n : string) (ms : list string) :
  n ∉ ms →
  (if decide (x ∈ n :: ms) then 1 else 0) =
  (if decide (n = x) then 1 else 0) + (if decide (x ∈ ms) then 1 else 0).
Proof. without_host.
  intros Hn. destruct (decide (n = x)) as [->|Hne].
  - rewrite decide_True by left. by rewrite decide_False.
  - destruct (decide (x ∈ ms)) as [Hin|Hin].
    + by rewrite decide_True by (by right).
    + rewrite decide_False; [done|]. rewrite not_elem_of_cons. split; [congruence|done].
Qed.

Lemma degree_sum_add_edge (g : gmap string (list string)) (e : EdgeDefinition)
    (ms : list string) :
  NoDup ms → is_Some (g !! source_of e) → is_Some (g !! target_of e) →
  degree_sum (add_edge g e) ms = degree_sum g ms + ends_in ms e.
Proof. without_host.
  destruct e as [a b ty]. cbn [source_of target_of]. intros Hnd Ha Hb.
  unfold ends_in. cbn [source_of target_of].
  induction ms as [|n ms IH].
  { unfold degree_sum. simpl. case_decide; lia. }
  apply NoDup_cons in Hnd as [Hn Hnd]. rewrite !degree_sum_cons, IH by done.
  rewrite (member_cons a n ms Hn), (member_cons b n ms Hn).
  rewrite (neighbors_add_edge g a b ty n Ha Hb), !length_app.
  destruct (decide (a ≠ "" ∧ b ≠ "")) as [Hv|Hv]; [|simpl; lia].
  rewrite length_app.
  destruct (decide (n = a)), (decide (n = b)); simpl length; lia.
Qed.

Lemma degree_sum_fold_edges (edges : list EdgeDefinition) (g : gmap string (list string))
    (ms : list string) :
  NoDup ms →
  (∀ e, e ∈ edges → is_Some (g !! source_of e) ∧ is_Some (g !! target_of e)) →
  degree_sum (fold_left add_edge edges g) ms =
  degree_sum g ms + fold_left (λ sum e, sum + ends_in ms e) edges 0.
Proof. without_host.
  intros Hnd. revert g. induction edges as [|e edges IH] using rev_ind; intros g Hdom.
  - simpl. lia.
  - rewrite !fold_left_app. cbn [fold_left].
    assert (Hdom' : ∀ e', e' ∈ edges →
              is_Some (g !! source_of e') ∧ is_Some (g !! target_of e')).
    { intros e' He'. apply Hdom, elem_of_app. by left. }
    destruct (Hdom e) as [Hs Ht]; [apply elem_of_app; right; by left|].
    assert (Hdomf : ∀ x, is_Some (fold_left add_edge edges g !! x) ↔ is_Some (g !! x)).
    { clear. intros x. revert g. induction edges as [|e edges IH]; intros g; [done|].
      cbn [fold_left]. by rewrite IH, add_edge_dom. }
    rewrite degree_sum_add_edge by (done || by apply Hdomf). rewrite IH by done. lia.
Qed.

Lemma degree_sum_closed (G : gmap string (list string)) (ms : list string) (S : gset string) :
  (∀ n x, n ∈ ms → x ∈ neighbors G n → x ∈ S) →
  count_neighbors G (λ neigh, neigh ∈ S) ms = degree_sum G ms.
Proof. without_host.
  induction ms as [|n ms IH]; intros Hclosed; [done|].
  unfold count_neighbors. cbn [fold_left]. rewrite count_neighbors_acc, degree_sum_cons, IH.
  - rewrite filter_all; [lia|]. intros x Hx. apply (Hclosed n x); [by left|done].
  - intros m x Hm. apply Hclosed. by right.
Qed.

Lemma ends_in_closed (settings : AnalysisSettings) (logs : list LogEntry)
    (ms : list string) (l : LogEntry) :
  (∀ u v, u ∈ ms → v ∈ neighbors (graph_of settings logs) u → v ∈ ms) →
  l ∈ logs → action l ∈ positiveActions settings →
  ends_in ms (Edge (actor l) (target l) "interaction") =
  if decide (actor l ≠ "" ∧ target l ≠ "" ∧ actor l ∈ ms) then 2 else 0.
Proof. without_host.
  intros Hclosed Hl Hpos. unfold ends_in. cbn [source_of target_of].
  destruct (decide (actor l ≠ "" ∧ target l ≠ "")) as [[Ha Ht]|Hv].
  2:{ rewrite decide_False; [done|]. intros (? & ? & _). by apply Hv. }
  assert (Hadj : target l ∈ neighbors (graph_of settings logs) (actor l)).
  { apply occurrences_pos. rewrite graph_of_multiplicity, !edges_between_events by done.
    assert (0 < positive_events settings logs (actor l) (target l))%nat; [|lia].
    unfold positive_events.
    assert (Hin : l ∈ filter (λ l0, action l0 ∈ positiveActions settings
                                    ∧ actor l0 = actor l ∧ target l0 = target l) logs)
      by (by apply list_elem_of_filter).
    destruct (filter _ logs); [by apply elem_of_nil in Hin|simpl; lia]. }
  pose proof (graph_of_symmetric settings logs _ _ Hadj) as Hadj'.
  destruct (decide (actor l ∈ ms)) as [Hin|Hin].
  - rewrite (decide_True (P := target l ∈ ms)) by (by eapply Hclosed).
    by rewrite decide_True.
  - rewrite (decide_False (P := target l ∈ ms)).
    + rewrite decide_False; [done|]. by intros (_ & _ & ?).
    + intros Ht'. apply Hin. by eapply Hclosed.
Qed.

Lemma ends_in_events (settings : AnalysisSettings) (logs all : list LogEntry)
    (ms : list string) :
  (∀ u v, u ∈ ms → v ∈ neighbors (graph_of settings all) u → v ∈ ms) →
  (∀ l, l ∈ logs → l ∈ all) →
  fold_left (λ sum e, sum + ends_in ms e) (collect_edges settings logs) 0 =
  2 * Z.of_nat (length (events_within settings logs ms)).
Proof. without_host.
  intros Hclosed Hsub. unfold events_within.
  induction logs as [|l logs IH] using rev_ind; [done|].
  rewrite collect_edges_snoc, fold_left_app, IH, filter_app, length_app.
  2:{ intros l' Hl'. apply Hsub, elem_of_app. by left. }
  assert (Hl : l ∈ all) by (apply Hsub, elem_of_app; right; by left).
  unfold is_positive. rewrite filter_cons, filter_nil. case_bool_decide as Hp.
  - cbn [fold_left]. rewrite (ends_in_closed settings all ms l Hclosed Hl Hp).
    destruct (decide (actor l ≠ "" ∧ target l ≠ "" ∧ actor l ∈ ms)) as [Hv|Hv].
    + rewrite decide_True by tauto. simpl length. lia.
    + rewrite decide_False by tauto. simpl length. lia.
  - cbn [fold_left]. rewrite decide_False by tauto. simpl length. lia.
Qed.

(** The entries in the neighbor lists of a set of nodes that is closed
    under adjacency: two for every positive event within it. *)
Lemma degree_sum_events (settings : AnalysisSettings) (logs : list LogEntry)
    (ms : list string) :
  NoDup ms →
  (∀ u v, u ∈ ms → v ∈ neighbors (graph_of settings logs) u → v ∈ ms) →
  degree_sum (graph_of settings logs) ms =
  2 * Z.of_nat (length (events_within settings logs ms)).
Proof. without_host.
  intros Hnd Hclosed. unfold graph_of, build_graph. rewrite degree_sum_fold_edges; [|done|].
  - rewrite (ends_in_events settings logs logs ms Hclosed) by done.
    assert (Hz : degree_sum (fold_left (λ g node, <[node:=[]]> g) (collect_nodes logs) ∅) ms = 0).
    { clear. induction ms as [|n ms IH]; [done|]. rewrite degree_sum_cons, IH.
      unfold neighbors. rewrite empty_graph_lookup. case_decide; [done|].
      by rewrite lookup_empty. }
    lia.
  - intros [a b ty] [Ha Hb]%collect_edges_endpoints. simpl.
    rewrite !empty_graph_lookup, !decide_True by done. split; by eexists.
Qed.

(** X25: a cluster is a whole connected component, so no edge leaves it:
    the external-edge count and the conductance of every cluster are 0.
    Its density is the number of positive events within the cluster
    (between non-empty ids) over the number n(n-1)/2 of pairs of its n
    members, and 0 for a cluster of fewer than two members. *)
Theorem cluster_metrics_exact (logs : list LogEntry) (settings : AnalysisSettings)
    (res : AnalysisResult) (c : DetailedCluster) :
  (analyzeLogs logs settings).2 = Normal res → c ∈ clusters res →
  let n := Z.of_nat (length (members c)) in
  let events := Z.of_nat (length (events_within settings logs (members c))) in
  externalEdges c = 0 ∧ (conductance c == 0)%Q ∧
  (2 ≤ n → (density c == inject_Z events / (inject_Z (n * (n - 1)) / 2))%Q) ∧
  (n < 2 → density c = 0%Q).
Proof.
  intros Hres Hc n events.
  destruct (cluster_metrics logs settings res c Hres Hc) as (Hext & Hcond & _).
  split; [done|]. split; [done|].
  destruct (analyzeLogs_Normal _ _ _ Hres) as [[_ ->]|[_ (cl & tb & Hcl & _ & Hcl' & _)]].
  { by apply elem_of_nil in Hc. }
  destruct (graph_clusters settings logs) as (cl0 & visited & Hrun & Hinv & _).
  unfold graph_of in Hrun. rewrite Hcl in Hrun. injection Hrun as <-.
  rewrite Hcl' in Hc. destruct Hinv as [_ _ Hne Hmade _ _ Hcomp _ _].
  destruct (Hmade c Hc) as [id Hid]. destruct (Hne c Hc) as [u Hu].
  pose proof (Hcomp c u Hc Hu) as [Hnd Hconn].
  assert (Hclosed : ∀ x y, x ∈ members c → y ∈ neighbors (graph_of settings logs) x →
                           y ∈ members c).
  { intros x y Hx Hy. eapply component_of_closed; [apply (Hcomp c u Hc Hu)|exact Hx|exact Hy]. }
  assert (Hcount : count_neighbors (graph_of settings logs)
                     (λ neigh, neigh ∈ (list_to_set (members c) : gset string)) (members c)
                   = 2 * events).
  { rewrite degree_sum_closed.
    - by apply degree_sum_events.
    - intros x y Hx Hy. apply elem_of_list_to_set. by eapply Hclosed. }
  rewrite Hid. unfold make_cluster. cbn [density members]. fold (graph_of settings logs).
  rewrite Hcount. fold n. split.
  - intros Hn. assert (Hpos : Qpositive (inject_Z (n * (n - 1)) / 2) = true).
    { apply Qpositive_spec. apply Qlt_shift_div_l; [done|]. rewrite Qmult_0_l.
      change 0%Q with (inject_Z 0). rewrite <- Zlt_Qlt. nia. }
    rewrite Hpos. apply Qpositive_spec in Hpos.
    assert (Hhalf : (inject_Z (2 * events) / 2 == inject_Z events)%Q).
    { unfold Qeq, Qdiv, Qmult, Qinv, inject_Z. simpl. lia. }
    by rewrite Hhalf.
  - intros Hn. assert (Hz : n * (n - 1) = 0) by nia. by rewrite Hz.
Qed.

(** ** The order of the scorecards *)

Lemma insert_by_index_sorted {V : Type} (i : N) (kv : string * V)
    (l : list (N * (string * V))) :
  StronglySorted (λ x y, (x.1 ≤ y.1)%N) l →
  StronglySorted (λ x y, (x.1 ≤ y.1)%N) (Js.insert_by_index i kv l).
Proof. without_host.
  induction l as [|[j kv'] l IH]; intros Hs; simpl.
  - repeat constructor.
  - apply StronglySorted_inv in Hs as [Hl Hall].
    destruct (N.leb_spec i j) as [Hij|Hij].
    + constructor; [by constructor|]. constructor; [done|].
      eapply Forall_impl; [exact Hall|]. simpl. intros x Hx. lia.
    + constructor; [by apply IH|]. apply Forall_forall.
      intros x [->|Hx]%elem_of_insert_by_index; simpl; [lia|].
      rewrite Forall_forall in Hall. by apply Hall.
Qed.

Lemma index_entries_sorted {V : Type} (o : list (string * V)) :
  StronglySorted (λ x y, (x.1 ≤ y.1)%N) (Js.index_entries o).
Proof. without_host.
  induction o as [|kv o IH]; simpl; [constructor|].
  destruct (Js.array_index kv.1); [by apply insert_by_index_sorted|done].
Qed.

Lemma index_entries_keys {V : Type} (o : list (string * V)) :
  map (λ x, x.2.1) (Js.index_entries o) ≡ₚ filter (λ a, is_Some (Js.array_index a)) o.*1.
Proof. without_host.
  induction o as [|kv o IH]; [done|]. cbn [Js.index_entries]. rewrite fmap_cons, filter_cons.
  destruct (Js.array_index kv.1) as [i|] eqn:E.
  - rewrite decide_True by (by eexists).
    rewrite (Permutation_map _ (insert_by_index_Permutation i kv _)). simpl. by rewrite IH.
  - rewrite decide_False by (by intros [? ?]). done.
Qed.

Lemma named_entries_keys {V : Type} (o : list (string * V)) :
  map fst (Js.named_entries o) = filter (λ a, Js.array_index a = None) o.*1.
Proof. without_host.
  unfold Js.named_entries. induction o as [|kv o IH]; [done|].
  rewrite fmap_cons, !filter_cons. case_decide; simpl; by rewrite IH.
Qed.

Lemma index_keys_sorted {V : Type} (l : list (N * (string * V))) :
  (∀ x, x ∈ l → Js.array_index x.2.1 = Some x.1) →
  StronglySorted (λ x y, (x.1 ≤ y.1)%N) l →
  StronglySorted index_le (map (λ x, x.2.1) l).
Proof. without_host.
  intros Hidx Hs. induction Hs as [|x l Hs IH Hall]; simpl; [constructor|].
  constructor.
  - apply IH. intros y Hy. apply Hidx. by right.
  - apply Forall_forall. intros a (y & <- & Hy)%list_elem_of_In%in_map_iff.
    apply list_elem_of_In in Hy. rewrite Forall_forall in Hall.
    unfold index_le. rewrite (Hidx x), (Hidx y) by (by (left + right; done) || by right).
    by apply Hall.
Qed.

(** X26: the scorecards are listed as the language enumerates the keys of
    the statistics object: first the ids that are array indices (canonical
    decimal numerals below 2^32 - 1), in ascending numeric order, then all
    other ids in the order in which they first appear in the log.  The id
    [__proto__] is no key of the statistics object and is left out. *)
Theorem scorecards_numeric_ids_first (logs : list LogEntry) (settings : AnalysisSettings)
    (res : AnalysisResult) :
  (analyzeLogs logs settings).2 = Normal res →
  ∃ indexed named,
    map Card.actor (scorecards res) = indexed ++ named ∧
    indexed ≡ₚ filter (λ a, is_Some (Js.array_index a)) (collect_nodes logs) ∧
    StronglySorted index_le indexed ∧
    named = filter (λ a, Js.array_index a = None ∧ a ≠ "__proto__") (collect_nodes logs).
Proof.
  intros Hres.
  destruct (analyzeLogs_Normal _ _ _ Hres) as [[-> ->]|[_ (cl & tb & _ & _ & _ & _ & ->)]].
  { exists [], []. split_and!; try done. constructor. }
  set (o := collect_actorStats _ _ _ _ _ _).
  assert (Hkeys : o.*1 = own_nodes (collect_nodes logs)).
  { apply collect_actorStats_keys, collect_nodes_NoDup. }
  exists (map (λ x, x.2.1) (Js.index_entries o)), (map fst (Js.named_entries o)).
  split_and!.
  - unfold Js.Object_values. rewrite !map_map.
    assert (Heq : map (λ x, Card.actor
                        (scorecard_of (collect_profiles logs)
                           (collect_links (collect_profiles logs)) (datasetStart logs) x.2))
                    (Js.Object_entries o)
                  = map fst (Js.Object_entries o)).
    { apply map_ext_in. intros [k s] Hks. apply list_elem_of_In in Hks.
      rewrite elem_of_Object_entries in Hks. subst o.
      by apply collect_actorStats_entry in Hks as [? _]. }
    rewrite Heq. unfold Js.Object_entries. by rewrite map_app, map_map.
  - rewrite index_entries_keys, Hkeys. unfold own_nodes. rewrite list_filter_filter.
    assert (Hf : filter (λ a, is_Some (Js.array_index a) ∧ a ≠ "__proto__")
                   (collect_nodes logs)
                 = filter (λ a, is_Some (Js.array_index a)) (collect_nodes logs)).
    { apply list_filter_iff. intros a. split; [by intros [? _]|].
      intros Ha. split; [done|]. intros ->. by destruct Ha. }
    by rewrite Hf.
  - apply index_keys_sorted; [|apply index_entries_sorted].
    intros [i kv] Hx. by apply elem_of_index_entries in Hx as [_ ?].
  - rewrite named_entries_keys, Hkeys. unfold own_nodes. by rewrite list_filter_filter.
Qed.

(** ** The page: processData *)

Lemma page_add_edge_dom (g : gmap string (list string)) (e : EdgeDefinition) (x : string) :
  is_Some (page_add_edge g e !! x) ↔ is_Some (g !! x).
Proof. without_host. destruct e as [a b ty]. unfold page_add_edge. by rewrite !push_neighbor_dom. Qed.

Lemma page_graph_neighbors (edges : list EdgeDefinition) (g : gmap string (list string))
    (n x : string) :
  x ∈ neighbors (fold_left page_add_edge edges g) n →
  x ∈ neighbors g n ∨ ∃ e, e ∈ edges ∧ (x = source_of e ∨ x = target_of e).
Proof. without_host.
  revert g. induction edges as [|[a b ty] edges IH]; intros g; [by left|].
  cbn [fold_left]. intros [Hin|(e & He & Hx)]%IH.
  - unfold page_add_edge in Hin. rewrite !neighbors_push in Hin.
    repeat case_decide; rewrite ?elem_of_app, ?list_elem_of_singleton in Hin;
      try (by left); destruct Hin as [Hin|Hin]; try (by left);
      try (destruct Hin as [Hin|Hin]; [by left|]);
      right; exists (Edge a b ty); (split; [left|]); simpl; auto.
  - right. exists e. split; [by right|done].
Qed.

Lemma page_graph_nodes (settings : AnalysisSettings) (data : list LogEntry) (n x : string) :
  x ∈ neighbors (page_graph (collect_nodes data) (collect_edges settings data)) n →
  x ∈ collect_nodes data.
Proof. without_host.
  unfold page_graph. intros [Hin|([a b ty] & He & Hx)]%page_graph_neighbors.
  - unfold neighbors in Hin. rewrite empty_graph_lookup in Hin.
    case_decide; [by apply elem_of_nil in Hin|].
    rewrite lookup_empty in Hin. by apply elem_of_nil in Hin.
  - apply collect_edges_endpoints in He as [Ha Hb]. simpl in Hx. by destruct Hx as [-> | ->].
Qed.

Lemma unvisited_mono (U : list string) (V V' : gset string) :
  V ⊆ V' → (unvisited U V' ≤ unvisited U V)%nat.
Proof. without_host.
  intros Hsub. unfold unvisited. induction U as [|x U IH]; [done|].
  rewrite !filter_cons. destruct (decide (x ∉ V')) as [Hx|Hx].
  - rewrite decide_True by set_solver. simpl. lia.
  - destruct (decide (x ∉ V)); simpl; lia.
Qed.

Lemma page_dfs_total (G : gmap string (list string)) (U : list string) :
  NoDup U → (∀ n x, x ∈ neighbors G n → x ∈ U) →
  ∀ fuel node st, node ∈ U → node ∉ st.1 → (unvisited U st.1 ≤ fuel)%nat →
  ∃ st', page_dfs fuel G node st = Some st' ∧ st.1 ⊆ st'.1.
Proof. without_host.
  intros Hnd HU. induction fuel as [|fuel IHf]; intros node st Hnode Hfresh Hfuel.
  { pose proof (unvisited_add_present U st.1 node Hnd Hnode Hfresh). lia. }
  cbn [page_dfs].
  set (st0 := ({[node]} ∪ st.1, st.2 ++ [node])).
  assert (H0 : (unvisited U st0.1 ≤ fuel)%nat).
  { pose proof (unvisited_add_present U st.1 node Hnd Hnode Hfresh). simpl. lia. }
  assert (Hinner : ∀ ns, (∀ x, x ∈ ns → x ∈ U) → ∀ st1, (unvisited U st1.1 ≤ fuel)%nat →
            ∃ st', fold_left
                     (λ acc neighbor,
                        match acc with
                        | Some st => if decide (neighbor ∈ st.1) then Some st
                                     else page_dfs fuel G neighbor st
                        | None => None
                        end) ns (Some st1) = Some st' ∧ st1.1 ⊆ st'.1).
  { induction ns as [|n ns IHn]; intros Hns st1 H1; [by exists st1|].
    cbn [fold_left]. destruct (decide (n ∈ st1.1)) as [Hin|Hin].
    - apply IHn; [|done]. intros x Hx. apply Hns. by right.
    - destruct (IHf n st1) as (st2 & -> & Hsub); [apply Hns; left|done..|].
      destruct (IHn (λ x Hx, Hns x (list_elem_of_further _ _ _ Hx)) st2) as (st' & Hrun & Hsub').
      { pose proof (unvisited_mono U _ _ Hsub). lia. }
      exists st'. split; [done|]. set_solver. }
  destruct (Hinner (neighbors G node) (λ x Hx, HU node x Hx) st0 H0) as (st' & Hrun & Hsub).
  exists st'. split; [done|]. subst st0. simpl in Hsub. set_solver.
Qed.

Lemma page_find_clusters_total (G : gmap string (list string)) (U : list string)
    (minSize : Z) :
  NoDup U → (∀ n x, x ∈ neighbors G n → x ∈ U) →
  ∀ todo visited found id, (∀ x, x ∈ todo → x ∈ U) →
  ∃ cl, page_find_clusters (S (length U)) G minSize todo visited found id = Some cl.
Proof. without_host.
  intros Hnd HU. induction todo as [|node todo IH]; intros visited found id Htodo.
  { by eexists. }
  assert (Htodo' : ∀ x, x ∈ todo → x ∈ U) by (intros; apply Htodo; by right).
  cbn [page_find_clusters]. case_decide as Hv; [by apply IH|].
  destruct (page_dfs_total G U Hnd HU (S (length U)) node (visited, []))
    as ([visited' component] & -> & _); [apply Htodo; left|done| |].
  { unfold unvisited. simpl. pose proof (length_filter (λ n, n ∉ visited) U). lia. }
  case_match; by apply IH.
Qed.

Lemma page_add_to_bin_outcome (settings : AnalysisSettings) (l : LogEntry)
    (tb : list (Z * list (string * PageBin.info))) :
  (∃ t, Date_parse (timestamp l) = Some t ∧
        valid_time (t / binSizeMs settings * binSizeMs settings) ∧
        page_add_to_bin settings tb l =
        Normal
          (Js.update (t / binSizeMs settings * binSizeMs settings) []
             (Js.update (action l)
                {| PageBin.count := 0; PageBin.actors := []; PageBin.targets := [] |}
                (page_bump l))
             tb)) ∨
  page_add_to_bin settings tb l = Throw (RangeError "Invalid time value").
Proof.
  unfold page_add_to_bin. destruct (Date_parse (timestamp l)) as [t|] eqn:E; [|by right].
  cbn [bin_of].
  destruct (Date_toISOString (Some (t / binSizeMs settings * binSizeMs settings)))
    as [k| |] eqn:Hk.
  - apply Date_toISOString_Normal in Hk as [[= <-] Hv]. left. by exists t.
  - destruct (Date_toISOString_outcome
                (Some (t / binSizeMs settings * binSizeMs settings))) as [[k Hk']|Hk'];
      [congruence|]. right. congruence.
  - destruct (Date_toISOString_outcome
                (Some (t / binSizeMs settings * binSizeMs settings))) as [[k Hk']|Hk'];
      congruence.
Qed.

Lemma page_timeBins_parsed (settings : AnalysisSettings) (data : list LogEntry)
    (tb : list (Z * list (string * PageBin.info))) :
  (∀ l, l ∈ data → ∃ b, bucket settings l = Some b ∧ valid_time b) →
  ∃ tb', forEach_throwing (page_add_to_bin settings) data tb = Normal tb'.
Proof.
  revert tb. induction data as [|l data IH]; intros tb Hall; [by eexists|].
  destruct (Hall l) as (b & Hb & Hv); [by left|].
  cbn [forEach_throwing].
  destruct (page_add_to_bin_outcome settings l tb) as [(t & _ & _ & ->)|Hthrow].
  - apply IH. intros l' Hl'. apply Hall. by right.
  - unfold page_add_to_bin in Hthrow. unfold bucket in Hb. rewrite Hb in Hthrow.
    assert (Hk : Date_toISOString (Some b) = Normal b) by (by apply Date_toISOString_Normal).
    by rewrite Hk in Hthrow.
Qed.

Lemma page_timeBins_unparsed (settings : AnalysisSettings) (data : list LogEntry)
    (tb : list (Z * list (string * PageBin.info))) (l : LogEntry) :
  l ∈ data → Date_parse (timestamp l) = None →
  forEach_throwing (page_add_to_bin settings) data tb = Throw (RangeError "Invalid time value").
Proof.
  revert tb. induction data as [|l' data IH]; intros tb Hin Hl; [by apply elem_of_nil in Hin|].
  cbn [forEach_throwing].
  destruct (page_add_to_bin_outcome settings l' tb) as [(t & E & _ & ->)| ->]; [|done].
  apply IH; [|done]. apply elem_of_cons in Hin as [->|?]; [congruence|done].
Qed.

Lemma page_push_wave_Normal (settings : AnalysisSettings)
    (cells : list (Z * string * PageBin.info)) (acc ws : list WaveResult) :
  forEach_throwing (page_push_wave settings) cells acc = Normal ws ↔
  ws = acc ++ map (λ '(time, action, info), page_wave settings time action info) cells ∧
  Forall (λ c, valid_time (c.1.1 + binSizeMs settings)) cells.
Proof. without_host.
  revert acc. induction cells as [|[[time action] info] cells IH]; intros acc.
  - cbn [forEach_throwing map]. rewrite app_nil_r. split.
    + intros [= <-]. by split.
    + by intros [-> _].
  - cbn [forEach_throwing page_push_wave].
    destruct (Date_toISOString (Some (time + binSizeMs settings))) as [k| |] eqn:E.
    + apply Date_toISOString_Normal in E as [[= <-] Hv]. rewrite IH.
      rewrite Forall_cons. cbn [map fst]. rewrite <- app_assoc. cbn [app]. unfold page_wave.
      tauto.
    + split; [done|]. rewrite Forall_cons. intros (_ & Hv & _).
      assert (Hn : Date_toISOString (Some (time + binSizeMs settings))
                   = Normal (time + binSizeMs settings))
        by (by apply Date_toISOString_Normal).
      congruence.
    + destruct (Date_toISOString_outcome (Some (time + binSizeMs settings))) as [[k Hk]|Hk];
        congruence.
Qed.

Lemma page_waves_Normal (settings : AnalysisSettings)
    (tb : list (Z * list (string * PageBin.info))) (ws : list WaveResult) :
  page_waves settings tb = Normal ws ↔
  ws = page_waves_of settings tb ∧
  Forall (λ c, valid_time (c.1.1 + binSizeMs settings)) (page_wave_cells settings tb).
Proof. without_host. unfold page_waves, page_waves_of. by rewrite page_push_wave_Normal. Qed.

Lemma page_waves_not_Diverge (settings : AnalysisSettings)
    (tb : list (Z * list (string * PageBin.info))) :
  page_waves settings tb ≠ Diverge.
Proof. without_host.
  unfold page_waves. generalize (@nil WaveResult).
  induction (page_wave_cells settings tb) as [|[[time action] info] cells IH]; intros acc;
    [done|].
  cbn [forEach_throwing page_push_wave].
  destruct (Date_toISOString_outcome (Some (time + binSizeMs settings))) as [[k ->]| ->];
    [apply IH|done].
Qed.

Lemma processData_clusters (settings : AnalysisSettings) (data : list LogEntry) :
  ∃ clustersList,
    page_detect_clusters (page_graph (collect_nodes data) (collect_edges settings data))
      (minClusterSize settings) (collect_nodes data) = Some clustersList.
Proof. without_host.
  apply page_find_clusters_total; [apply collect_nodes_NoDup| |done].
  intros n x. apply page_graph_nodes.
Qed.

Lemma page_group_snoc (settings : AnalysisSettings) (data : list LogEntry) (l : LogEntry)
    (b : Z) (a : string) :
  page_group settings (data ++ [l]) b a =
  page_group settings data b a ++
  (if decide (bucket settings l = Some b ∧ action l = a) then [l] else []).
Proof. without_host. unfold page_group. by rewrite filter_app. Qed.

Lemma page_group_info_snoc (g : list LogEntry) (l : LogEntry) :
  page_bump l (default {| PageBin.count := 0; PageBin.actors := []; PageBin.targets := [] |}
                 (if decide (g = []) then None else Some (page_group_info g)))
  = page_group_info (g ++ [l]).
Proof. without_host.
  unfold page_bump, page_group_info, actors_in_order, targets_in_order.
  rewrite !fold_left_app, length_app. simpl.
  case_decide as Hg; simpl.
  - subst. done.
  - f_equal. lia.
Qed.

(** What the [timeBins] of the page hold once the log has been bucketed. *)
Lemma page_timeBins_spec (settings : AnalysisSettings) (data : list LogEntry)
    (tb : list (Z * list (string * PageBin.info))) :
  page_timeBins settings data = Normal tb →
  NoDup tb.*1 ∧ Forall (λ kv, NoDup kv.2.*1) tb ∧
  ∀ b a, page_cell tb b a =
         if decide (page_group settings data b a = []) then None
         else Some (page_group_info (page_group settings data b a)).
Proof. without_host.
  unfold page_timeBins. revert tb.
  induction data as [|l data IH] using rev_ind; intros tb.
  - intros [= <-]. split_and!; [apply NoDup_nil_2|constructor|done].
  - rewrite forEach_throwing_snoc.
    destruct (forEach_throwing (page_add_to_bin settings) data []) as [tb0| |]; try done.
    destruct (IH tb0 eq_refl) as (Hnd & Hall & Hcell).
    destruct (page_add_to_bin_outcome settings l tb0) as [(ts & E & _ & ->)| ->]; [|done].
    intros [= <-]. split_and!.
    + by apply NoDup_keys_update.
    + apply (Forall_update (λ acts : list (string * PageBin.info), NoDup acts.*1)); [done| |].
      * apply NoDup_singleton.
      * intros acts ?. by apply NoDup_keys_update.
    + intros b a. rewrite page_group_snoc. unfold page_cell in *. rewrite get_update.
      assert (Hb : bucket settings l = Some (ts / binSizeMs settings * binSizeMs settings)).
      { unfold bucket. by rewrite E. }
      destruct (decide (ts / binSizeMs settings * binSizeMs settings = b)) as [<-|Hne].
      * cbn [default from_option]. unfold id. rewrite get_update.
        destruct (decide (action l = a)) as [<-|Hna].
        -- rewrite (decide_True (P := bucket settings l = _ ∧ _)) by done.
           rewrite Hcell, page_group_info_snoc.
           rewrite decide_False; [done|]. by intros [_ ?]%app_eq_nil.
        -- rewrite (decide_False (P := bucket settings l = _ ∧ _)), app_nil_r by tauto.
           apply Hcell.
      * rewrite (decide_False (P := bucket settings l = _ ∧ _)), app_nil_r.
        -- apply Hcell.
        -- rewrite Hb. intros [[= ?] _]. done.
Qed.

Lemma page_wave_cells_elem (settings : AnalysisSettings)
    (tb : list (Z * list (string * PageBin.info))) (b : Z) (a : string)
    (info : PageBin.info) :
  NoDup tb.*1 → Forall (λ kv, NoDup kv.2.*1) tb →
  (b, a, info) ∈ page_wave_cells settings tb ↔
  page_cell tb b a = Some info ∧ waveMinCount settings ≤ PageBin.count info.
Proof. without_host.
  intros Hnd Hall. rewrite Forall_forall in Hall.
  unfold page_wave_cells, page_cell. rewrite list_elem_of_In, in_flat_map. split.
  - intros ([b' actions] & Hb & ([a' info'] & Ha & Hw)%in_flat_map).
    apply list_elem_of_In in Hb, Ha. rewrite elem_of_Object_entries in Ha.
    destruct (Z.leb_spec (waveMinCount settings) (PageBin.count info')) as [Hle|]; [|done].
    destruct Hw as [[= <- <- <-]|[]]. split; [|done].
    rewrite (elem_of_get _ _ _ Hnd Hb). simpl. apply elem_of_get; [|done]. apply (Hall _ Hb).
  - intros [Hcell Hle].
    destruct (Js.get b tb) as [actions|] eqn:Eb; [|done]. simpl in Hcell.
    apply get_elem_of in Eb, Hcell. exists (b, actions). split; [by apply list_elem_of_In|].
    apply in_flat_map. exists (a, info).
    split; [by apply list_elem_of_In, elem_of_Object_entries|].
    destruct (Z.leb_spec (waveMinCount settings) (PageBin.count info)); [by left|lia].
Qed.

Lemma page_waves_elem (settings : AnalysisSettings)
    (tb : list (Z * list (string * PageBin.info))) (w : WaveResult) :
  NoDup tb.*1 → Forall (λ kv, NoDup kv.2.*1) tb →
  w ∈ page_waves_of settings tb ↔
  ∃ b a info, page_cell tb b a = Some info ∧ waveMinCount settings ≤ PageBin.count info ∧
              w = page_wave settings b a info.
Proof. without_host.
  intros Hnd Hall. unfold page_waves_of. rewrite list_elem_of_fmap. split.
  - intros ([[b a] info] & -> & [Hc Hle]%page_wave_cells_elem); [|done..].
    by exists b, a, info.
  - intros (b & a & info & Hc & Hle & ->). exists (b, a, info). split; [done|].
    by apply page_wave_cells_elem.
Qed.

Lemma targets_in_order_head (g : list LogEntry) (l : LogEntry) :
  ∃ rest, targets_in_order (l :: g) = target l :: rest.
Proof. without_host.
  unfold targets_in_order. cbn [fold_left]. change (Js.Set_add (target l) []) with [target l].
  generalize (@nil string). induction g as [|l' g IH]; intros s; [by eexists|].
  cbn [fold_left]. unfold Js.Set_add at 2. case_decide; [apply IH|].
  change (target l :: s ++ [target l']) with (target l :: (s ++ [target l'])). apply IH.
Qed.

Lemma processData_Normal (settings : AnalysisSettings) (data : list LogEntry)
    (effects : list PageEffect) :
  processData settings data = Normal effects →
  (∀ ws cards, (setWaves ws ∉ effects) ∧ (setScorecards cards ∉ effects)) ∨
  (∃ cl tb,
     page_detect_clusters (page_graph (collect_nodes data) (collect_edges settings data))
       (minClusterSize settings) (collect_nodes data) = Some cl ∧
     page_timeBins settings data = Normal tb ∧
     (∀ ws, setWaves ws ∈ effects → ws = page_waves_of settings tb) ∧
     (∀ cards, setScorecards cards ∈ effects →
        cards = map (page_scorecard (collect_profiles data)
                       (collect_links (collect_profiles data)))
                  (Js.Object_values
                     (page_actorStats settings data (collect_nodes data)
                        (page_graph (collect_nodes data) (collect_edges settings data))
                        cl tb)))).
Proof.
  assert (Hnone : ∀ shown cl ws cards,
            (setWaves ws ∉ [setElements shown; setClusters cl;
                            alert "Error processing data. Check console for details."]) ∧
            (setScorecards cards ∉ [setElements shown; setClusters cl;
                            alert "Error processing data. Check console for details."])).
  { intros shown cl ws cards. split; intros Hin;
      repeat (apply elem_of_cons in Hin as [Hin|Hin]; try done); by apply elem_of_nil in Hin. }
  unfold processData. destruct (page_detect_clusters _ _ _) as [cl|]; [|done].
  destruct (page_timeBins settings data) as [tb|e|] eqn:Htb; [| |done].
  - destruct (page_waves settings tb) as [ws0|e|] eqn:Hws; [| |done].
    + apply page_waves_Normal in Hws as [-> _].
      intros [= <-]. right. exists cl, tb. split_and!; [done..| |].
      * intros ws Hin. repeat (apply elem_of_cons in Hin as [Hin|Hin]; try done).
        -- by injection Hin.
        -- by apply elem_of_nil in Hin.
      * intros cards Hin. repeat (apply elem_of_cons in Hin as [Hin|Hin]; try done).
        -- by injection Hin.
        -- by apply elem_of_nil in Hin.
    + intros [= <-]. left. apply Hnone.
  - intros [= <-]. left. apply Hnone.
Qed.

(** Every bin of the page's [timeBins] is the bucket of an event. *)
Lemma page_wave_cells_buckets (settings : AnalysisSettings) (data : list LogEntry)
    (tb : list (Z * list (string * PageBin.info))) (c : Z * string * PageBin.info) :
  page_timeBins settings data = Normal tb → c ∈ page_wave_cells settings tb →
  ∃ l, l ∈ data ∧ bucket settings l = Some c.1.1.
Proof. without_host.
  intros Htb Hc. destruct c as [[b a] info].
  destruct (page_timeBins_spec settings data tb Htb) as (Hnd & Hall & Hcell).
  apply page_wave_cells_elem in Hc as [Hc _]; [|done..].
  rewrite Hcell in Hc. case_decide as Hg; [done|].
  destruct (page_group settings data b a) as [|l g] eqn:E; [done|].
  assert (Hl : l ∈ page_group settings data b a) by (rewrite E; left).
  unfold page_group in Hl. apply list_elem_of_filter in Hl as [[Hb _] Hl]. by exists l.
Qed.

(** X27: what [processData] of the page does to its state, for a log with
    plain keys.  When every timestamp parses and every window lies within
    the range of Date it sets the elements, the clusters, the waves and the
    scorecards, in this order, and raises no alert.  When a timestamp does
    not parse it has already set the elements and the clusters when the
    exception is caught: it raises the alert and leaves the waves and the
    scorecards as they were.  The elements are those that the engine
    returns for the same log. *)
Theorem processData_effects (settings : AnalysisSettings) (data : list LogEntry) :
  let shown :=
    map (λ id, NodeElement id id) (collect_nodes data) ++
    map EdgeElement (collect_edges settings data) in
  plain_keys data →
  ((∀ l, l ∈ data → is_Some (Date_parse (timestamp l))) →
   within_Date_range settings data →
   ∃ clustersList waves cards,
     processData settings data =
     Normal [setElements shown; setClusters clustersList; setWaves waves;
             setScorecards cards]) ∧
  ((∃ l, l ∈ data ∧ Date_parse (timestamp l) = None) →
   ∃ clustersList,
     processData settings data =
     Normal [setElements shown; setClusters clustersList;
             alert "Error processing data. Check console for details."]) ∧
  (∀ res, (analyzeLogs data settings).2 = Normal res → elements res = shown).
Proof.
  intros shown _. destruct (processData_clusters settings data) as [cl Hcl].
  unfold processData. rewrite Hcl. split_and!.
  - intros Hall Hrange. destruct (page_timeBins_parsed settings data []) as [tb Htb].
    { intros l Hl. destruct (Hall l Hl) as [t Ht].
      assert (Hb : bucket settings l = Some (t / binSizeMs settings * binSizeMs settings))
        by (unfold bucket; by rewrite Ht).
      eexists. split; [done|]. by apply (Hrange l _ Hl Hb). }
    fold (page_timeBins settings data) in Htb. rewrite Htb.
    assert (Hws : page_waves settings tb = Normal (page_waves_of settings tb)).
    { apply page_waves_Normal. split; [done|]. apply Forall_forall. intros c Hc.
      destruct (page_wave_cells_buckets settings data tb c Htb Hc) as (l & Hl & Hb).
      by apply (Hrange l _ Hl Hb). }
    rewrite Hws. by eexists _, _, _.
  - intros (l & Hl & Hnone). unfold page_timeBins.
    rewrite (page_timeBins_unparsed settings data [] l Hl Hnone). by eexists.
  - intros res Hres. by apply analyzeLogs_elements.
Qed.

(** X28: the waves of the page are taken per time bin and action, whatever
    the targets: a wave is set for a bin and an action exactly when the
    events of that bin with that action number at least [waveMinCount];
    its actors are all actors of these events, and the target it names is
    the target of the first of them. *)
Theorem page_waves_per_bin_and_action (settings : AnalysisSettings) (data : list LogEntry)
    (effects : list PageEffect) (ws : list WaveResult) :
  processData settings data = Normal effects → setWaves ws ∈ effects →
  (∀ b a, page_group settings data b a ≠ [] →
     (∃ w, w ∈ ws ∧ Wave.windowStart w = b ∧ Wave.action w = a) ↔
     waveMinCount settings ≤ Z.of_nat (length (page_group settings data b a))) ∧
  (∀ w, w ∈ ws →
     let g := page_group settings data (Wave.windowStart w) (Wave.action w) in
     (∃ l g', g = l :: g' ∧ Wave.target w = target l) ∧
     (∀ x, x ∈ Wave.actors w ↔ ∃ l, l ∈ g ∧ actor l = x)).
Proof.
  intros Hrun Hws.
  destruct (processData_Normal _ _ _ Hrun) as [Hno|(cl & tb & _ & Htb & Hw & _)].
  { by destruct (proj1 (Hno ws [])). }
  rewrite (Hw ws Hws). clear Hw Hws.
  destruct (page_timeBins_spec settings data tb Htb) as (Hnd & Hall & Hcell). split.
  - intros b a Hg. split.
    + intros (w & (b' & a' & info & Hc & Hle & ->)%page_waves_elem & <- & <-); [|done..].
      simpl in *. rewrite Hcell, decide_False in Hc by done. by injection Hc as <-.
    + intros Hle. exists (page_wave settings b a (page_group_info (page_group settings data b a))).
      split; [|done]. apply page_waves_elem; [done..|].
      exists b, a, (page_group_info (page_group settings data b a)).
      split_and!; [|done..]. by rewrite Hcell, decide_False.
  - intros w (b & a & info & Hc & Hle & ->)%page_waves_elem; [|done..].
    cbn [page_wave Wave.windowStart Wave.action Wave.target Wave.actors]. cbn zeta.
    rewrite Hcell in Hc. case_decide as Hg; [done|]. injection Hc as <-.
    cbn [page_group_info first_target PageBin.targets PageBin.actors]. split.
    + destruct (page_group settings data b a) as [|l g'] eqn:E; [done|].
      exists l, g'. split; [done|]. unfold first_target, page_group_info.
      cbn [PageBin.targets]. by destruct (targets_in_order_head g' l) as [rest ->].
    + intros x. destruct (actors_in_order_spec (page_group settings data b a)) as [_ Hin].
      rewrite Hin, list_elem_of_fmap. naive_solver.
Qed.

(** ** The page: logSummary *)

Lemma summarise_fold (logs : list LogEntry) :
  fold_left summarise logs (∅, ∅, [], []) =
  (list_to_set (actor <$> logs), list_to_set (target <$> logs),
   fold_left (λ o l, Js.update (platform l) 0 (λ n, n + 1) o) logs [],
   fold_left (λ o l, Js.update (action l) 0 (λ n, n + 1) o) logs []).
Proof. without_host.
  induction logs as [|l logs IH] using rev_ind; [done|].
  rewrite !fold_left_app, IH, !fmap_app, !list_to_set_app_L. cbn [fold_left summarise].
  assert (Hset : ∀ (x : string) (X : gset string), {[x]} ∪ X = X ∪ list_to_set [x])
    by set_solver.
  by rewrite !fmap_cons, !fmap_nil, !Hset.
Qed.

Lemma tally_get (field : LogEntry → string) (logs : list LogEntry) (k : string) :
  let o := fold_left (λ o l, Js.update (field l) 0 (λ n, n + 1) o) logs [] in
  NoDup o.*1 ∧
  Js.get k o = if decide (count_by field logs k = 0) then None else Some (count_by field logs k).
Proof. without_host.
  unfold count_by. induction logs as [|l logs IH] using rev_ind.
  { split; [apply NoDup_nil_2|done]. }
  cbn zeta in *. rewrite fold_left_app. cbn [fold_left]. destruct IH as [Hnd Hget].
  split; [by apply NoDup_keys_update|].
  rewrite get_update, filter_app, length_app, filter_cons, filter_nil.
  destruct (decide (field l = k)) as [Hk|Hk].
  - rewrite Hk, Hget. simpl length.
    rewrite (decide_False (P := Z.of_nat (_ + 1) = 0)) by lia.
    case_decide as Hz; simpl; f_equal; lia.
  - simpl length. rewrite Hget, Nat.add_0_r. done.
Qed.

(** X29: the summary that the page shows for the loaded log: the number of
    events, of distinct actors and of distinct targets, and for every
    platform and every action that occurs, and that names no member of
    Object.prototype, the number of events with it; such a platform or
    action has no entry when it does not occur.  (Under a name that the
    tally object inherits, the page adds 1 to the inherited function and
    stores a string.) *)
Theorem logSummary_counts (logs : list LogEntry) :
  let s := logSummary logs in
  Summary.total s = Z.of_nat (length logs) ∧
  Summary.uniqueActors s = Z.of_nat (size (list_to_set (actor <$> logs) : gset string)) ∧
  Summary.uniqueTargets s = Z.of_nat (size (list_to_set (target <$> logs) : gset string)) ∧
  (∀ p, plain p →
        Js.get p (Summary.byPlatform s) =
        if decide (count_by platform logs p = 0) then None
        else Some (count_by platform logs p)) ∧
  (∀ a, plain a →
        Js.get a (Summary.byAction s) =
        if decide (count_by action logs a = 0) then None
        else Some (count_by action logs a)) ∧
  NoDup (Summary.byPlatform s).*1 ∧ NoDup (Summary.byAction s).*1.
Proof. without_host.
  unfold logSummary. rewrite summarise_fold. cbn.
  split_and!; [done..| | | |].
  - intros p _. apply (tally_get platform).
  - intros a _. apply (tally_get action).
  - apply (tally_get platform logs "").
  - apply (tally_get action logs "").
Qed.

(** ** The page: coordination *)

Lemma get_fold_set {V : Type} (f : string → V) (nodes : list string)
    (o : list (string * V)) (k : string) :
  Js.get k (fold_left (λ o node, Js.set node (f node) o) nodes o) =
  if decide (k ∈ nodes) then Some (f k) else Js.get k o.
Proof. without_host.
  revert o. induction nodes as [|n nodes IH]; intros o; [done|].
  cbn [fold_left]. rewrite IH, get_set.
  destruct (decide (k ∈ nodes)) as [Hin|Hin].
  - rewrite decide_True; [done|by right].
  - destruct (decide (n = k)) as [->|Hne].
    + rewrite decide_True; [done|by left].
    + rewrite decide_False; [done|]. rewrite not_elem_of_cons. split; [congruence|done].
Qed.

Lemma NoDup_fold_set {V : Type} (f : string → V) (nodes : list string)
    (o : list (string * V)) :
  NoDup o.*1 → NoDup (fold_left (λ o node, Js.set node (f node) o) nodes o).*1.
Proof. without_host.
  revert o. induction nodes as [|n nodes IH]; intros o Ho; [done|].
  cbn [fold_left]. by apply IH, NoDup_keys_set.
Qed.

Lemma keys_fold_modify {A V : Type} (key : A → string) (f : A → V → V) (xs : list A)
    (o : list (string * V)) :
  (fold_left (λ o x, Js.modify (key x) (f x) o) xs o).*1 = o.*1.
Proof. without_host.
  revert o. induction xs as [|x xs IH]; intros o; [done|].
  cbn [fold_left]. by rewrite IH, keys_modify.
Qed.

Lemma keys_fold_steps {A V : Type} (step : A → list (string * V) → list (string * V))
    (xs : list A) (o : list (string * V)) :
  (∀ x o, (step x o).*1 = o.*1) → (fold_left (λ o x, step x o) xs o).*1 = o.*1.
Proof. without_host.
  intros Hstep. revert o. induction xs as [|x xs IH]; intros o; [done|].
  cbn [fold_left]. by rewrite IH, Hstep.
Qed.

Lemma page_actorStats_keys (settings : AnalysisSettings) (data : list LogEntry)
    (nodes : list string) (G : gmap string (list string)) (cl : list DetailedCluster)
    (tb : list (Z * list (string * PageBin.info))) :
  NoDup (page_actorStats settings data nodes G cl tb).*1.
Proof. without_host.
  unfold page_actorStats.
  rewrite (keys_fold_steps
             (λ actions o,
                fold_left
                  (λ o info,
                     fold_left (λ o actor, Js.modify actor page_count_burst o)
                       (PageBin.actors info) o)
                  (Js.Object_values actions) o)).
  2:{ intros actions o.
      apply (keys_fold_steps
               (λ info o, fold_left (λ o actor, Js.modify actor page_count_burst o)
                            (PageBin.actors info) o)).
      intros info o'. apply (keys_fold_modify id (λ _, page_count_burst)). }
  rewrite (keys_fold_steps
             (λ cluster o,
                fold_left
                  (λ o member,
                     Js.modify member
                       (page_set_clusterSize (Z.of_nat (length (members cluster)))) o)
                  (members cluster) o)).
  2:{ intros c o.
      apply (keys_fold_modify id
               (λ _, page_set_clusterSize (Z.of_nat (length (members c))))). }
  rewrite (keys_fold_modify actor (page_count_action settings)), fold_assign.
  apply NoDup_fold_set, NoDup_nil_2.
Qed.

Lemma page_actorStats_final (settings : AnalysisSettings) (data : list LogEntry)
    (nodes : list string) (G : gmap string (list string)) (cl : list DetailedCluster)
    (tb : list (Z * list (string * PageBin.info))) (k : string) (s : PageStats.ActorStats) :
  (k, s) ∈ page_actorStats settings data nodes G cl tb →
  ∃ s2,
    s = page_bursts k tb s2 ∧ PageStats.actor s2 = k ∧
    PageStats.totalActions s2 = Z.of_nat (length (events_of data k)) ∧
    PageStats.burstActions s2 = 0.
Proof. without_host.
  intros Hin. apply elem_of_get in Hin; [|apply page_actorStats_keys].
  unfold page_actorStats in Hin.
  rewrite (get_fold_steps
             (λ actions o,
                fold_left
                  (λ o info,
                     fold_left (λ o actor, Js.modify actor page_count_burst o)
                       (PageBin.actors info) o)
                  (Js.Object_values actions) o)
             (λ actions v,
                fold_left
                  (λ v info,
                     fold_left (λ v actor, if decide (actor = k) then page_count_burst v else v)
                       (PageBin.actors info) v)
                  (Js.Object_values actions) v)) in Hin.
  2:{ intros actions o.
      apply (get_fold_steps
               (λ info o, fold_left (λ o actor, Js.modify actor page_count_burst o)
                            (PageBin.actors info) o)
               (λ info v,
                  fold_left (λ v actor, if decide (actor = k) then page_count_burst v else v)
                    (PageBin.actors info) v)).
      intros info o'.
      apply (get_fold_steps (λ actor o, Js.modify actor page_count_burst o)
               (λ actor v, if decide (actor = k) then page_count_burst v else v)).
      intros; apply get_modify_at. }
  rewrite (get_fold_steps
             (λ c o, fold_left
                       (λ o m, Js.modify m
                                 (page_set_clusterSize (Z.of_nat (length (members c)))) o)
                       (members c) o)
             (λ c v, fold_left
                       (λ v m, if decide (m = k)
                               then page_set_clusterSize (Z.of_nat (length (members c))) v
                               else v)
                       (members c) v)) in Hin.
  2:{ intros c o.
      apply (get_fold_steps
               (λ m o, Js.modify m (page_set_clusterSize (Z.of_nat (length (members c)))) o)
               (λ m v, if decide (m = k)
                       then page_set_clusterSize (Z.of_nat (length (members c))) v else v)).
      intros; apply get_modify_at. }
  rewrite (get_fold_steps
             (λ l o, Js.modify (actor l) (page_count_action settings l) o)
             (λ l v, if decide (actor l = k) then page_count_action settings l v else v)) in Hin
    by (intros; apply get_modify_at).
  rewrite fold_assign, get_fold_set in Hin. case_decide as Hk; [|done].
  cbn [fmap option_fmap option_map] in Hin. injection Hin as <-.
  set (s1 := fold_left (λ v l, if decide (actor l = k) then page_count_action settings l v else v)
               data (page_initial_stats G k)).
  set (s2 := fold_left _ cl s1). exists s2. split; [done|].
  assert (H2 : ∀ {C : Type} (proj : PageStats.ActorStats → C),
            (∀ n v, proj (page_set_clusterSize n v) = proj v) → proj s2 = proj s1).
  { intros C proj Hproj. subst s2.
    apply (fold_left_preserves proj
             (λ c v, fold_left
                       (λ v m, if decide (m = k)
                               then page_set_clusterSize (Z.of_nat (length (members c))) v
                               else v)
                       (members c) v)).
    intros c v.
    apply (fold_left_preserves proj
             (λ m v, if decide (m = k)
                     then page_set_clusterSize (Z.of_nat (length (members c))) v else v)).
    intros m v'. by case_decide. }
  rewrite (H2 _ PageStats.actor), (H2 _ PageStats.totalActions),
    (H2 _ PageStats.burstActions) by done.
  subst s1. clear.
  assert (Hgen : ∀ v,
            let s := fold_left (λ v l, if decide (actor l = k)
                                       then page_count_action settings l v else v) data v in
            PageStats.actor s = PageStats.actor v ∧
            PageStats.totalActions s =
              PageStats.totalActions v + Z.of_nat (length (events_of data k)) ∧
            PageStats.burstActions s = PageStats.burstActions v).
  { induction data as [|l data IH] using rev_ind; intros v.
    - cbn. split_and!; [done|lia|done].
    - cbn zeta. rewrite fold_left_app, events_of_snoc, length_app. cbn [fold_left].
      destruct (IH v) as (Ha & Ht & Hb). case_decide.
      + cbn [page_count_action PageStats.actor PageStats.totalActions PageStats.burstActions].
        rewrite Ha, Ht, Hb. simpl length. split_and!; [done|lia|done].
      + rewrite Ha, Ht, Hb. simpl length. split_and!; [done|lia|done]. }
  destruct (Hgen (page_initial_stats G k)) as (Ha & Ht & Hb). rewrite Ha, Ht, Hb.
  cbn [page_initial_stats PageStats.actor PageStats.totalActions PageStats.burstActions].
  split_and!; [done|lia|done].
Qed.

Lemma page_bursts_spec (k : string) (tb : list (Z * list (string * PageBin.info)))
    (v : PageStats.ActorStats) :
  PageStats.actor (page_bursts k tb v) = PageStats.actor v ∧
  PageStats.totalActions (page_bursts k tb v) = PageStats.totalActions v ∧
  PageStats.burstActions v ≤ PageStats.burstActions (page_bursts k tb v) ∧
  ((∃ b actions a info, (b, actions) ∈ tb ∧ (a, info) ∈ actions ∧ k ∈ PageBin.actors info) →
   PageStats.burstActions v + 1 ≤ PageStats.burstActions (page_bursts k tb v)).
Proof. without_host.
  assert (Hinner : ∀ actors v,
            let s := fold_left (λ v actor, if decide (actor = k) then page_count_burst v else v)
                       actors v in
            PageStats.actor s = PageStats.actor v ∧
            PageStats.totalActions s = PageStats.totalActions v ∧
            PageStats.burstActions v ≤ PageStats.burstActions s ∧
            (k ∈ actors → PageStats.burstActions v + 1 ≤ PageStats.burstActions s)).
  { induction actors as [|x actors IH]; intros v'.
    - cbn. split_and!; [done|done|lia|by intros ?%elem_of_nil].
    - cbn zeta. cbn [fold_left].
      destruct (IH (if decide (x = k) then page_count_burst v' else v')) as (Ha & Ht & Hb & Hk).
      rewrite Ha, Ht. case_decide as Hx; cbn in *.
      + split_and!; [done|done|lia|]. intros _. lia.
      + split_and!; [done|done|lia|]. intros [->|Hin]%elem_of_cons; [done|]. by apply Hk. }
  assert (Hmid : ∀ infos v,
            let s := fold_left
                       (λ v info,
                          fold_left (λ v actor, if decide (actor = k) then page_count_burst v
                                                else v) (PageBin.actors info) v)
                       infos v in
            PageStats.actor s = PageStats.actor v ∧
            PageStats.totalActions s = PageStats.totalActions v ∧
            PageStats.burstActions v ≤ PageStats.burstActions s ∧
            ((∃ info, info ∈ infos ∧ k ∈ PageBin.actors info) →
             PageStats.burstActions v + 1 ≤ PageStats.burstActions s)).
  { induction infos as [|info infos IH]; intros v'.
    - cbn. split_and!; [done|done|lia|by intros (? & ?%elem_of_nil & _)].
    - cbn zeta. cbn [fold_left].
      destruct (Hinner (PageBin.actors info) v') as (Ha & Ht & Hb & Hk). cbn zeta in *.
      set (v1 := fold_left _ (PageBin.actors info) v') in *.
      destruct (IH v1) as (Ha' & Ht' & Hb' & Hk'). cbn zeta in *.
      rewrite Ha', Ht', Ha, Ht. split_and!; [done|done|lia|].
      intros (info' & [->|Hin]%elem_of_cons & Hkin).
      + specialize (Hk Hkin). lia.
      + assert (PageStats.burstActions v1 + 1 ≤ PageStats.burstActions (fold_left
           (λ v info, fold_left (λ v actor, if decide (actor = k) then page_count_burst v else v)
                        (PageBin.actors info) v) infos v1)) by (apply Hk'; eauto).
        lia. }
  unfold page_bursts. revert v. induction tb as [|[b actions] tb IH]; intros v.
  - cbn. split_and!; [done|done|lia|by intros (? & ? & ? & ? & ?%elem_of_nil & _)].
  - cbn [map fold_left snd].
    destruct (Hmid (Js.Object_values actions) v) as (Ha & Ht & Hb & Hk). cbn zeta in *.
    set (v1 := fold_left _ (Js.Object_values actions) v) in *.
    destruct (IH v1) as (Ha' & Ht' & Hb' & Hk').
    rewrite Ha', Ht', Ha, Ht. split_and!; [done|done|lia|].
    intros (b' & actions' & a & info & [[= -> ->]|Hin]%elem_of_cons & Hai & Hkin).
    + assert (PageStats.burstActions v + 1 ≤ PageStats.burstActions v1); [|lia].
      apply Hk. exists info. split; [|done]. apply elem_of_Object_values. by exists a.
    + assert (PageStats.burstActions v1 + 1
              ≤ PageStats.burstActions
                  (fold_left
                     (λ v actions,
                        fold_left
                          (λ v info,
                             fold_left (λ v actor, if decide (actor = k)
                                                   then page_count_burst v else v)
                               (PageBin.actors info) v)
                          (Js.Object_values actions) v)
                     (map snd tb) v1)); [|lia].
      apply Hk'. by exists b', actions', a, info.
Qed.

(** X30: on the page the coordination score has no threshold: the bursts of
    an actor are counted over every (bin, action) cell the actor occurs in,
    so the score is positive for every actor with at least one event and 0
    only for ids that occur as targets alone.  The novelty score of the
    page is always 0. *)
Theorem page_coordination_has_no_threshold (settings : AnalysisSettings)
    (data : list LogEntry) (effects : list PageEffect)
    (cards : list PageCard.ActorScorecard) (sc : PageCard.ActorScorecard) :
  processData settings data = Normal effects → setScorecards cards ∈ effects → sc ∈ cards →
  PageCard.noveltyScore sc = 0%Q ∧
  ((0 < PageCard.coordinationScore sc)%Q ↔ events_of data (PageCard.actor sc) ≠ []).
Proof.
  intros Hrun Hcards Hsc.
  destruct (processData_Normal _ _ _ Hrun) as [Hno|(cl & tb & _ & Htb & _ & Hc)].
  { by destruct (proj2 (Hno [] cards)). }
  rewrite (Hc cards Hcards) in Hsc. clear Hc Hcards.
  apply list_elem_of_In, in_map_iff in Hsc as (s & <- & Hs).
  apply list_elem_of_In, elem_of_Object_values in Hs as [k Hk].
  apply page_actorStats_final in Hk as (s2 & -> & Ha & Ht & Hb).
  destruct (page_bursts_spec k tb s2) as (Ha' & Ht' & Hb' & Hk').
  cbn [page_scorecard PageCard.noveltyScore PageCard.coordinationScore PageCard.actor].
  rewrite Ha', Ht', Ha, Ht. split; [done|].
  destruct (events_of data k) as [|l ev] eqn:E.
  - change (0 <? Z.of_nat (length [])) with false. cbv iota. split; [done|]. by intros [].
  - replace (0 <? Z.of_nat (length (l :: ev))) with true
      by (symmetry; apply Z.ltb_lt; simpl length; lia).
    split; [done|]. intros _. apply ratio_pos; [simpl length; lia|].
    assert (PageStats.burstActions s2 + 1 ≤ PageStats.burstActions (page_bursts k tb s2)); [|lia].
    apply Hk'.
    assert (Hl : l ∈ data ∧ actor l = k).
    { assert (Hin : l ∈ events_of data k) by (rewrite E; left).
      apply list_elem_of_filter in Hin as [? ?]. done. }
    destruct Hl as [Hl Hlk].
    destruct (page_timeBins_spec settings data tb Htb) as (Hnd & Hall & Hcell).
    assert (Hparsed : is_Some (Date_parse (timestamp l))).
    { destruct (Date_parse (timestamp l)) as [t|] eqn:Et; [by eexists|].
      unfold page_timeBins in Htb.
      by rewrite (page_timeBins_unparsed settings data [] l Hl Et) in Htb. }
    destruct Hparsed as [t Ht0].
    set (b := t / binSizeMs settings * binSizeMs settings).
    assert (Hg : l ∈ page_group settings data b (action l)).
    { apply list_elem_of_filter. split; [|done]. split; [|done]. unfold bucket. by rewrite Ht0. }
    specialize (Hcell b (action l)). rewrite decide_False in Hcell
      by (intros E'; rewrite E' in Hg; by apply elem_of_nil in Hg).
    unfold page_cell in Hcell.
    destruct (Js.get b tb) as [actions|] eqn:Eb; [|done]. simpl in Hcell.
    apply get_elem_of in Eb, Hcell.
    exists b, actions, (action l), (page_group_info (page_group settings data b (action l))).
    split_and!; [done..|]. cbn [page_group_info PageBin.actors].
    apply actors_in_order_spec, list_elem_of_fmap. by exists l.
Qed.

End Engine.

(** * The engine on the reference host *)

Local Notation "'on_host' f" :=
  (f Host.Date_parse Host.Date_now Host.normalizeLinks Host.extractLinks
     Host.updateProfileAnomalyScore) (at level 10, f at level 9, only parsing).

(** Hand the result of a completed run to a continuation. *)
Ltac with_result H k :=
  lazymatch type of H with _ = Normal ?r => k r end.

(** Decide that the keys of a given log are plain. *)
Ltac keys_are_plain :=
  apply (@bool_decide_unpack _ (plain_keys_dec _)); vm_compute; exact I.

(** Cleaning the imported rows keeps the first one, trimmed. *)
Lemma sanitizeLogs_rows_clean_witness :
  event "2024-01-01T00:00:00Z" "a" "b" "follow" ∈ (sanitizeLogs Host.Date_parse imported).1 ∧
  Js.trim "a" ≠ "" ∧ (∃ ms, Host.Date_parse "2024-01-01T00:00:00Z" = Some ms).
Proof.
  assert (H : event "2024-01-01T00:00:00Z" "a" "b" "follow"
              ∈ (sanitizeLogs Host.Date_parse imported).1)
    by (vm_compute; apply list_elem_of_here).
  split; [exact H|].
  destruct (sanitizeLogs_rows_clean Host.Date_parse imported _ H)
    as (_ & Ha & _ & _ & _ & Hms & _).
  split; [exact Ha|exact Hms].
Defined.

(** Rounding does not disturb the extremes of the composite: in binary64
    the weights add up to exactly 1, all sub-scores at 0 give 0 and all at 1
    (a churn count of 10 or more) give exactly 1. *)
Lemma composite_extremes_binary64 :
  (0.30 + 0.20 + 0.15 + 0.10 + 0.10 + 0.15)%float = 1%float ∧
  Binary64.composite 0 0 0 0 0 0 = 0%float ∧
  Binary64.composite 1 10 1 1 1 1 = 1%float ∧
  Binary64.composite 1 25 1 1 1 1 = 1%float.
Proof. repeat split; vm_compute; reflexivity. Qed.

(** The composite of every scorecard of the follow wave. *)
Lemma sybilScore_weighted_sum_witness :
  ∃ res sc,
    (on_host analyzeLogs follow_wave sample_settings).2 = Normal res ∧
    sc ∈ scorecards res ∧
    (Card.sybilScore sc =
       0.30 * Card.coordinationScore sc + 0.20 * Qmin (Card.churnScore sc / 10) 1 +
       0.15 * Card.clusterIsolationScore sc + 0.10 * Card.newAccountScore sc +
       0.10 * Card.lowDiversityScore sc + 0.15 * Card.profileAnomalyScore sc)%Q.
Proof.
  eassert (Hres : (on_host analyzeLogs follow_wave sample_settings).2 = Normal _)
    by (vm_compute; reflexivity).
  with_result Hres
    ltac:(fun r => eassert (Hsc : _ ∈ scorecards r)
                     by (cbn [scorecards]; apply list_elem_of_here)).
  eexists _, _. split; [exact Hres|]. split; [exact Hsc|].
  exact (proj1 (on_host sybilScore_weighted_sum follow_wave sample_settings _ _ Hres Hsc)).
Defined.

(** A cancel of the active request, then work for another request. *)
Lemma cancel_silences_request_witness :
  (∀ logs settings,
     AnalyzeMessage "r1" logs settings
       ∉ [AnalyzeMessage "r2" follow_wave sample_settings; CancelMessage "r2"]) ∧
  on_host onmessage (Some "r1") (CancelMessage "r1") = (None, []) ∧
  (ProgressMessage "r2" Stage.start 0
     ∈ (on_host handle_all (Some "r1")
          [CancelMessage "r1"; AnalyzeMessage "r2" follow_wave sample_settings;
           CancelMessage "r2"]).2 →
   "r2" ≠ "r1").
Proof.
  assert (H : ∀ logs settings,
            AnalyzeMessage "r1" logs settings
              ∉ [AnalyzeMessage "r2" follow_wave sample_settings; CancelMessage "r2"]).
  { intros logs settings Hin.
    apply elem_of_cons in Hin as [Heq|Hin]; [discriminate Heq|].
    apply elem_of_cons in Hin as [Heq|Hin]; [discriminate Heq|].
    by apply elem_of_nil in Hin. }
  split; [exact H|].
  exact (on_host cancel_silences_request "r1" _ (ProgressMessage "r2" Stage.start 0) H).
Defined.

(** C9 as stated fails when the request id is used again: the analyze
    message that follows the cancel is answered under the cancelled id. *)
Lemma cancel_then_reuse_notifies :
  ¬ (∀ (id : string) (later : list Incoming) (m : Outgoing),
       m ∈ (on_host handle_all (Some id) (CancelMessage id :: later)).2 →
       requestId_of m ≠ id).
Proof.
  intros H.
  apply (H "r1" [AnalyzeMessage "r1" [] sample_settings] (ProgressMessage "r1" Stage.start 0));
    [vm_compute; apply list_elem_of_here|reflexivity].
Qed.

(** C3 on a repeated follow: the same actor follows the same target twice,
    and [b] is listed twice among the neighbors of [a]; the adjacency lists
    do not hold a neighbor at most once. *)
Lemma adjacency_entry_repeated :
  ¬ (∀ (settings : AnalysisSettings) (logs : list LogEntry) (s t : string),
       (occurrences t (neighbors (graph_of settings logs) s) ≤ 1)%nat).
Proof.
  intros H. specialize (H sample_settings repeated_follow "a" "b").
  vm_compute in H. lia.
Qed.

(** C2 on two actors that follow each other: either event puts an entry
    into both neighbor lists, so the engine counts two internal edges in a
    two-node cluster that has one possible edge and reports density 2. *)
Theorem density_above_one :
  ∃ res c,
    (on_host analyzeLogs mutual_follow sample_settings).2 = Normal res ∧
    clusters res = [c] ∧ members c = ["a"; "b"] ∧
    neighbors (graph_of sample_settings mutual_follow) "a" = ["b"; "b"] ∧
    (density c == 2)%Q ∧ ¬ (density c <= 1)%Q.
Proof.
  eassert (Hres : (on_host analyzeLogs mutual_follow sample_settings).2 = Normal _)
    by (vm_compute; reflexivity).
  eexists _, _. split; [exact Hres|]. split; [reflexivity|].
  split; [reflexivity|]. split; [by vm_compute|]. split; [reflexivity|].
  intros Hle. by vm_compute in Hle.
Qed.

(** The three followers form one wave, of intensity 1. *)
Example follow_wave_is_one_wave :
  on_host emitted_waves follow_wave sample_settings =
  [ {| Wave.windowStart := 1704067200000; Wave.windowEnd := 1704067500000;
       Wave.action := "follow"; Wave.target := "T"; Wave.actors := ["A"; "B"; "C"];
       Wave.zScore := 3 # 3 |} ].
Proof. by vm_compute. Qed.

(** The clusters of the follow wave. *)
Lemma clusters_are_large_components_witness :
  ∃ res,
    (on_host analyzeLogs follow_wave sample_settings).2 = Normal res ∧
    NoDup (flat_map members (clusters res)) ∧
    (∀ c, c ∈ clusters res →
       ∃ u, u ∈ collect_nodes follow_wave ∧
            component_of (graph_of sample_settings follow_wave) u (members c)).
Proof.
  eassert (Hres : (on_host analyzeLogs follow_wave sample_settings).2 = Normal _)
    by (vm_compute; reflexivity).
  eexists. split; [exact Hres|].
  destruct (on_host clusters_are_large_components follow_wave sample_settings _ Hres)
    as (_ & Hcomp & _ & Hnd & _).
  split; [exact Hnd|]. intros c Hc. exact (proj1 (proj2 (Hcomp c Hc))).
Defined.

(** The second event of [unparsable] makes the run throw. *)
Lemma unparsable_timestamp_throws_witness :
  event "yesterday" "c" "b" "follow" ∈ unparsable ∧
  Host.Date_parse "yesterday" = None ∧
  (on_host analyzeLogs unparsable sample_settings).2
  = Throw (RangeError "Invalid time value").
Proof.
  assert (Hin : event "yesterday" "c" "b" "follow" ∈ unparsable)
    by (apply list_elem_of_further, list_elem_of_here).
  split; [exact Hin|]. split; [reflexivity|].
  exact (on_host unparsable_timestamp_throws unparsable sample_settings _ Hin eq_refl).
Defined.


(** C8 on the follow wave and one more follow at the last instant.  Under
    the thresholds 3 and 3 the run returns the wave of the three followers.
    Under the lower thresholds 1 and 1 the single follow at the last
    instant is a wave of its own, rendering the end of its window throws,
    and the run returns nothing: the wave emitted under the higher
    thresholds is not emitted under the lower ones. *)
Theorem lower_thresholds_lose_wave :
  on_host emitted_waves follow_wave_and_last_instant sample_settings =
  [ {| Wave.windowStart := 1704067200000; Wave.windowEnd := 1704067500000;
       Wave.action := "follow"; Wave.target := "T"; Wave.actors := ["A"; "B"; "C"];
       Wave.zScore := 3 # 3 |} ] ∧
  (on_host analyzeLogs follow_wave_and_last_instant (with_thresholds sample_settings 1 1)).2
  = Throw (RangeError "Invalid time value") ∧
  on_host emitted_waves follow_wave_and_last_instant (with_thresholds sample_settings 1 1)
  = [].
Proof. split_and!; by vm_compute. Qed.

(** The scorecard of [T], which performs no action. *)
Lemma zero_guards_witness :
  ∃ res sc,
    (on_host analyzeLogs follow_wave sample_settings).2 = Normal res ∧
    sc ∈ scorecards res ∧ Card.actor sc = "T" ∧
    (actions_by follow_wave (Card.actor sc) = 0%nat →
     Card.lowDiversityScore sc = 0%Q ∧ Card.coordinationScore sc = 0%Q).
Proof.
  eassert (Hres : (on_host analyzeLogs follow_wave sample_settings).2 = Normal _)
    by (vm_compute; reflexivity).
  with_result Hres
    ltac:(fun r => eassert (Hsc : _ ∈ scorecards r)
                     by (cbn [scorecards]; apply list_elem_of_further, list_elem_of_here)).
  eexists _, _. split; [exact Hres|]. split; [exact Hsc|]. split; [reflexivity|].
  exact (proj1 (on_host zero_guards follow_wave sample_settings _ _ Hres Hsc)).
Defined.

(** C6 as stated fails: [T] performs no action, lies in the cluster of
    size 4 with three adjacency entries, and gets clusterIsolationScore 1/4. *)
Lemma zero_actions_isolation_nonzero :
  ¬ (∀ (res : AnalysisResult) (sc : ActorScorecard),
       (on_host analyzeLogs follow_wave sample_settings).2 = Normal res →
       sc ∈ scorecards res →
       actions_by follow_wave (Card.actor sc) = 0%nat →
       (Card.lowDiversityScore sc == 0)%Q ∧ (Card.clusterIsolationScore sc == 0)%Q).
Proof.
  intros H.
  eassert (Hres : (on_host analyzeLogs follow_wave sample_settings).2 = Normal _)
    by (vm_compute; reflexivity).
  with_result Hres
    ltac:(fun r => eassert (Hsc : _ ∈ scorecards r)
                     by (cbn [scorecards]; apply list_elem_of_further, list_elem_of_here)).
  destruct (H _ _ Hres Hsc) as [_ Hiso]; [reflexivity|]. by vm_compute in Hiso.
Qed.

(** * The clock *)

Lemma datasetStart_parsed (Date_parse : string → option Z) (now now' : Z)
    (logs : list LogEntry) (l : LogEntry) :
  l ∈ logs → is_Some (Date_parse (timestamp l)) →
  datasetStart Date_parse now logs = datasetStart Date_parse now' logs.
Proof.
  intros Hl [t Ht]. unfold datasetStart.
  assert (Hin : t ∈ omap (λ l, Date_parse (timestamp l)) logs).
  { apply list_elem_of_omap. by exists l. }
  destruct (omap _ logs); [by apply elem_of_nil in Hin|done].
Qed.

(** X24: the engine does not depend on the clock.  [Date.now()] is read only
    when no timestamp of a non-empty log parses, and then the run throws:
    two runs on the same log and settings report the same progress and end
    the same way, whatever the current time. *)
Theorem analyzeLogs_ignores_clock (Date_parse : string → option Z) (now now' : Z)
    (normalizeLinks : list string → list string) (extractLinks : string → list string)
    (updateProfileAnomalyScore : string → list string → option Z → option Z → Q)
    (logs : list LogEntry) (settings : AnalysisSettings) :
  analyzeLogs Date_parse now normalizeLinks extractLinks updateProfileAnomalyScore
    logs settings =
  analyzeLogs Date_parse now' normalizeLinks extractLinks updateProfileAnomalyScore
    logs settings.
Proof.
  unfold analyzeLogs. case_bool_decide as Hlen; [done|].
  destruct (detect_clusters _ _ _) as [cl|]; [|done].
  destruct (collect_timeBins Date_parse settings logs) as [tb| |] eqn:Htb; try done.
  destruct logs as [|l logs]; [done|].
  assert (Hl : l ∈ l :: logs) by left.
  by rewrite (datasetStart_parsed Date_parse now now' (l :: logs) l Hl
                (collect_timeBins_parsed Date_parse settings (l :: logs) tb l Htb Hl)).
Qed.

(** * Further examples on the reference host *)

(** The report on the imported rows: one of three is valid. *)
Lemma validateLogs_issues_witness :
  imported ≠ [] ∧
  ∀ i, i ∈ issues (validateLogs Host.Date_parse imported) → level i = level_warn.
Proof.
  split; [discriminate|].
  exact (proj1 (proj2 (validateLogs_issues Host.Date_parse imported)) ltac:(discriminate)).
Defined.

(** The imported rows leave one row; the report is ok. *)
Lemma sanitizeLogs_ok_iff_rows_witness :
  (sanitizeLogs Host.Date_parse imported).1 ≠ [] ∧
  ok (sanitizeLogs Host.Date_parse imported).2 = true.
Proof.
  assert (H : (sanitizeLogs Host.Date_parse imported).1 ≠ []) by (vm_compute; discriminate).
  split; [exact H|].
  exact (proj2 (proj1 (sanitizeLogs_ok_iff_rows Host.Date_parse imported)) H).
Defined.

(** Cleaning the imported rows a second time changes nothing. *)
Lemma sanitizeLogs_idempotent_witness :
  (sanitizeLogs Host.Date_parse imported).1 ≠ [] ∧
  ok (sanitizeLogs Host.Date_parse (sanitizeLogs Host.Date_parse imported).1).2 = true ∧
  issues (sanitizeLogs Host.Date_parse (sanitizeLogs Host.Date_parse imported).1).2 = [].
Proof.
  assert (H : (sanitizeLogs Host.Date_parse imported).1 ≠ []) by (vm_compute; discriminate).
  split; [exact H|].
  exact (proj2 (proj2 (sanitizeLogs_idempotent Host.Date_parse imported)) H).
Defined.

(** The rows that are left of the imported ones have plain keys and lie
    well within the range of Date. *)
Lemma analyzeLogs_returns_on_sanitized_witness :
  plain_keys (sanitizeLogs Host.Date_parse imported).1 ∧
  within_Date_range Host.Date_parse sample_settings (sanitizeLogs Host.Date_parse imported).1 ∧
  ∃ res,
    (on_host analyzeLogs (sanitizeLogs Host.Date_parse imported).1 sample_settings).2
    = Normal res.
Proof.
  assert (Hp : plain_keys (sanitizeLogs Host.Date_parse imported).1)
    by keys_are_plain.
  assert (Hr : within_Date_range Host.Date_parse sample_settings
                 (sanitizeLogs Host.Date_parse imported).1).
  { intros l b Hl. vm_compute in Hl.
    repeat (apply elem_of_cons in Hl as [->|Hl]); [|by apply elem_of_nil in Hl].
    intros Hb. vm_compute in Hb. injection Hb as <-. by vm_compute. }
  split; [exact Hp|]. split; [exact Hr|].
  exact (on_host analyzeLogs_returns_on_sanitized imported sample_settings Hp Hr).
Defined.

(** The reports of the run on [unparsable], which throws. *)
Lemma analyzeLogs_progress_witness :
  plain_keys unparsable ∧
  (on_host analyzeLogs unparsable sample_settings).2 = Throw (RangeError "Invalid time value") ∧
  map pct (on_host analyzeLogs unparsable sample_settings).1 = [0; 15; 30; 45].
Proof.
  assert (Hp : plain_keys unparsable) by keys_are_plain.
  assert (He : (on_host analyzeLogs unparsable sample_settings).2
               = Throw (RangeError "Invalid time value")) by reflexivity.
  split; [exact Hp|]. split; [exact He|].
  rewrite (proj2 (proj2 (proj2 (on_host analyzeLogs_progress unparsable sample_settings)))
             Hp _ He).
  reflexivity.
Defined.


(** The elements of the follow wave: four nodes, three edges. *)
Lemma elements_nodes_then_edges_witness :
  ∃ res,
    (on_host analyzeLogs follow_wave sample_settings).2 = Normal res ∧
    ∀ e, EdgeElement e ∈ elements res →
         NodeElement (source_of e) (source_of e) ∈ elements res ∧
         NodeElement (target_of e) (target_of e) ∈ elements res.
Proof.
  eassert (Hres : (on_host analyzeLogs follow_wave sample_settings).2 = Normal _)
    by (vm_compute; reflexivity).
  eexists. split; [exact Hres|].
  destruct (on_host elements_nodes_then_edges follow_wave sample_settings _ Hres)
    as (ids & _ & _ & _ & H).
  exact H.
Defined.

(** The cluster of the follow wave has id 0. *)
Lemma clusterIds_count_from_zero_witness :
  ∃ res c,
    (on_host analyzeLogs follow_wave sample_settings).2 = Normal res ∧
    clusters res !! 0%nat = Some c ∧ clusterId c = 0.
Proof.
  eassert (Hres : (on_host analyzeLogs follow_wave sample_settings).2 = Normal _)
    by (vm_compute; reflexivity).
  with_result Hres
    ltac:(fun r => eassert (Hc : clusters r !! 0%nat = Some _) by reflexivity).
  eexists _, _. split; [exact Hres|]. split; [exact Hc|].
  exact (on_host clusterIds_count_from_zero follow_wave sample_settings _ 0%nat _ Hres Hc).
Defined.

(** The log with the actor [__proto__] has a scorecard for [b] and no
    other. *)
Lemma one_scorecard_per_node_witness :
  ∃ res,
    (on_host analyzeLogs proto_actor sample_settings).2 = Normal res ∧
    map Card.actor (scorecards res) = ["b"] ∧
    ∀ a, a ∈ map Card.actor (scorecards res) ↔
         a ≠ "__proto__" ∧ ∃ l, l ∈ proto_actor ∧ (actor l = a ∨ target l = a).
Proof.
  eassert (Hres : (on_host analyzeLogs proto_actor sample_settings).2 = Normal _)
    by (vm_compute; reflexivity).
  eexists. split; [exact Hres|]. split; [reflexivity|].
  exact (proj2 (on_host one_scorecard_per_node proto_actor sample_settings _ Hres)).
Defined.

(** The window of the wave of the three followers. *)
Lemma wave_window_witness :
  ∃ res w,
    (on_host analyzeLogs follow_wave sample_settings).2 = Normal res ∧
    w ∈ waves res ∧
    Wave.windowEnd w = Wave.windowStart w + Z.max 1 (timeBinMinutes sample_settings) * 60000.
Proof.
  eassert (Hres : (on_host analyzeLogs follow_wave sample_settings).2 = Normal _)
    by (vm_compute; reflexivity).
  with_result Hres
    ltac:(fun r => eassert (Hw : _ ∈ waves r) by (cbn [waves]; apply list_elem_of_here)).
  eexists _, _. split; [exact Hres|]. split; [exact Hw|].
  exact (proj1 (proj2 (on_host wave_window follow_wave sample_settings _ _ Hres Hw))).
Defined.

(** The wave of the three followers lists each of them once. *)
Lemma wave_intensity_witness :
  ∃ res w,
    (on_host analyzeLogs follow_wave sample_settings).2 = Normal res ∧
    w ∈ waves res ∧ NoDup (Wave.actors w) ∧ (1 <= Wave.zScore w)%Q.
Proof.
  eassert (Hres : (on_host analyzeLogs follow_wave sample_settings).2 = Normal _)
    by (vm_compute; reflexivity).
  with_result Hres
    ltac:(fun r => eassert (Hw : _ ∈ waves r) by (cbn [waves]; apply list_elem_of_here)).
  eexists _, _. split; [exact Hres|]. split; [exact Hw|].
  destruct (on_host wave_intensity follow_wave sample_settings _ _ Hres Hw)
    as (Hnd & _ & _ & _ & _ & Hz).
  split; [exact Hnd|exact Hz].
Defined.

(** The waves of the follow wave are pairwise distinct. *)
Lemma waves_distinct_witness :
  ∃ res,
    (on_host analyzeLogs follow_wave sample_settings).2 = Normal res ∧
    NoDup (map (λ w, (Wave.windowStart w, Wave.action w, Wave.target w)) (waves res)).
Proof.
  eassert (Hres : (on_host analyzeLogs follow_wave sample_settings).2 = Normal _)
    by (vm_compute; reflexivity).
  eexists. split; [exact Hres|].
  exact (on_host waves_distinct follow_wave sample_settings _ Hres).
Defined.

(** The scorecard of [n]: one churn action out of two events. *)
Lemma churn_and_diversity_witness :
  ∃ res sc,
    (on_host analyzeLogs new_account sample_settings).2 = Normal res ∧
    sc ∈ scorecards res ∧ Card.actor sc = "n" ∧
    Card.churnScore sc = inject_Z 1 ∧ (Card.lowDiversityScore sc < 1)%Q.
Proof.
  eassert (Hres : (on_host analyzeLogs new_account sample_settings).2 = Normal _)
    by (vm_compute; reflexivity).
  with_result Hres
    ltac:(fun r => eassert (Hsc : _ ∈ scorecards r)
                     by (cbn [scorecards]; apply list_elem_of_here)).
  eexists _, _. split; [exact Hres|]. split; [exact Hsc|]. split; [reflexivity|].
  destruct (on_host churn_and_diversity new_account sample_settings _ _ Hres Hsc)
    as (Hchurn & _ & _ & Hlt).
  split; [exact Hchurn|exact Hlt].
Defined.

(** The scorecard of [a] in the mutual follow. *)
Lemma reciprocalRate_spec_witness :
  ∃ res sc,
    (on_host analyzeLogs mutual_follow sample_settings).2 = Normal res ∧
    sc ∈ scorecards res ∧ (Card.reciprocalRate sc <= 1)%Q.
Proof.
  eassert (Hres : (on_host analyzeLogs mutual_follow sample_settings).2 = Normal _)
    by (vm_compute; reflexivity).
  with_result Hres
    ltac:(fun r => eassert (Hsc : _ ∈ scorecards r)
                     by (cbn [scorecards]; apply list_elem_of_here)).
  eexists _, _. split; [exact Hres|]. split; [exact Hsc|].
  exact (proj2 (proj2 (on_host reciprocalRate_spec mutual_follow sample_settings _ _ Hres Hsc))).
Defined.

(** The scorecard of [A] in the follow wave. *)
Lemma coordination_spec_witness :
  ∃ res sc,
    (on_host analyzeLogs follow_wave sample_settings).2 = Normal res ∧
    sc ∈ scorecards res ∧ Card.burstRate sc = Card.coordinationScore sc.
Proof.
  eassert (Hres : (on_host analyzeLogs follow_wave sample_settings).2 = Normal _)
    by (vm_compute; reflexivity).
  with_result Hres
    ltac:(fun r => eassert (Hsc : _ ∈ scorecards r)
                     by (cbn [scorecards]; apply list_elem_of_here)).
  eexists _, _. split; [exact Hres|]. split; [exact Hsc|].
  exact (proj1 (on_host coordination_spec follow_wave sample_settings _ _ Hres Hsc)).
Defined.

(** The scorecard of [n], first seen two days after its creation. *)
Lemma newAccountScore_spec_witness :
  ∃ res sc,
    (on_host analyzeLogs new_account sample_settings).2 = Normal res ∧
    sc ∈ scorecards res ∧ Card.actor sc = "n" ∧
    Card.noveltyScore sc = Card.newAccountScore sc.
Proof.
  assert (Hp : plain_keys new_account) by keys_are_plain.
  eassert (Hres : (on_host analyzeLogs new_account sample_settings).2 = Normal _)
    by (vm_compute; reflexivity).
  with_result Hres
    ltac:(fun r => eassert (Hsc : _ ∈ scorecards r)
                     by (cbn [scorecards]; apply list_elem_of_here)).
  eexists _, _. split; [exact Hres|]. split; [exact Hsc|]. split; [reflexivity|].
  exact (proj1 (on_host newAccountScore_spec new_account sample_settings _ _ Hp Hres Hsc)).
Defined.

(** On the reference host the profile anomaly score is 0. *)
Lemma sybilScore_at_most_one_witness :
  (∀ a l followers following,
     (Host.updateProfileAnomalyScore a l followers following <= 1)%Q) ∧
  ∃ res sc,
    (on_host analyzeLogs follow_wave sample_settings).2 = Normal res ∧
    sc ∈ scorecards res ∧ (Card.sybilScore sc <= 1)%Q.
Proof.
  assert (H : ∀ a l followers following,
            (Host.updateProfileAnomalyScore a l followers following <= 1)%Q).
  { intros a l followers following. unfold Host.updateProfileAnomalyScore. discriminate. }
  split; [exact H|].
  eassert (Hres : (on_host analyzeLogs follow_wave sample_settings).2 = Normal _)
    by (vm_compute; reflexivity).
  with_result Hres
    ltac:(fun r => eassert (Hsc : _ ∈ scorecards r)
                     by (cbn [scorecards]; apply list_elem_of_here)).
  eexists _, _. split; [exact Hres|]. split; [exact Hsc|].
  exact (proj1 (on_host sybilScore_at_most_one follow_wave sample_settings _ _ H Hres Hsc)).
Defined.

(** The cluster of the mutual follow: two events on one pair. *)
Lemma cluster_metrics_exact_witness :
  ∃ res c,
    (on_host analyzeLogs mutual_follow sample_settings).2 = Normal res ∧
    c ∈ clusters res ∧ externalEdges c = 0 ∧ (conductance c == 0)%Q.
Proof.
  eassert (Hres : (on_host analyzeLogs mutual_follow sample_settings).2 = Normal _)
    by (vm_compute; reflexivity).
  with_result Hres
    ltac:(fun r => eassert (Hc : _ ∈ clusters r) by (cbn [clusters]; apply list_elem_of_here)).
  eexists _, _. split; [exact Hres|]. split; [exact Hc|].
  destruct (on_host cluster_metrics_exact mutual_follow sample_settings _ _ Hres Hc)
    as (Hext & Hcond & _).
  split; [exact Hext|exact Hcond].
Defined.

(** The scorecards of [numeric_ids]: 9 and 10 come before alice. *)
Lemma scorecards_numeric_ids_first_witness :
  ∃ res indexed named,
    (on_host analyzeLogs numeric_ids sample_settings).2 = Normal res ∧
    map Card.actor (scorecards res) = indexed ++ named ∧
    StronglySorted index_le indexed ∧
    named = filter (λ a, Js.array_index a = None ∧ a ≠ "__proto__")
              (collect_nodes numeric_ids).
Proof.
  eassert (Hres : (on_host analyzeLogs numeric_ids sample_settings).2 = Normal _)
    by (vm_compute; reflexivity).
  destruct (on_host scorecards_numeric_ids_first numeric_ids sample_settings _ Hres)
    as (indexed & named & Heq & _ & Hsorted & Hnamed).
  eexists. exists indexed, named. split; [exact Hres|]. split; [exact Heq|].
  split; [exact Hsorted|exact Hnamed].
Defined.

(** * The page on the reference host *)

Local Notation "'on_page' f" :=
  (f Host.Date_parse Host.normalizeLinks Host.extractLinks Host.updateProfileAnomalyScore)
    (at level 10, f at level 9, only parsing).

(** The page on a log with an unparsable timestamp: elements and clusters
    are set, then the alert is raised. *)
Lemma processData_effects_witness :
  plain_keys unparsable ∧
  (∃ l, l ∈ unparsable ∧ Host.Date_parse (timestamp l) = None) ∧
  ∃ clustersList,
    on_page processData sample_settings unparsable =
    Normal [setElements
              (map (λ id, NodeElement id id) (collect_nodes unparsable) ++
               map EdgeElement (collect_edges sample_settings unparsable));
            setClusters clustersList;
            alert "Error processing data. Check console for details."].
Proof.
  assert (H : ∃ l, l ∈ unparsable ∧ Host.Date_parse (timestamp l) = None).
  { exists (event "yesterday" "c" "b" "follow").
    split; [apply list_elem_of_further, list_elem_of_here|reflexivity]. }
  assert (Hp : plain_keys unparsable) by keys_are_plain.
  split; [exact Hp|]. split; [exact H|].
  exact (proj1 (proj2 (on_host processData_effects sample_settings unparsable Hp)) H).
Defined.

(** The page on the follow wave: one wave, for the bin and the action. *)
Lemma page_waves_per_bin_and_action_witness :
  ∃ effects ws,
    on_page processData sample_settings follow_wave = Normal effects ∧
    setWaves ws ∈ effects ∧
    ∀ w, w ∈ ws →
      ∀ x, x ∈ Wave.actors w ↔
           ∃ l, l ∈ page_group Host.Date_parse sample_settings follow_wave
                      (Wave.windowStart w) (Wave.action w) ∧ actor l = x.
Proof.
  eassert (Hrun : on_page processData sample_settings follow_wave = Normal _)
    by (vm_compute; reflexivity).
  with_result Hrun
    ltac:(fun r => eassert (Hws : setWaves _ ∈ r)
                     by (do 2 apply list_elem_of_further; apply list_elem_of_here)).
  eexists _, _. split; [exact Hrun|]. split; [exact Hws|].
  intros w Hw.
  exact (proj2 (proj2 (on_page page_waves_per_bin_and_action sample_settings follow_wave
                         _ _ Hrun Hws) w Hw)).
Defined.

(** The page on the follow wave: the novelty score of the first card. *)
Lemma page_coordination_has_no_threshold_witness :
  ∃ effects cards sc,
    on_page processData sample_settings follow_wave = Normal effects ∧
    setScorecards cards ∈ effects ∧ sc ∈ cards ∧ PageCard.noveltyScore sc = 0%Q.
Proof.
  eassert (Hrun : on_page processData sample_settings follow_wave = Normal _)
    by (vm_compute; reflexivity).
  with_result Hrun
    ltac:(fun r => eassert (Hcards : setScorecards _ ∈ r)
                     by (do 3 apply list_elem_of_further; apply list_elem_of_here)).
  lazymatch type of Hcards with
  | setScorecards ?cs ∈ _ => eassert (Hsc : _ ∈ cs) by apply list_elem_of_here
  end.
  eexists _, _, _. split; [exact Hrun|]. split; [exact Hcards|]. split; [exact Hsc|].
  exact (proj1 (on_page page_coordination_has_no_threshold sample_settings follow_wave
                  _ _ _ Hrun Hcards Hsc)).
Defined.
